(** * SecureVault: a shallow embedding of the vault's logic-bearing code

    The development follows the source units of the repository:
    - [CryptoUtils] (crypto.js): PBKDF2 / AES-GCM envelopes and the password hash;
    - [PasswordVault] (project/app.js): registration, login, the entry list and
      the web application's domain matcher;
    - [BackgroundService] (background.js): the extension's mirrored session
      state, its message handler, its domain matcher and the autofill request;
    - [ContentScript] (content.js): the forwarding of the page's messages to
      the service worker.

    Platform facilities are modelled as follows.
    - A JavaScript string is its sequence of UTF-16 code units ([list N]).
    - [TextEncoder], [TextDecoder], [btoa] and [atob] are written out after the
      WHATWG Encoding and Infra standards.
    - WebCrypto (PBKDF2, AES-GCM), Unicode case mapping and JSON are interfaces
      ([WebCrypto], [UnicodeCase], [JSONCodec]); what a theorem needs of them is
      a hypothesis of that theorem.
    - [crypto.getRandomValues] reads an explicit entropy tape; [Date.now()] and
      [new Date().toISOString()] are inputs of the handler that reads them.
    - [await] is sequential composition: a handler runs to its end before
      the next event is handled. For the service worker, whose listener does
      not wait for its handlers, [BackgroundService.play] runs the handlers
      part by part, so that they may overlap.
    - DOM rendering is not modelled; the [alert] calls and the messages
      posted to the extension are logged. *)

From Stdlib Require Import NArith ZArith Lia ZifyBool List Bool String Ascii.
From Stdlib Require Import Strings.Byte Numbers.DecimalString Numbers.DecimalZ Numbers.DecimalPos.
From stdpp Require Import gmap list.
Import ListNotations.

Local Open Scope N_scope.

Ltac Zify.zify_post_hook ::= Z.to_euclidean_division_equations.

(** ** JavaScript values shared by the three source units *)

Module JS.

(** A string is its sequence of UTF-16 code units. *)
Abbreviation jsstring := (list N).

(** A string literal of the source (ASCII only). *)
Definition lit (s : string) : jsstring :=
  map N_of_ascii (list_ascii_of_string s).

Inductive Exn : Type :=
| InvalidCharacterError
| OperationError
| TypeError
| JsError (msg : string).

(** The outcome of evaluating an expression: a value or a thrown exception. *)
Inductive completion (A : Type) : Type :=
| Normal (a : A)
| Throw (e : Exn).
Arguments Normal {A} a.
Arguments Throw {A} e.

Definition is_throw {A} (c : completion A) : bool :=
  match c with Normal _ => false | Throw _ => true end.

(** The entropy tape read by [crypto.getRandomValues]. *)
Definition Rng := nat -> byte.

(** Computations over a state [S] that may throw; the state reached when an
    exception is thrown is kept, as assignments made before a [throw] are. *)
Definition M (S A : Type) : Type := S -> completion A * S.

Definition ret {S A} (a : A) : M S A := fun s => (Normal a, s).
Definition throw {S A} (e : Exn) : M S A := fun s => (Throw e, s).
Definition bind {S A B} (m : M S A) (k : A -> M S B) : M S B :=
  fun s => match m s with
           | (Normal a, s') => k a s'
           | (Throw e, s') => (Throw e, s')
           end.
Definition lift {S A} (c : completion A) : M S A := fun s => (c, s).
Definition get {S} : M S S := fun s => (Normal s, s).
Definition modify {S} (f : S -> S) : M S unit := fun s => (Normal tt, f s).
(** [try { m } catch (error) { handler }] *)
Definition try_catch {S A} (m : M S A) (handler : Exn -> M S A) : M S A :=
  fun s => match m s with
           | (Normal a, s') => (Normal a, s')
           | (Throw e, s') => handler e s'
           end.

Notation "'let*' x ':=' m 'in' k" := (bind m (fun x => k))
  (at level 10, x name, m at level 100, k at level 200).

(** [s.startsWith(t)] *)
Fixpoint startsWith (s t : jsstring) {struct t} : bool :=
  match t, s with
  | [], _ => true
  | _ :: _, [] => false
  | b :: t', a :: s' => (a =? b) && startsWith s' t'
  end.

(** [s.includes(t)]: [t] occurs in [s] as a contiguous run of code units. *)
Fixpoint includes (s t : jsstring) : bool :=
  startsWith s t ||
  match s with
  | [] => false
  | _ :: s' => includes s' t
  end.

(** [s.replace(pat, rep)] for a string pattern: the first occurrence only.
    The source passes the replacement [''], so the [$]-patterns of a
    replacement string do not arise. *)
Fixpoint replace (s pat rep : jsstring) : jsstring :=
  if startsWith s pat then rep ++ skipn (List.length pat) s
  else match s with
       | [] => []
       | c :: s' => c :: replace s' pat rep
       end.

(** ECMAScript WhiteSpace and LineTerminator code points, as [trim] strips them. *)
Definition is_whitespace (c : N) : bool :=
  ((9 <=? c) && (c <=? 13)) || (c =? 32) || (c =? 160) || (c =? 5760) ||
  ((8192 <=? c) && (c <=? 8202)) || (c =? 8232) || (c =? 8233) ||
  (c =? 8239) || (c =? 8287) || (c =? 12288) || (c =? 65279).

Fixpoint trimStart (s : jsstring) : jsstring :=
  match s with
  | [] => []
  | c :: s' => if is_whitespace c then trimStart s' else s
  end.

Definition trim (s : jsstring) : jsstring :=
  rev (trimStart (rev (trimStart s))).

(** [s.charAt(0)] and [s.slice(1)] *)
Definition charAt0 (s : jsstring) : jsstring := firstn 1 s.
Definition slice1 (s : jsstring) : jsstring := skipn 1 s.

(** [!s] for a string: only the empty string is falsy. *)
Definition is_empty (s : jsstring) : bool :=
  match s with [] => true | _ :: _ => false end.

(** [a === b] on strings. *)
Definition str_eqb (a b : jsstring) : bool := bool_decide (a = b).

(** [n.toString()] for an integral Number (decimal digits, a leading [-] when
    negative); [Date.now()] stays far below the magnitude 1e21 at which the
    source language switches to exponent notation. *)
Definition Number_toString (n : Z) : jsstring :=
  lit (NilZero.string_of_int (Z.to_int n)).

End JS.
Export JS.

(** ** Text and base64 codecs of the platform *)

Module Encoding.

Definition byte_of_N (n : N) : byte :=
  match Byte.of_N n with
  | Some b => b
  | None => x00
  end.

#[global] Instance byte_eq_decision : EqDecision byte := Byte.byte_eq_dec.

(** *** UTF-16 code units and Unicode scalar values *)

Definition is_high_surrogate (c : N) : bool := (0xD800 <=? c) && (c <=? 0xDBFF).
Definition is_low_surrogate (c : N) : bool := (0xDC00 <=? c) && (c <=? 0xDFFF).
Definition is_surrogate (c : N) : bool := (0xD800 <=? c) && (c <=? 0xDFFF).

Definition surrogate_pair (hi lo : N) : N :=
  0x10000 + (hi - 0xD800) * 0x400 + (lo - 0xDC00).

(** Conversion of a string to scalar values: a surrogate pair is one code
    point, an unpaired surrogate becomes U+FFFD. *)
Fixpoint to_scalar (s : jsstring) : list N :=
  match s with
  | [] => []
  | c :: rest =>
      if is_high_surrogate c then
        match rest with
        | d :: rest' =>
            if is_low_surrogate d then surrogate_pair c d :: to_scalar rest'
            else 0xFFFD :: to_scalar rest
        | [] => [0xFFFD]
        end
      else if is_low_surrogate c then 0xFFFD :: to_scalar rest
      else c :: to_scalar rest
  end.

Definition from_scalar (cp : N) : jsstring :=
  if cp <? 0x10000 then [cp]
  else [0xD800 + (cp - 0x10000) / 0x400; 0xDC00 + (cp - 0x10000) mod 0x400].

(** [s.isWellFormed()]: every code unit is 16 bits wide and every surrogate
    is half of a pair. *)
Fixpoint isWellFormed (s : jsstring) : bool :=
  match s with
  | [] => true
  | c :: rest =>
      if is_high_surrogate c then
        match rest with
        | d :: rest' => is_low_surrogate d && isWellFormed rest'
        | [] => false
        end
      else negb (is_low_surrogate c) && (c <? 0x10000) && isWellFormed rest
  end.

(** Every code unit fits 16 bits: the value is a string of the source language. *)
Definition is_string (s : jsstring) : bool := forallb (fun c => c <? 0x10000) s.

(** *** UTF-8 *)

Definition utf8_encode_cp (c : N) : list byte :=
  if c <? 0x80 then [byte_of_N c]
  else if c <? 0x800 then
    [byte_of_N (0xC0 + c / 64); byte_of_N (0x80 + c mod 64)]
  else if c <? 0x10000 then
    [byte_of_N (0xE0 + c / 4096); byte_of_N (0x80 + (c / 64) mod 64);
     byte_of_N (0x80 + c mod 64)]
  else
    [byte_of_N (0xF0 + c / 262144); byte_of_N (0x80 + (c / 4096) mod 64);
     byte_of_N (0x80 + (c / 64) mod 64); byte_of_N (0x80 + c mod 64)].

(** [new TextEncoder().encode(s)] *)
Definition TextEncoder_encode (s : jsstring) : list byte :=
  flat_map utf8_encode_cp (to_scalar s).

(** The state of the UTF-8 decoder of the Encoding standard. *)
Record Utf8State : Type := mkUtf8State {
  code_point : N;
  bytes_seen : N;
  bytes_needed : N;
  lower_boundary : N;
  upper_boundary : N
}.

Definition utf8_init : Utf8State := mkUtf8State 0 0 0 0x80 0xBF.

(** A byte read while no sequence is open. *)
Definition utf8_lead (b : N) : list N * Utf8State :=
  if b <=? 0x7F then ([b], utf8_init)
  else if (0xC2 <=? b) && (b <=? 0xDF) then
    ([], mkUtf8State (b mod 32) 0 1 0x80 0xBF)
  else if (0xE0 <=? b) && (b <=? 0xEF) then
    ([], mkUtf8State (b mod 16) 0 2
           (if b =? 0xE0 then 0xA0 else 0x80) (if b =? 0xED then 0x9F else 0xBF))
  else if (0xF0 <=? b) && (b <=? 0xF4) then
    ([], mkUtf8State (b mod 8) 0 3
           (if b =? 0xF0 then 0x90 else 0x80) (if b =? 0xF4 then 0x8F else 0xBF))
  else ([0xFFFD], utf8_init).

(** One byte through the decoder: the code points emitted and the next
    state. A byte outside the boundaries ends the open sequence with U+FFFD
    and is read again as a lead byte. *)
Definition utf8_step (st : Utf8State) (b : N) : list N * Utf8State :=
  if bytes_needed st =? 0 then utf8_lead b
  else if (b <? lower_boundary st) || (upper_boundary st <? b) then
    let (out, st') := utf8_lead b in (0xFFFD :: out, st')
  else
    let cp := code_point st * 64 + b mod 64 in
    if bytes_seen st + 1 =? bytes_needed st then ([cp], utf8_init)
    else ([], mkUtf8State cp (bytes_seen st + 1) (bytes_needed st) 0x80 0xBF).

Fixpoint utf8_decode_from (st : Utf8State) (bs : list byte) : list N :=
  match bs with
  | [] => if bytes_needed st =? 0 then [] else [0xFFFD]
  | b :: rest =>
      let (out, st') := utf8_step st (Byte.to_N b) in
      out ++ utf8_decode_from st' rest
  end.

Definition utf8_decode (bs : list byte) : list N := utf8_decode_from utf8_init bs.

(** A decoder built without [ignoreBOM] drops one leading U+FEFF. *)
Definition strip_bom (cps : list N) : list N :=
  match cps with
  | c :: rest => if c =? 0xFEFF then rest else cps
  | [] => []
  end.

(** [new TextDecoder().decode(bytes)] *)
Definition TextDecoder_decode (bs : list byte) : jsstring :=
  flat_map from_scalar (strip_bom (utf8_decode bs)).

(** *** base64 *)

(** [String.fromCharCode(...bytes)] *)
Definition String_fromCharCode (bs : list byte) : jsstring := map Byte.to_N bs.

(** [Uint8Array.from(s, c => c.charCodeAt(0))]: each code unit modulo 256. *)
Definition Uint8Array_from (s : jsstring) : list byte :=
  map (fun c => byte_of_N (c mod 256)) s.

Definition b64_char (i : N) : N :=
  if i <? 26 then 65 + i
  else if i <? 52 then 97 + (i - 26)
  else if i <? 62 then 48 + (i - 52)
  else if i =? 62 then 43
  else 47.

Definition b64_index (c : N) : option N :=
  if (65 <=? c) && (c <=? 90) then Some (c - 65)
  else if (97 <=? c) && (c <=? 122) then Some (c - 97 + 26)
  else if (48 <=? c) && (c <=? 57) then Some (c - 48 + 52)
  else if c =? 43 then Some 62
  else if c =? 47 then Some 63
  else None.

Definition equals_sign : N := 61.

Fixpoint b64_encode (l : list N) : jsstring :=
  match l with
  | [] => []
  | [a] => [b64_char (a / 4); b64_char ((a mod 4) * 16); equals_sign; equals_sign]
  | [a; b] =>
      [b64_char (a / 4); b64_char ((a mod 4) * 16 + b / 16);
       b64_char ((b mod 16) * 4); equals_sign]
  | a :: b :: c :: rest =>
      b64_char (a / 4) :: b64_char ((a mod 4) * 16 + b / 16) ::
      b64_char ((b mod 16) * 4 + c / 64) :: b64_char (c mod 64) ::
      b64_encode rest
  end.

(** [btoa(s)]: throws when a code unit exceeds 255. *)
Definition btoa (s : jsstring) : completion jsstring :=
  if forallb (fun c => c <=? 255) s then Normal (b64_encode s)
  else Throw InvalidCharacterError.

Definition is_ascii_whitespace (c : N) : bool :=
  (c =? 9) || (c =? 10) || (c =? 12) || (c =? 13) || (c =? 32).

(** Padding is removed only from data whose length is a multiple of four:
    one or two trailing [=]. *)
Definition strip_padding (s : jsstring) : jsstring :=
  if (N.of_nat (List.length s)) mod 4 =? 0 then
    match rev s with
    | p :: q :: r =>
        if p =? equals_sign then
          if q =? equals_sign then rev r else rev (q :: r)
        else s
    | [p] => if p =? equals_sign then [] else s
    | [] => s
    end
  else s.

Fixpoint b64_indices (s : jsstring) : option (list N) :=
  match s with
  | [] => Some []
  | c :: s' =>
      match b64_index c, b64_indices s' with
      | Some i, Some l => Some (i :: l)
      | _, _ => None
      end
  end.

(** Four sextets give three bytes; twelve or eighteen left-over bits give
    one or two bytes, the low bits being discarded. *)
Fixpoint b64_decode_sextets (l : list N) : list N :=
  match l with
  | a :: b :: c :: d :: rest =>
      (a * 4 + b / 16) :: ((b mod 16) * 16 + c / 4) :: ((c mod 4) * 64 + d) ::
      b64_decode_sextets rest
  | [a; b; c] => [a * 4 + b / 16; (b mod 16) * 16 + c / 4]
  | [a; b] => [a * 4 + b / 16]
  | _ => []
  end.

(** [atob(s)]: the forgiving-base64 decode of the Infra standard. *)
Definition atob (s : jsstring) : completion jsstring :=
  let data := strip_padding (List.filter (fun c => negb (is_ascii_whitespace c)) s) in
  if (N.of_nat (List.length data)) mod 4 =? 1 then Throw InvalidCharacterError
  else match b64_indices data with
       | Some l => Normal (b64_decode_sextets l)
       | None => Throw InvalidCharacterError
       end.

(** The sextets and the padding of [b64_encode], apart: the encoding is
    the characters of the former followed by the latter. *)
Fixpoint b64_sextets (l : list N) : list N :=
  match l with
  | [] => []
  | [a] => [a / 4; (a mod 4) * 16]
  | [a; b] => [a / 4; (a mod 4) * 16 + b / 16; (b mod 16) * 4]
  | a :: b :: c :: rest =>
      a / 4 :: (a mod 4) * 16 + b / 16 :: (b mod 16) * 4 + c / 64 :: c mod 64 ::
      b64_sextets rest
  end.

Fixpoint b64_pad (l : list N) : jsstring :=
  match l with
  | [] => []
  | [_] => [equals_sign; equals_sign]
  | [_; _] => [equals_sign]
  | _ :: _ :: _ :: rest => b64_pad rest
  end.

(** A scalar value: a code point that is no surrogate. *)
Definition is_scalar (c : N) : bool := (c <? 0x110000) && negb (is_surrogate c).

End Encoding.
Export Encoding.

(** ** Interfaces of the platform *)

(** WebCrypto as the source calls it: PBKDF2 ([importKey] followed by
    [deriveKey] or [deriveBits]) and AES-GCM. The arguments of the PBKDF2
    operations are the password bytes, the salt, the iteration count and the
    output length in bits; those of AES-GCM the key, the IV and the data. *)
Class WebCrypto : Type := {
  CryptoKey : Type;
  pbkdf2_deriveKey : list byte -> list byte -> N -> N -> completion CryptoKey;
  pbkdf2_deriveBits : list byte -> list byte -> N -> N -> completion (list byte);
  aes_gcm_encrypt : CryptoKey -> list byte -> list byte -> completion (list byte);
  aes_gcm_decrypt : CryptoKey -> list byte -> list byte -> completion (list byte)
}.

(** [String.prototype.toLowerCase] and [toUpperCase]. *)
Class UnicodeCase : Type := {
  toLowerCase : jsstring -> jsstring;
  toUpperCase : jsstring -> jsstring
}.

Definition ascii_lower (c : N) : N :=
  if (65 <=? c) && (c <=? 90) then c + 32 else c.
Definition ascii_upper (c : N) : N :=
  if (97 <=? c) && (c <=? 122) then c - 32 else c.
Definition is_ascii (s : jsstring) : bool := forallb (fun c => c <? 128) s.

(** ** crypto.js *)

Module CryptoUtils.
Section CryptoUtils.
Context {WC : WebCrypto}.

(** The constants set by the constructor. *)
Definition keyLength : N := 256.
Definition ivLength : nat := 12.
Definition saltLength : nat := 16.
Definition tagLength : nat := 16.
Definition iterations : N := 100000.

Definition generateRandomBytes (length : nat) : M Rng (list byte) :=
  fun r => (Normal (map r (seq 0 length)), fun i => r (length + i)%nat).

Definition deriveKey (password : jsstring) (salt : list byte) : M Rng CryptoKey :=
  let passwordBuffer := TextEncoder_encode password in
  lift (pbkdf2_deriveKey passwordBuffer salt iterations keyLength).

(** The limit an engine puts on the number of arguments of
    [String.fromCharCode(...result)] is not modelled: a plaintext too long
    for it makes [encrypt] throw, it does not change what is sealed. *)
Definition encrypt (plaintext password : jsstring) : M Rng jsstring :=
  try_catch
    (let data := TextEncoder_encode plaintext in
     let* salt := generateRandomBytes saltLength in
     let* iv := generateRandomBytes ivLength in
     let* key := deriveKey password salt in
     let* encrypted := lift (aes_gcm_encrypt key iv data) in
     let result := salt ++ iv ++ encrypted in
     lift (btoa (String_fromCharCode result)))
    (fun _ => throw (JsError "Failed to encrypt data")).

Definition decrypt (encryptedData password : jsstring) : M Rng jsstring :=
  try_catch
    (let* binary := lift (atob encryptedData) in
     let data := Uint8Array_from binary in
     let salt := firstn saltLength data in
     let iv := firstn ivLength (skipn saltLength data) in
     let encrypted := skipn (saltLength + ivLength) data in
     let* key := deriveKey password salt in
     let* decryptedBuffer := lift (aes_gcm_decrypt key iv encrypted) in
     ret (TextDecoder_decode decryptedBuffer))
    (fun _ =>
       throw (JsError "Failed to decrypt data - invalid password or corrupted data")).

(** [salt = null] is [None]; a byte array, even an empty one, is truthy and
    is used as given. *)
Definition hashPassword (password : jsstring) (salt : option (list byte)) :
  M Rng jsstring :=
  let data := TextEncoder_encode password in
  let* salt := match salt with
               | Some s => ret s
               | None => generateRandomBytes saltLength
               end in
  let* hash := lift (pbkdf2_deriveBits data salt iterations 256) in
  let result := salt ++ hash in
  lift (btoa (String_fromCharCode result)).

(** The body of the [try] block of [verifyPassword]. *)
Definition verifyPassword_try (password storedHash : jsstring) : M Rng bool :=
  let* binary := lift (atob storedHash) in
  let hashData := Uint8Array_from binary in
  let salt := firstn saltLength hashData in
  let* computedHash := hashPassword password (Some salt) in
  ret (str_eqb computedHash storedHash).

Definition verifyPassword (password storedHash : jsstring) : M Rng bool :=
  try_catch (verifyPassword_try password storedHash) (fun _ => ret false).

End CryptoUtils.
End CryptoUtils.

(** ** The data model *)

(** An account as [handleRegister] stores it in the [users] mapping. *)
Record UserAccount : Type := mkUser {
  user_email : jsstring;
  user_hashedPassword : jsstring;
  user_createdAt : jsstring
}.

(** A vault entry as [handleAddEntry] builds it; [updatedAt] is set by an edit. *)
Record Entry : Type := mkEntry {
  entry_id : jsstring;
  entry_platform : jsstring;
  entry_username : jsstring;
  entry_password : jsstring;
  entry_createdAt : jsstring;
  entry_updatedAt : option jsstring
}.

(** The object a domain query answers with. The web application's query
    sets [platform], [username] and [password]; the extension's query sets
    [platform] and [password] only, so [username] is absent there. *)
Record PasswordData : Type := mkPasswordData {
  pd_platform : jsstring;
  pd_username : option jsstring;
  pd_password : jsstring
}.

(** The [action] and [data] of a [VAULT_UPDATE] message. [data] may be
    missing from a message that did not come from [notifyExtension]. *)
Inductive VaultUpdate : Type :=
| user_logged_in (data : option jsstring)
| user_logged_out
| entries_updated (data : option (list Entry))
| unknown_action.

(** [JSON.stringify] and [JSON.parse] at the type of the entry list. A parse
    that yields no array counts as a throw: [renderEntries] throws on it
    inside the same [try] block. *)
Class JSONCodec : Type := {
  JSON_stringify : list Entry -> jsstring;
  JSON_parse : jsstring -> completion (list Entry)
}.

(** ** project/app.js *)

Module PasswordVault.

(** The fields of the [PasswordVault] object. *)
Record Vault : Type := mkVault {
  currentUser : option UserAccount;
  userPassword : option jsstring;
  entries : list Entry;
  editingEntryId : option jsstring
}.

(** [localStorage]: the [users] mapping, the [currentUser] marker and one
    envelope per account under [entries_<email>], keyed here by the email.
    The [users] mapping and the marker are held as the values that
    [JSON.parse] reads back: [ls_users] holds the own properties of the
    parsed object, and [users_member] below reads a member of it as
    [users[email]] does. *)
Record LocalStorage : Type := mkLocalStorage {
  ls_users : gmap jsstring UserAccount;
  ls_currentUser : option UserAccount;
  ls_entries : gmap jsstring jsstring
}.

(** What a handler runs in: the object, the storage, the entropy tape, and
    the log of [alert] calls and of messages posted to the extension. *)
Record World : Type := mkWorld {
  vault : Vault;
  localStorage : LocalStorage;
  rng : Rng;
  alerts : list string;
  posted : list VaultUpdate
}.

Definition set_vault (f : Vault -> Vault) (w : World) : World :=
  mkWorld (f (vault w)) (localStorage w) (rng w) (alerts w) (posted w).
Definition set_localStorage (f : LocalStorage -> LocalStorage) (w : World) : World :=
  mkWorld (vault w) (f (localStorage w)) (rng w) (alerts w) (posted w).

Definition set_entries (es : list Entry) (v : Vault) : Vault :=
  mkVault (currentUser v) (userPassword v) es (editingEntryId v).
Definition set_editingEntryId (i : option jsstring) (v : Vault) : Vault :=
  mkVault (currentUser v) (userPassword v) (entries v) i.
Definition set_session (u : option UserAccount) (p : option jsstring) (v : Vault) : Vault :=
  mkVault u p (entries v) (editingEntryId v).

Definition set_ls_users (us : gmap jsstring UserAccount) (l : LocalStorage) : LocalStorage :=
  mkLocalStorage us (ls_currentUser l) (ls_entries l).
Definition set_ls_currentUser (u : option UserAccount) (l : LocalStorage) : LocalStorage :=
  mkLocalStorage (ls_users l) u (ls_entries l).
Definition set_ls_entries (es : gmap jsstring jsstring) (l : LocalStorage) : LocalStorage :=
  mkLocalStorage (ls_users l) (ls_currentUser l) es.

(** A [CryptoUtils] call inside a handler reads the world's entropy tape. *)
Definition with_rng {A} (m : M Rng A) : M World A :=
  fun w => let (c, r) := m (rng w) in
           (c, mkWorld (vault w) (localStorage w) r (alerts w) (posted w)).

Definition alert (msg : string) : M World unit :=
  modify (fun w => mkWorld (vault w) (localStorage w) (rng w) (alerts w ++ [msg]) (posted w)).

Definition notifyExtension (m : VaultUpdate) : M World unit :=
  modify (fun w => mkWorld (vault w) (localStorage w) (rng w) (alerts w) (posted w ++ [m])).


(** A password handed to [TextEncoder.encode]: [null] is converted to the
    string ["null"]. *)
Definition password_string (p : option jsstring) : jsstring :=
  match p with
  | Some s => s
  | None => lit "null"
  end.

(** The names that every object inherits from [Object.prototype]. *)
Definition Object_prototype_names : list string :=
  ["constructor"; "__defineGetter__"; "__defineSetter__"; "hasOwnProperty";
   "__lookupGetter__"; "__lookupSetter__"; "isPrototypeOf"; "propertyIsEnumerable";
   "toString"; "valueOf"; "__proto__"; "toLocaleString"]%string.

Definition is_inherited (key : jsstring) : bool :=
  existsb (fun name => str_eqb key (lit name)) Object_prototype_names.

(** What [users[email]] evaluates to on the object that [JSON.parse]
    returned: the account stored under the email, or else a member
    inherited from [Object.prototype] (a function, or for [__proto__] the
    prototype itself: truthy, and without a [hashedPassword]), or else
    [undefined]. *)
Inductive Member : Type :=
| own_member (user : UserAccount)
| inherited_member
| no_member.

Definition users_member (users : gmap jsstring UserAccount) (email : jsstring) : Member :=
  match users !! email with
  | Some user => own_member user
  | None => if is_inherited email then inherited_member else no_member
  end.

Section Handlers.
Context {WC : WebCrypto} {UC : UnicodeCase} {JC : JSONCodec}.

Definition capitalizePlatform (platform : jsstring) : jsstring :=
  toUpperCase (charAt0 platform) ++ toLowerCase (slice1 platform).

Definition handleRegister (email password confirmPassword isoNow : jsstring) :
  M World unit :=
  if negb (str_eqb password confirmPassword) then
    alert "Passwords do not match!"
  else if (List.length password <? 8)%nat then
    alert "Password must be at least 8 characters long!"
  else
    try_catch
      (let* w := get in
       let existingUsers := ls_users (localStorage w) in
       match users_member existingUsers email with
       | own_member _ | inherited_member => alert "User with this email already exists!"
       | no_member =>
           let* hashedPassword := with_rng (CryptoUtils.hashPassword password None) in
           let* _ := modify (set_localStorage (set_ls_users
                       (<[email := mkUser email hashedPassword isoNow]> existingUsers))) in
           alert "Registration successful! Please login."
       end)
      (fun _ => alert "Registration failed. Please try again.").

Definition loadUserEntries : M World unit :=
  try_catch
    (let* w := get in
     match currentUser (vault w) with
     | None => throw TypeError
     | Some u =>
         match ls_entries (localStorage w) !! user_email u with
         | Some encryptedData =>
             if is_empty encryptedData then modify (set_vault (set_entries []))
             else
               let* decryptedData :=
                 with_rng (CryptoUtils.decrypt encryptedData
                             (password_string (userPassword (vault w)))) in
               let* parsed := lift (JSON_parse decryptedData) in
               modify (set_vault (set_entries parsed))
         | None => modify (set_vault (set_entries []))
         end
     end)
    (fun _ => modify (set_vault (set_entries []))).

Definition saveUserEntries : M World unit :=
  try_catch
    (let* w := get in
     match currentUser (vault w) with
     | None => throw TypeError
     | Some u =>
         let dataToEncrypt := JSON_stringify (entries (vault w)) in
         let* encryptedData :=
           with_rng (CryptoUtils.encrypt dataToEncrypt
                       (password_string (userPassword (vault w)))) in
         let* _ := modify (set_localStorage (fun l =>
                     set_ls_entries (<[user_email u := encryptedData]> (ls_entries l)) l)) in
         notifyExtension (entries_updated (Some (entries (vault w))))
     end)
    (fun _ => alert "Failed to save entries. Please try again.").

(** For an inherited member [user.hashedPassword] is [undefined], which
    [atob] reads as the text ["undefined"]: nine characters, no base64, so
    that [verifyPassword] answers false and the handler returns after the
    alert. *)
Definition handleLogin (email password : jsstring) : M World unit :=
  try_catch
    (let* w := get in
     match users_member (ls_users (localStorage w)) email with
     | no_member => alert "User not found!"
     | inherited_member =>
         let* _ := with_rng (CryptoUtils.verifyPassword password (lit "undefined")) in
         alert "Invalid password!"
     | own_member user =>
         let* isValidPassword :=
           with_rng (CryptoUtils.verifyPassword password (user_hashedPassword user)) in
         if negb isValidPassword then alert "Invalid password!"
         else
           let* _ := modify (set_vault (set_session (Some user) (Some password))) in
           let* _ := modify (set_localStorage (set_ls_currentUser (Some user))) in
           let* _ := loadUserEntries in
           notifyExtension (user_logged_in (Some email))
     end)
    (fun _ => alert "Login failed. Please try again.").

Definition handleLogout : M World unit :=
  let* _ := modify (set_vault (fun v => mkVault None None [] (editingEntryId v))) in
  let* _ := modify (set_localStorage (set_ls_currentUser None)) in
  notifyExtension user_logged_out.

Definition handleAddEntry (rawName rawUsername rawPassword : jsstring)
  (now : Z) (isoNow : jsstring) : M World unit :=
  let platformName := trim rawName in
  let platformUsername := trim rawUsername in
  let platformPassword := rawPassword in
  if is_empty platformName || is_empty platformUsername || is_empty platformPassword then
    alert "Please fill in all fields!"
  else
    let* w := get in
    if existsb (fun entry => str_eqb (toLowerCase (entry_platform entry))
                                     (toLowerCase platformName))
               (entries (vault w))
    then alert "An entry for this platform already exists!"
    else
      let newEntry :=
        mkEntry (Number_toString now) (capitalizePlatform platformName)
                platformUsername platformPassword isoNow None in
      let* _ := modify (set_vault (fun v => set_entries (entries v ++ [newEntry]) v)) in
      let* _ := saveUserEntries in
      alert "Password entry added successfully!".

(** [this.entries[entryIndex] = updated] for the first entry with the id. *)
Fixpoint update_first (i : jsstring) (f : Entry -> Entry) (es : list Entry) : list Entry :=
  match es with
  | [] => []
  | e :: es' => if str_eqb (entry_id e) i then f e :: es' else e :: update_first i f es'
  end.

Definition handleEditEntry (rawName rawUsername rawPassword isoNow : jsstring) :
  M World unit :=
  let platformName := trim rawName in
  let platformUsername := trim rawUsername in
  let platformPassword := rawPassword in
  if is_empty platformName || is_empty platformUsername || is_empty platformPassword then
    alert "Please fill in all fields!"
  else
    let* w := get in
    match editingEntryId (vault w) with
    | None => alert "Entry not found!"
    | Some editing =>
        if negb (existsb (fun entry => str_eqb (entry_id entry) editing) (entries (vault w)))
        then alert "Entry not found!"
        else if existsb (fun entry =>
                           str_eqb (toLowerCase (entry_platform entry))
                                   (toLowerCase platformName) &&
                           negb (str_eqb (entry_id entry) editing))
                        (entries (vault w))
        then alert "An entry for this platform already exists!"
        else
          let updated (old : Entry) :=
            mkEntry (entry_id old) (capitalizePlatform platformName) platformUsername
                    platformPassword (entry_createdAt old) (Some isoNow) in
          let* _ := modify (set_vault (fun v =>
                      set_entries (update_first editing updated (entries v)) v)) in
          let* _ := saveUserEntries in
          let* _ := modify (set_vault (set_editingEntryId None)) in
          alert "Password entry updated successfully!"
    end.

(** [confirmed] is the answer to the [confirm] dialog. *)
Definition handleDeleteEntry (entryId : jsstring) (confirmed : bool) : M World unit :=
  if negb confirmed then ret tt
  else
    let* _ := modify (set_vault (fun v =>
                set_entries (List.filter (fun entry => negb (str_eqb (entry_id entry) entryId))
                                         (entries v)) v)) in
    let* _ := saveUserEntries in
    alert "Password entry deleted successfully!".

Definition openEditModal (entryId : jsstring) : M World unit :=
  let* w := get in
  if existsb (fun e => str_eqb (entry_id e) entryId) (entries (vault w))
  then modify (set_vault (set_editingEntryId (Some entryId)))
  else ret tt.

Definition closeModal : M World unit :=
  modify (set_vault (set_editingEntryId None)).

(** The object literal returned from the loop. *)
Definition entry_data (entry : Entry) : PasswordData :=
  mkPasswordData (entry_platform entry) (Some (entry_username entry)) (entry_password entry).

Definition normalize_domain (domain : jsstring) : jsstring :=
  replace (toLowerCase domain) (lit "www.") (lit "").

(** A page load: the constructor resets the fields and [checkAuthState]
    restores [currentUser] from the marker in storage, never the password. *)
Definition checkAuthState : M World unit :=
  let* w := get in
  match ls_currentUser (localStorage w) with
  | Some savedUser => modify (set_vault (fun v =>
                        set_session (Some savedUser) (userPassword v) v))
  | None => ret tt
  end.

Definition constructor : M World unit :=
  let* _ := modify (set_vault (fun _ => mkVault None None [] None)) in
  checkAuthState.

(** The [for (const entry of this.entries)] loop with its two [return]s. *)
Fixpoint match_loop (normalizedDomain : jsstring) (es : list Entry) : option PasswordData :=
  match es with
  | [] => None
  | entry :: rest =>
      let platformLower := toLowerCase (entry_platform entry) in
      if includes normalizedDomain platformLower || includes platformLower normalizedDomain
      then Some (entry_data entry)
      else if includes normalizedDomain (platformLower ++ lit ".com") ||
              includes (platformLower ++ lit ".com") normalizedDomain
      then Some (entry_data entry)
      else match_loop normalizedDomain rest
  end.

(** [this.entries] is always an array here, so [!this.entries] is false. *)
Definition getPasswordForDomain (v : Vault) (domain : jsstring) : option PasswordData :=
  match currentUser v with
  | None => None
  | Some _ => match_loop (normalize_domain domain) (entries v)
  end.

(** The events of the page, for traces of the application: the forms and
    buttons, and a reload of the page. *)
Inductive AppEvent : Type :=
| Register (email password confirmPassword isoNow : jsstring)
| Login (email password : jsstring)
| Logout
| AddEntry (rawName rawUsername rawPassword : jsstring) (now : Z) (isoNow : jsstring)
| EditEntry (rawName rawUsername rawPassword isoNow : jsstring)
| DeleteEntry (entryId : jsstring) (confirmed : bool)
| OpenEditModal (entryId : jsstring)
| CloseModal
| Reload.

Definition handle (ev : AppEvent) : M World unit :=
  match ev with
  | Register e p c t => handleRegister e p c t
  | Login e p => handleLogin e p
  | Logout => handleLogout
  | AddEntry n u p now t => handleAddEntry n u p now t
  | EditEntry n u p t => handleEditEntry n u p t
  | DeleteEntry i c => handleDeleteEntry i c
  | OpenEditModal i => openEditModal i
  | CloseModal => closeModal
  | Reload => constructor
  end.

(** Events are handled one after the other; an exception that escapes a
    handler ends that handler only. *)
Definition run (evs : list AppEvent) (w : World) : World :=
  fold_left (fun w ev => snd (handle ev w)) evs w.

Definition is_login (ev : AppEvent) : bool :=
  match ev with
  | Login _ _ => true
  | _ => false
  end.

(** No session is open, neither in the object nor in the marker that a
    reload would restore [currentUser] from. *)
Definition logged_out (w : World) : Prop :=
  currentUser (vault w) = None /\ ls_currentUser (localStorage w) = None.

(** One submission of the add-entry form: the field values and the two
    clock readings, [Date.now()] and [new Date().toISOString()]. *)
Record AddRequest : Type := mkAddRequest {
  req_name : jsstring;
  req_username : jsstring;
  req_password : jsstring;
  req_now : Z;
  req_isoNow : jsstring
}.

(** The entry that a successful [handleAddEntry] appends. *)
Definition added_entry (rawName rawUsername rawPassword : jsstring) (now : Z)
  (isoNow : jsstring) : Entry :=
  mkEntry (Number_toString now) (capitalizePlatform (trim rawName))
          (trim rawUsername) rawPassword isoNow None.

Definition add_event (q : AddRequest) : AppEvent :=
  AddEntry (req_name q) (req_username q) (req_password q) (req_now q) (req_isoNow q).

(** What a successful [handleEditEntry] writes over the entry under edit. *)
Definition edited_entry (rawName rawUsername rawPassword isoNow : jsstring) (old : Entry) :
  Entry :=
  mkEntry (entry_id old) (capitalizePlatform (trim rawName)) (trim rawUsername)
          rawPassword (entry_createdAt old) (Some isoNow).

(** No two entries of a list have the same platform under lower-casing,
    which is what the duplicate checks of the two forms compare. *)
Definition platforms_distinct (es : list Entry) : Prop :=
  List.NoDup (map (fun entry => toLowerCase (entry_platform entry)) es).

End Handlers.
End PasswordVault.

(** ** background.js *)

Module BackgroundService.

(** The fields of the [BackgroundService] object. *)
Record Service : Type := mkService {
  passwordData : list Entry;
  isUserLoggedIn : bool;
  userEmail : option jsstring
}.

(** [chrome.storage.local] under the keys [userStatus] and [passwordData];
    [saveToStorage] is taken to succeed (it swallows a failed write). *)
Record ChromeStorage : Type := mkChromeStorage {
  stored_userStatus : option (bool * option jsstring);
  stored_passwordData : option (list Entry)
}.

(** Messages sent to tabs. *)
Inductive TabMessage : Type :=
| VAULT_STATUS_UPDATE (isLoggedIn : bool) (data : list Entry)
| PASSWORD_AVAILABLE (domain platform : jsstring)
| AUTOFILL_PASSWORD (data : PasswordData).

(** The destination of a message: one tab, or every open tab. *)
Inductive Destination : Type :=
| ToTab (tabId : N)
| ToAllTabs.

Record World : Type := mkWorld {
  service : Service;
  storage : ChromeStorage;
  sent : list (Destination * TabMessage)
}.

Definition initial_service : Service := mkService [] false None.

Definition set_service (f : Service -> Service) (w : World) : World :=
  mkWorld (f (service w)) (storage w) (sent w).
Definition set_storage (f : ChromeStorage -> ChromeStorage) (w : World) : World :=
  mkWorld (service w) (f (storage w)) (sent w).
Definition send (d : Destination) (m : TabMessage) : M World unit :=
  modify (fun w => mkWorld (service w) (storage w) (sent w ++ [(d, m)])).

Definition save_userStatus (isLoggedIn : bool) (email : option jsstring) : M World unit :=
  modify (set_storage (fun c => mkChromeStorage (Some (isLoggedIn, email))
                                                (stored_passwordData c))).
Definition save_passwordData (data : list Entry) : M World unit :=
  modify (set_storage (fun c => mkChromeStorage (stored_userStatus c) (Some data))).

Definition broadcastToContentScripts : M World unit :=
  let* w := get in
  send ToAllTabs (VAULT_STATUS_UPDATE (isUserLoggedIn (service w)) (passwordData (service w))).

(** [message.data.email] throws when the message carries no data; the
    assignment to [isUserLoggedIn] has been made by then. *)
Definition handleVaultUpdate (message : VaultUpdate) : M World unit :=
  let* _ :=
    match message with
    | user_logged_in data =>
        let* _ := modify (set_service (fun s =>
                    mkService (passwordData s) true (userEmail s))) in
        match data with
        | None => throw TypeError
        | Some email =>
            let* _ := modify (set_service (fun s =>
                        mkService (passwordData s) (isUserLoggedIn s) (Some email))) in
            save_userStatus true (Some email)
        end
    | user_logged_out =>
        let* _ := modify (set_service (fun _ => mkService [] false None)) in
        let* _ := save_userStatus false None in
        save_passwordData []
    | entries_updated data =>
        let data' := match data with Some d => d | None => [] end in
        let* _ := modify (set_service (fun s =>
                    mkService data' (isUserLoggedIn s) (userEmail s))) in
        save_passwordData data'
    | unknown_action => ret tt
    end in
  broadcastToContentScripts.

Section Matcher.
Context {UC : UnicodeCase}.

(** The object literal returned from the loop: it has no [username]. *)
Definition entry_data (entry : Entry) : PasswordData :=
  mkPasswordData (entry_platform entry) None (entry_password entry).

Definition normalize_domain (domain : jsstring) : jsstring :=
  replace (toLowerCase domain) (lit "www.") (lit "").

(** The [for (const entry of this.passwordData)] loop with its two [return]s. *)
Fixpoint match_loop (normalizedDomain : jsstring) (es : list Entry) : option PasswordData :=
  match es with
  | [] => None
  | entry :: rest =>
      let platformLower := toLowerCase (entry_platform entry) in
      if includes normalizedDomain platformLower || includes platformLower normalizedDomain
      then Some (entry_data entry)
      else if includes normalizedDomain (platformLower ++ lit ".com") ||
              includes (platformLower ++ lit ".com") normalizedDomain
      then Some (entry_data entry)
      else match_loop normalizedDomain rest
  end.

Definition getPasswordForDomain (s : Service) (domain : jsstring) : option PasswordData :=
  if negb (isUserLoggedIn s) || (List.length (passwordData s) =? 0)%nat then None
  else
    let normalizedDomain := normalize_domain domain in
    match_loop normalizedDomain (passwordData s).

(** The result is the message sent to the tab, if any. *)
Definition requestAutofill (domain : jsstring) (tabId : N) : M World (option PasswordData) :=
  let* w := get in
  match getPasswordForDomain (service w) domain with
  | Some data =>
      let* _ := send (ToTab tabId) (AUTOFILL_PASSWORD data) in
      ret (Some data)
  | None => ret None
  end.

(** [email || null]: the empty string is falsy. *)
Definition or_null (email : option jsstring) : option jsstring :=
  match email with
  | Some [] => None
  | _ => email
  end.

(** [loadStoredData]: what a restarted service worker restores. An array,
    even an empty one, is truthy. *)
Definition loadStoredData : M World unit :=
  let* w := get in
  let* _ :=
    match stored_userStatus (storage w) with
    | Some (isLoggedIn, email) =>
        modify (set_service (fun s => mkService (passwordData s) isLoggedIn (or_null email)))
    | None => ret tt
    end in
  match stored_passwordData (storage w) with
  | Some data => modify (set_service (fun s =>
                   mkService data (isUserLoggedIn s) (userEmail s)))
  | None => ret tt
  end.

(** What reaches the service worker: a [VAULT_UPDATE] message, an autofill
    request, or a restart of the worker. *)
Inductive Event : Type :=
| VaultUpdateMessage (message : VaultUpdate)
| AutofillRequest (domain : jsstring) (tabId : N)
| Restart.

Definition handle (ev : Event) : M World unit :=
  match ev with
  | VaultUpdateMessage m => handleVaultUpdate m
  | AutofillRequest d t => let* _ := requestAutofill d t in ret tt
  | Restart =>
      let* _ := modify (set_service (fun _ => initial_service)) in
      loadStoredData
  end.

Definition run (evs : list Event) (w : World) : World :=
  fold_left (fun w ev => snd (handle ev w)) evs w.

Definition is_login (ev : Event) : bool :=
  match ev with
  | VaultUpdateMessage (user_logged_in _) => true
  | _ => false
  end.

(** No session is open, neither in the object nor in what a restart would
    restore from [chrome.storage.local]. *)
Definition logged_out (w : World) : bool :=
  negb (isUserLoggedIn (service w)) &&
  match stored_userStatus (storage w) with
  | Some (true, _) => false
  | _ => true
  end.

(** The messages that reach [chrome.runtime.onMessage], by their [type];
    [domain] is the hostname that the content script or the popup puts in. *)
Inductive Message : Type :=
| VAULT_UPDATE (update : VaultUpdate)
| GET_PASSWORD_DATA (domain : jsstring)
| REQUEST_AUTOFILL (domain : jsstring)
| POPUP_REQUEST_STATUS
| POPUP_OPEN_WEBAPP
| other_type.

(** What [sendResponse] is called with. *)
Inductive Response : Type :=
| success_response
| passwordData_response (data : option PasswordData)
| status_response (isLoggedIn : bool) (email : option jsstring) (entriesCount : nat)
| error_response (msg : string).

(** [handleMessage]: [sender_tab] is [sender.tab.id], absent when the sender
    is no tab (the popup). A throw leaves the message unanswered. The tab
    that [POPUP_OPEN_WEBAPP] opens is not part of the state. *)
Definition handleMessage (message : Message) (sender_tab : option N) : M World Response :=
  match message with
  | VAULT_UPDATE update =>
      let* _ := handleVaultUpdate update in
      ret success_response
  | GET_PASSWORD_DATA domain =>
      let* w := get in
      ret (passwordData_response (getPasswordForDomain (service w) domain))
  | REQUEST_AUTOFILL domain =>
      match sender_tab with
      | None => throw TypeError
      | Some tabId =>
          let* _ := requestAutofill domain tabId in
          ret success_response
      end
  | POPUP_REQUEST_STATUS =>
      let* w := get in
      ret (status_response (isUserLoggedIn (service w)) (userEmail (service w))
             (List.length (passwordData (service w))))
  | POPUP_OPEN_WEBAPP => ret success_response
  | other_type => ret (error_response "Unknown message type")
  end.

(** [checkForLoginPage]: [hostname] is the outcome of [new URL(url).hostname],
    a throw for a text that is no URL. *)
Definition checkForLoginPage (tabId : N) (hostname : completion jsstring) : M World unit :=
  let* w := get in
  if negb (isUserLoggedIn (service w)) then ret tt
  else
    try_catch
      (let* domain := lift hostname in
       match getPasswordForDomain (service w) domain with
       | Some data => send (ToTab tabId) (PASSWORD_AVAILABLE domain (pd_platform data))
       | None => ret tt
       end)
      (fun _ => ret tt).

(** Everything the service worker reacts to: a runtime message with its
    sender, a tab that finished loading a page, and a restart of the worker. *)
Inductive Incoming : Type :=
| RuntimeMessage (message : Message) (sender_tab : option N)
| TabComplete (tabId : N) (hostname : completion jsstring)
| WorkerRestart.

Definition receive (i : Incoming) : M World unit :=
  match i with
  | RuntimeMessage message sender_tab =>
      let* _ := handleMessage message sender_tab in
      ret tt
  | TabComplete tabId hostname => checkForLoginPage tabId hostname
  | WorkerRestart =>
      let* _ := modify (set_service (fun _ => initial_service)) in
      loadStoredData
  end.

(** Inputs that are handled one after the other, each handler running to
    its end before the next input arrives. Handlers that overlap are
    played by [play] below. *)
Definition receive_all (inputs : list Incoming) (w : World) : World :=
  fold_left (fun w i => snd (receive i w)) inputs w.

Definition is_vault_update (i : Incoming) : bool :=
  match i with
  | RuntimeMessage (VAULT_UPDATE _) _ => true
  | _ => false
  end.

(** A [VAULT_UPDATE] as [notifyExtension] builds it: a login carries its data. *)
Definition carries_data (i : Incoming) : bool :=
  match i with
  | RuntimeMessage (VAULT_UPDATE (user_logged_in None)) _ => false
  | _ => true
  end.

(** The sender is no tab: the popup. *)
Definition from_popup (i : Incoming) : bool :=
  match i with
  | RuntimeMessage _ None => true
  | _ => false
  end.

Definition is_restart (i : Incoming) : bool :=
  match i with
  | WorkerRestart => true
  | _ => false
  end.

(** What [chrome.storage.local] holds is the session flag and the cache of
    the object, so that a restart restores both. *)
Definition persisted (w : World) : Prop :=
  (exists email, stored_userStatus (storage w) = Some (isUserLoggedIn (service w), email)) /\
  stored_passwordData (storage w) = Some (passwordData (service w)).

(** The listener does not wait for [handleMessage]: a handler runs up to
    its first [await] on the platform (a write to [chrome.storage], a read
    of it, a query of the tabs) when its input arrives, and each later part
    when the platform has answered; in between, other inputs may arrive and
    other handlers may go on. A [Task] is a handler as the sequence of its
    parts: [run] is what a part does, and [next], which is given the state
    in which the part starts, is what is left of the handler after it. A
    write is applied, and a read is taken, when it is issued. *)
Inductive Task : Type :=
| finished
| part (run : World -> World) (next : World -> Task).

Definition is_finished (t : Task) : bool :=
  match t with
  | finished => true
  | part _ _ => false
  end.

Definition effect {A} (m : M World A) : World -> World := fun w => snd (m w).

(** The end of [handleVaultUpdate]: the handler resumes from its last
    write and calls [broadcastToContentScripts], which queries the tabs; the
    messages are sent, with the state of that moment, when the query has
    been answered. For an action that is none of the three the call is made
    when the message arrives. *)
Definition broadcast_task : Task :=
  part (fun w => w) (fun _ => part (effect broadcastToContentScripts) (fun _ => finished)).

Definition update_task (message : VaultUpdate) : Task :=
  match message with
  | user_logged_in None =>
      part (set_service (fun s => mkService (passwordData s) true (userEmail s)))
           (fun _ => finished)
  | user_logged_in (Some email) =>
      part (effect (let* _ := modify (set_service (fun s =>
                                mkService (passwordData s) true (Some email))) in
                    save_userStatus true (Some email)))
           (fun _ => broadcast_task)
  | user_logged_out =>
      part (effect (let* _ := modify (set_service (fun _ => mkService [] false None)) in
                    save_userStatus false None))
           (fun _ => part (effect (save_passwordData [])) (fun _ => broadcast_task))
  | entries_updated data =>
      let data' := match data with Some d => d | None => [] end in
      part (effect (let* _ := modify (set_service (fun s =>
                                mkService data' (isUserLoggedIn s) (userEmail s))) in
                    save_passwordData data'))
           (fun _ => broadcast_task)
  | unknown_action => broadcast_task
  end.

(** The constructor and [loadStoredData] of a worker that starts: the
    fields are reset and the status is asked for; the status is applied and
    the entries are asked for; the entries are applied. *)
Definition restart_task : Task :=
  part (set_service (fun _ => initial_service))
    (fun asked_status =>
       part (fun w =>
               match stored_userStatus (storage asked_status) with
               | Some (isLoggedIn, email) =>
                   set_service (fun s =>
                     mkService (passwordData s) isLoggedIn (or_null email)) w
               | None => w
               end)
         (fun asked_data =>
            part (fun w =>
                    match stored_passwordData (storage asked_data) with
                    | Some data =>
                        set_service (fun s =>
                          mkService data (isUserLoggedIn s) (userEmail s)) w
                    | None => w
                    end)
              (fun _ => finished))).

(** The other handlers have no [await] on the platform before their last
    effect: they are one part. *)
Definition task_of (i : Incoming) : Task :=
  match i with
  | RuntimeMessage (VAULT_UPDATE update) _ => update_task update
  | RuntimeMessage message sender_tab =>
      part (effect (handleMessage message sender_tab)) (fun _ => finished)
  | TabComplete tabId hostname =>
      part (effect (checkForLoginPage tabId hostname)) (fun _ => finished)
  | WorkerRestart => restart_task
  end.

(** A handler run to its end without any other in between. *)
Fixpoint complete (t : Task) (w : World) : World :=
  match t with
  | finished => w
  | part run next => complete (next w) (run w)
  end.

(** The worker while it runs: its state and the handlers in flight. *)
Record Running : Type := mkRunning {
  current : World;
  in_flight : list Task
}.

(** What happens next: an input arrives and the first part of its handler
    runs, or the handler at some place of the list goes on with its next
    part. A worker that starts has no handler in flight. *)
Inductive Move : Type :=
| Arrive (i : Incoming)
| Resume (k : nat).

Definition advance (t : Task) (w : World) : World * Task :=
  match t with
  | finished => (w, finished)
  | part run next => (run w, next w)
  end.

Definition move (m : Move) (c : Running) : Running :=
  match m with
  | Arrive i =>
      let flight := if is_restart i then [] else in_flight c in
      let (w', rest) := advance (task_of i) (current c) in
      mkRunning w' (flight ++ [rest])
  | Resume k =>
      match in_flight c !! k with
      | Some t =>
          let (w', rest) := advance t (current c) in
          mkRunning w' (<[k := rest]> (in_flight c))
      | None => c
      end
  end.

Definition play (moves : list Move) (c : Running) : Running :=
  fold_left (fun c m => move m c) moves c.

Definition arrivals (moves : list Move) : list Incoming :=
  flat_map (fun m => match m with Arrive i => [i] | Resume _ => [] end) moves.

(** No input arrives while a handler is in flight, and none is in flight
    at the end. *)
Fixpoint one_at_a_time (moves : list Move) (c : Running) : bool :=
  match moves with
  | [] => forallb is_finished (in_flight c)
  | m :: rest =>
      match m with
      | Arrive _ => forallb is_finished (in_flight c)
      | Resume _ => true
      end && one_at_a_time rest (move m c)
  end.

(** The handlers in flight run to their ends, one after the other. *)
Definition settle (c : Running) : World :=
  fold_left (fun w t => complete t w) (in_flight c) (current c).

(** At most the last handler of the list is still in flight. *)
Definition last_in_flight (c : Running) : Prop :=
  forallb is_finished (in_flight c) = true \/
  exists before t, in_flight c = before ++ [t] /\ forallb is_finished before = true.

End Matcher.
End BackgroundService.

(** ** content.js: the bridge from the page to the service worker *)

Module ContentScript.



End ContentScript.

(** ** The domain matcher in the words of the specification *)

Module DomainMatcher.
Section DomainMatcher.
Context {UC : UnicodeCase}.

(** "Normalizes hostname by stripping a leading [www.]". *)
Definition strip_leading_www (hostname : jsstring) : jsstring :=
  if startsWith hostname (lit "www.") then skipn 4 hostname else hostname.

(** "For each entry, lower-cases [platform] and tests bidirectional substring
    containment against the normalized hostname, and separately against
    [platform + ".com"]". *)
Definition satisfies (normalized : jsstring) (entry : Entry) : bool :=
  let platform := toLowerCase (entry_platform entry) in
  (includes normalized platform || includes platform normalized) ||
  (includes normalized (platform ++ lit ".com") ||
   includes (platform ++ lit ".com") normalized).

(** "Returns the first entry satisfying either test, in list order". *)
Definition spec_match (entries : list Entry) (hostname : jsstring) : option Entry :=
  List.find (satisfies (strip_leading_www hostname)) entries.

End DomainMatcher.
End DomainMatcher.

(** ** Small instances of the interfaces, on which statements are evaluated *)

Module Instances.

(** A keyed tag stands for authentication: the "ciphertext" is the data
    followed by sixteen bytes taken from the key, and decryption rejects any
    other tag. PBKDF2 is the password followed by the salt. *)
Definition toy_tag (key : list byte) : list byte :=
  firstn 16 (key ++ repeat x00 16).

Definition bytes_eqb (a b : list byte) : bool :=
  if List.list_eq_dec Byte.byte_eq_dec a b then true else false.

Definition toy_decrypt (key iv data : list byte) : completion (list byte) :=
  let n := (List.length data - 16)%nat in
  if (List.length data <? 16)%nat then Throw OperationError
  else if bytes_eqb (skipn n data) (toy_tag key) then Normal (firstn n data)
  else Throw OperationError.

Definition ToyCrypto : WebCrypto := {|
  CryptoKey := list byte;
  pbkdf2_deriveKey := fun password salt _ _ => Normal (password ++ salt);
  pbkdf2_deriveBits := fun password salt _ _ => Normal (password ++ salt);
  aes_gcm_encrypt := fun key iv data => Normal (data ++ toy_tag key);
  aes_gcm_decrypt := toy_decrypt
|}.

(** HMAC, over which PBKDF2 runs, fills a key shorter than its block of
    64 bytes up with zero bytes. This platform has that preparation of the
    key and is the toy one otherwise (a key longer than the block, which
    HMAC hashes first, is cut here). *)
Definition zero_filled_key (password : list byte) : list byte :=
  firstn 64 (password ++ repeat x00 64).

Definition ZeroFilledKeyCrypto : WebCrypto := {|
  CryptoKey := list byte;
  pbkdf2_deriveKey := fun password salt _ _ => Normal (zero_filled_key password ++ salt);
  pbkdf2_deriveBits := fun password salt _ _ => Normal (zero_filled_key password ++ salt);
  aes_gcm_encrypt := fun key iv data => Normal (data ++ toy_tag key);
  aes_gcm_decrypt := toy_decrypt
|}.

(** Case mapping of the letters A-Z and a-z only. *)
Definition AsciiCase : UnicodeCase := {|
  toLowerCase := map ascii_lower;
  toUpperCase := map ascii_upper
|}.

(** A codec that knows the empty array only, for statements in which the
    content of the serialized list plays no part. *)
Definition EmptyArrayJSON : JSONCodec := {|
  JSON_stringify := fun _ => lit "[]";
  JSON_parse := fun s => if str_eqb s (lit "[]") then Normal [] else Throw (JsError "SyntaxError")
|}.

Definition zero_rng : Rng := fun _ => x00.
Definition counting_rng : Rng := fun i => byte_of_N (N.of_nat i mod 256).

(** A sealed envelope and a stored password hash, as the toy platform
    produces them. *)
Definition sample_sealed : completion jsstring * Rng :=
  CryptoUtils.encrypt (WC := ToyCrypto) (lit "[]") (lit "correcthorse1") counting_rng.
Definition sample_envelope : jsstring :=
  match fst sample_sealed with Normal e => e | Throw _ => [] end.
Definition sample_hashed : completion jsstring * Rng :=
  CryptoUtils.hashPassword (WC := ToyCrypto) (lit "correcthorse1") None counting_rng.
Definition sample_hash : jsstring :=
  match fst sample_hashed with Normal h => h | Throw _ => [] end.

(** A registered account, and the world of a session unlocked for it
    with nothing stored yet. *)
Definition sample_user : UserAccount :=
  mkUser (lit "a@x.com") sample_hash (lit "2024-01-01T00:00:00.000Z").
Definition sample_world : PasswordVault.World :=
  PasswordVault.mkWorld
    (PasswordVault.mkVault (Some sample_user) (Some (lit "correcthorse1")) [] None)
    (PasswordVault.mkLocalStorage ∅ (Some sample_user) ∅)
    counting_rng [] [].

(** The same session after the master password was changed: the stored
    envelope was sealed under the former password. *)
Definition stale_world : PasswordVault.World :=
  PasswordVault.mkWorld
    (PasswordVault.mkVault (Some sample_user) (Some (lit "correcthorse2")) [] None)
    (PasswordVault.mkLocalStorage ∅ (Some sample_user)
       {[ lit "a@x.com" := sample_envelope ]})
    counting_rng [] [].

Definition sample_entry : Entry :=
  mkEntry (lit "1700000000000") (lit "Github") (lit "bob") (lit "p@ss")
          (lit "2024-01-01T00:00:00.000Z") None.

(** The extension's mirror of an unlocked session that holds one entry. *)
Definition sample_service : BackgroundService.Service :=
  BackgroundService.mkService [sample_entry] true (Some (lit "a@x.com")).
Definition sample_background : BackgroundService.World :=
  BackgroundService.mkWorld sample_service
    (BackgroundService.mkChromeStorage (Some (true, Some (lit "a@x.com")))
                                       (Some [sample_entry]))
    [].

(** The unlocked session after ["Gmail"] has been added. *)
Definition gmail_added : PasswordVault.World :=
  snd (PasswordVault.handleAddEntry (WC := ToyCrypto) (UC := AsciiCase)
         (JC := EmptyArrayJSON) (lit "Gmail") (lit "bob") (lit "hunter2")
         1700000000000 (lit "2024-01-01T00:00:00.000Z") sample_world).

(** Two submissions of the add-entry form, and a third made at the clock
    reading of the first. *)
Definition add_gmail : PasswordVault.AddRequest :=
  PasswordVault.mkAddRequest (lit "Gmail") (lit "bob") (lit "hunter2")
    1700000000000 (lit "2024-01-01T00:00:00.000Z").
Definition add_github : PasswordVault.AddRequest :=
  PasswordVault.mkAddRequest (lit "Github") (lit "bob") (lit "p@ss")
    1700000000001 (lit "2024-01-01T00:00:00.001Z").
Definition add_github_same_clock : PasswordVault.AddRequest :=
  PasswordVault.mkAddRequest (lit "Github") (lit "bob") (lit "p@ss")
    1700000000000 (lit "2024-01-01T00:00:00.000Z").

(** A vault that holds one entry for the platform ["Xy"]. *)
Definition xy_entry : Entry :=
  mkEntry (lit "1700000000002") (lit "Xy") (lit "carol") (lit "s3cret")
          (lit "2024-01-01T00:00:00.002Z") None.
Definition xy_vault : PasswordVault.Vault :=
  PasswordVault.mkVault (Some sample_user) (Some (lit "correcthorse1")) [xy_entry] None.
Definition github_vault : PasswordVault.Vault :=
  PasswordVault.mkVault (Some sample_user) (Some (lit "correcthorse1")) [sample_entry] None.

(** An account whose master password has three characters, as a store
    written by other means may hold it. *)
Definition short_user : UserAccount :=
  mkUser (lit "c@x.com")
    match fst (CryptoUtils.hashPassword (WC := ToyCrypto) (lit "abc") None counting_rng) with
    | Normal h => h
    | Throw _ => []
    end
    (lit "2024-01-01T00:00:00.000Z").
Definition short_world : PasswordVault.World :=
  PasswordVault.mkWorld
    (PasswordVault.mkVault None None [] None)
    (PasswordVault.mkLocalStorage {[ lit "c@x.com" := short_user ]} None ∅)
    counting_rng [] [].

(** A codec for entries whose fields hold no U+001F: the fields of the
    entries one after the other, each closed by U+001F, between [[] and
    []]. An [updatedAt] that is set is written after the letter [u]. *)
Definition field_end : N := 31.

Definition write_entry (entry : Entry) : jsstring :=
  entry_id entry ++ [field_end] ++ entry_platform entry ++ [field_end] ++
  entry_username entry ++ [field_end] ++ entry_password entry ++ [field_end] ++
  entry_createdAt entry ++ [field_end] ++
  match entry_updatedAt entry with
  | Some t => lit "u" ++ t
  | None => []
  end ++ [field_end].

Fixpoint read_field (s : jsstring) : option (jsstring * jsstring) :=
  match s with
  | [] => None
  | c :: s' =>
      if c =? field_end then Some ([], s')
      else match read_field s' with
           | Some (field, rest) => Some (c :: field, rest)
           | None => None
           end
  end.

Fixpoint read_fields (n : nat) (s : jsstring) : option (list jsstring * jsstring) :=
  match n with
  | O => Some ([], s)
  | S n' =>
      match read_field s with
      | Some (field, rest) =>
          match read_fields n' rest with
          | Some (fields, rest') => Some (field :: fields, rest')
          | None => None
          end
      | None => None
      end
  end.

Fixpoint read_entries (fuel : nat) (s : jsstring) : option (list Entry) :=
  match fuel with
  | O => None
  | S fuel' =>
      if str_eqb s (lit "]") then Some []
      else match read_fields 6 s with
           | Some ([i; platform; username; password; createdAt; updatedAt], rest) =>
               option_map
                 (cons (mkEntry i platform username password createdAt
                          match updatedAt with
                          | [] => None
                          | _ :: t => Some t
                          end))
                 (read_entries fuel' rest)
           | _ => None
           end
  end.

Definition FieldJSON : JSONCodec := {|
  JSON_stringify := fun es => lit "[" ++ flat_map write_entry es ++ lit "]";
  JSON_parse := fun s =>
    match s with
    | 91 :: body =>
        match read_entries (S (List.length body)) body with
        | Some es => Normal es
        | None => Throw (JsError "SyntaxError")
        end
    | _ => Throw (JsError "SyntaxError")
    end
|}.

(** A page on which nobody has registered yet. *)
Definition fresh_world : PasswordVault.World :=
  PasswordVault.mkWorld
    (PasswordVault.mkVault None None [] None)
    (PasswordVault.mkLocalStorage ∅ None ∅)
    counting_rng [] [].

(** The unlocked session of the registered account, holding one entry
    that has not been saved yet. *)
Definition github_world : PasswordVault.World :=
  PasswordVault.mkWorld github_vault
    (PasswordVault.mkLocalStorage {[ lit "a@x.com" := sample_user ]} (Some sample_user) ∅)
    counting_rng [] [].

(** An envelope and a stored hash made on an entropy source that yields
    zero bytes only. *)
Definition zero_sealed : completion jsstring * Rng :=
  CryptoUtils.encrypt (WC := ToyCrypto) (lit "[]") (lit "correcthorse1") zero_rng.
Definition zero_envelope : jsstring :=
  match fst zero_sealed with Normal e => e | Throw _ => [] end.
Definition zero_hashed : completion jsstring * Rng :=
  CryptoUtils.hashPassword (WC := ToyCrypto) (lit "correcthorse1") None zero_rng.
Definition zero_hash : jsstring :=
  match fst zero_hashed with Normal h => h | Throw _ => [] end.

(** What reaches the service worker on a day without a vault update: a
    query from a tab, an autofill request from the popup and one from a
    tab, the popup asking for the status, a page that finished loading,
    and a restart. *)
Definition quiet_inputs : list BackgroundService.Incoming :=
  [BackgroundService.RuntimeMessage (BackgroundService.GET_PASSWORD_DATA (lit "github.com"))
     (Some 7);
   BackgroundService.RuntimeMessage (BackgroundService.REQUEST_AUTOFILL (lit "github.com"))
     None;
   BackgroundService.RuntimeMessage (BackgroundService.REQUEST_AUTOFILL (lit "github.com"))
     (Some 7);
   BackgroundService.RuntimeMessage BackgroundService.POPUP_REQUEST_STATUS None;
   BackgroundService.TabComplete 7 (Normal (lit "www.github.com"));
   BackgroundService.WorkerRestart].

(** A run of the worker in which every handler ends before the next
    input arrives: an update of the entries, a query, and a restart. *)
Definition one_by_one : list BackgroundService.Move :=
  [BackgroundService.Arrive
     (BackgroundService.RuntimeMessage
        (BackgroundService.VAULT_UPDATE (entries_updated (Some [xy_entry]))) (Some 7));
   BackgroundService.Resume 0; BackgroundService.Resume 0;
   BackgroundService.Arrive
     (BackgroundService.RuntimeMessage
        (BackgroundService.GET_PASSWORD_DATA (lit "github.com")) (Some 7));
   BackgroundService.Arrive BackgroundService.WorkerRestart;
   BackgroundService.Resume 0; BackgroundService.Resume 0].

(** A run in which an update of the entries arrives while the handler of
    a logout waits for its first write: the second write of the logout
    comes after the write of the update. *)
Definition overlapping : list BackgroundService.Move :=
  [BackgroundService.Arrive
     (BackgroundService.RuntimeMessage (BackgroundService.VAULT_UPDATE user_logged_out)
        (Some 7));
   BackgroundService.Arrive
     (BackgroundService.RuntimeMessage
        (BackgroundService.VAULT_UPDATE (entries_updated (Some [xy_entry]))) (Some 7));
   BackgroundService.Resume 0; BackgroundService.Resume 0; BackgroundService.Resume 0;
   BackgroundService.Resume 1; BackgroundService.Resume 1].

End Instances.

(** ** The laws of the platform that theorems assume *)

(** AES-GCM decrypts what it encrypted under the same key and IV. *)
Definition aes_gcm_sound (WC : WebCrypto) : Prop :=
  forall key iv data encrypted,
    aes_gcm_encrypt key iv data = Normal encrypted ->
    aes_gcm_decrypt key iv encrypted = Normal data.

(** On ASCII strings the case mappings are those of the letters A-Z, a-z. *)
Definition ascii_case_mapping (UC : UnicodeCase) : Prop :=
  forall s, is_ascii s = true ->
    toLowerCase s = map ascii_lower s /\ toUpperCase s = map ascii_upper s.

(** [JSON.parse] reads back the list that [JSON.stringify] wrote, and the
    text written is well-formed and does not begin with U+FEFF (it begins
    with [[]). *)
Definition json_faithful (JC : JSONCodec) (es : list Entry) : Prop :=
  JSON_parse (JSON_stringify es) = Normal es /\
  isWellFormed (JSON_stringify es) = true /\
  startsWith (JSON_stringify es) [0xFEFF] = false.

(** ** Proof automation *)

(** Equal lists of numbers, element by element. *)
Ltac list_eq_lia :=
  repeat match goal with
         | |- _ :: _ = _ :: _ => apply (f_equal2 (@cons _)); [lia|]
         end;
  try reflexivity.

(** Splits on the test of a conditional; arithmetic closes the impossible case. *)
Ltac case_if :=
  match goal with
  | |- context [if ?c then _ else _] => destruct c eqn:?; try lia
  end.

(** One byte through the UTF-8 decoder. *)
Ltac utf8_read :=
  unfold utf8_step at 1; unfold utf8_lead;
  cbn [bytes_needed bytes_seen code_point lower_boundary upper_boundary utf8_init];
  repeat case_if;
  cbn [app bytes_needed bytes_seen code_point lower_boundary upper_boundary utf8_init].

(** Runs a handler symbolically: the monad is unfolded and every test the
    handler makes is split into its cases. *)
Ltac unfold_monad :=
  unfold PasswordVault.alert, PasswordVault.notifyExtension, PasswordVault.with_rng;
  unfold bind, get, modify, ret, throw, lift, try_catch.

(** Reads the fields of worlds that are written out. *)
Ltac reduce_world :=
  cbn beta iota;
  cbn [negb fst snd
       PasswordVault.vault PasswordVault.localStorage PasswordVault.rng
       PasswordVault.alerts PasswordVault.posted
       PasswordVault.currentUser PasswordVault.userPassword PasswordVault.entries
       PasswordVault.editingEntryId PasswordVault.ls_users
       PasswordVault.ls_currentUser PasswordVault.ls_entries
       PasswordVault.password_string].

(** * Properties *)

(** ** Bytes and lists *)

Lemma to_N_byte_of_N (n : N) : n < 256 -> Byte.to_N (byte_of_N n) = n.
Proof.
  intros Hn. unfold byte_of_N.
  destruct (Byte.of_N n) as [b|] eqn:E.
  - now apply Byte.to_of_N.
  - apply Byte.of_N_None_iff in E. lia.
Qed.

Lemma byte_of_N_to_N (b : byte) : byte_of_N (Byte.to_N b) = b.
Proof. unfold byte_of_N. now rewrite Byte.of_to_N. Qed.

Lemma to_N_lt_256 (b : byte) : Byte.to_N b < 256.
Proof. pose proof (Byte.to_N_bounded b). lia. Qed.

Lemma Forall_to_N_lt_256 (bs : list byte) :
  Forall (fun c => c < 256) (map Byte.to_N bs).
Proof.
  induction bs as [|b bs IH]; simpl; constructor; auto using to_N_lt_256.
Qed.

(** Induction over a list three elements at a time, as base64 reads it. *)
Lemma list_ind3 {A} (P : list A -> Prop) :
  P [] -> (forall a, P [a]) -> (forall a b, P [a; b]) ->
  (forall a b c l, P l -> P (a :: b :: c :: l)) ->
  forall l, P l.
Proof.
  intros H0 H1 H2 H3.
  assert (H : forall l, P l /\ (forall a, P (a :: l)) /\ (forall a b, P (a :: b :: l))).
  { induction l as [|x l (IH0 & IH1 & IH2)]; repeat split; auto. }
  intros l. apply H.
Qed.

(** ** base64: [atob] undoes [btoa] *)

Lemma b64_char_not_equals (i : N) : b64_char i <> equals_sign.
Proof.
  unfold b64_char, equals_sign.
  repeat match goal with |- context [if ?c then _ else _] => destruct c eqn:? end; lia.
Qed.

Lemma b64_char_not_whitespace (i : N) : is_ascii_whitespace (b64_char i) = false.
Proof.
  unfold b64_char, is_ascii_whitespace.
  repeat match goal with |- context [if ?c then _ else _] => destruct c eqn:? end; lia.
Qed.

Lemma b64_index_char (i : N) : i < 64 -> b64_index (b64_char i) = Some i.
Proof.
  intros Hi. unfold b64_char.
  repeat match goal with |- context [if ?c then _ else _] => destruct c eqn:? end;
    unfold b64_index;
    repeat match goal with |- context [if ?c then _ else _] => destruct c eqn:? end;
    try (f_equal; lia); lia.
Qed.

Lemma b64_encode_split (l : list N) :
  b64_encode l = map b64_char (b64_sextets l) ++ b64_pad l.
Proof.
  induction l as [| a | a b | a b c l IH] using list_ind3; try reflexivity.
  cbn [b64_encode b64_sextets b64_pad map app]. now rewrite IH.
Qed.

Lemma b64_sextets_lt_64 (l : list N) :
  Forall (fun c => c < 256) l -> Forall (fun s => s < 64) (b64_sextets l).
Proof.
  induction l as [| a | a b | a b c l IH] using list_ind3; intros H; cbn [b64_sextets].
  - constructor.
  - inversion_clear H. repeat constructor; lia.
  - inversion_clear H as [|? ? Ha H']. inversion_clear H'. repeat constructor; lia.
  - inversion_clear H as [|? ? Ha H']. inversion_clear H' as [|? ? Hb H''].
    inversion_clear H'' as [|? ? Hc Hl].
    repeat (constructor; [lia|]). auto.
Qed.

Lemma b64_decode_sextets_sextets (l : list N) :
  Forall (fun c => c < 256) l -> b64_decode_sextets (b64_sextets l) = l.
Proof.
  induction l as [| a | a b | a b c l IH] using list_ind3; intros H;
    cbn [b64_sextets b64_decode_sextets].
  - reflexivity.
  - inversion_clear H. list_eq_lia.
  - inversion_clear H as [|? ? Ha H']. inversion_clear H'. list_eq_lia.
  - inversion_clear H as [|? ? Ha H']. inversion_clear H' as [|? ? Hb H''].
    inversion_clear H'' as [|? ? Hc Hl].
    rewrite IH by assumption. list_eq_lia.
Qed.

Lemma b64_indices_chars (s : list N) :
  Forall (fun i => i < 64) s -> b64_indices (map b64_char s) = Some s.
Proof.
  induction 1 as [|i s Hi Hs IH]; simpl; [reflexivity|].
  now rewrite b64_index_char, IH.
Qed.

Lemma b64_shape (l : list N) :
  (N.of_nat (List.length (b64_sextets l)) mod 4 = 0 /\ b64_pad l = []) \/
  (N.of_nat (List.length (b64_sextets l)) mod 4 = 2 /\
   b64_pad l = [equals_sign; equals_sign]) \/
  (N.of_nat (List.length (b64_sextets l)) mod 4 = 3 /\ b64_pad l = [equals_sign]).
Proof.
  induction l as [| a | a b | a b c l IH] using list_ind3;
    cbn [b64_sextets b64_pad List.length].
  - left. split; reflexivity.
  - right. left. split; reflexivity.
  - right. right. split; reflexivity.
  - destruct IH as [[H1 H2] | [[H1 H2] | [H1 H2]]]; rewrite H2;
      [left | right; left | right; right]; split; try reflexivity; lia.
Qed.

Lemma strip_padding_encoded (X pad : jsstring) :
  Forall (fun c => c <> equals_sign) X ->
  (N.of_nat (List.length X) mod 4 = 0 /\ pad = []) \/
  (N.of_nat (List.length X) mod 4 = 2 /\ pad = [equals_sign; equals_sign]) \/
  (N.of_nat (List.length X) mod 4 = 3 /\ pad = [equals_sign]) ->
  strip_padding (X ++ pad) = X.
Proof.
  intros HX Hshape.
  assert (Hrev : Forall (fun c => c <> equals_sign) (rev X)) by now apply List.Forall_rev.
  unfold strip_padding.
  destruct Hshape as [[Hlen ->] | [[Hlen ->] | [Hlen ->]]].
  - rewrite app_nil_r.
    replace (N.of_nat (List.length X) mod 4 =? 0) with true by lia.
    destruct (rev X) as [|p [|q r]] eqn:E; [reflexivity | |].
    + inversion_clear Hrev as [|? ? Hp _].
      now replace (p =? equals_sign) with false by lia.
    + inversion_clear Hrev as [|? ? Hp _].
      now replace (p =? equals_sign) with false by lia.
  - rewrite length_app, rev_app_distr. cbn [List.length rev app].
    replace (N.of_nat (List.length X + 2) mod 4 =? 0) with true by lia.
    rewrite N.eqb_refl. apply rev_involutive.
  - rewrite length_app, rev_app_distr. cbn [List.length rev app].
    replace (N.of_nat (List.length X + 1) mod 4 =? 0) with true by lia.
    destruct (rev X) as [|q r] eqn:E.
    + apply (f_equal (@List.length N)) in E. rewrite length_rev in E.
      simpl in E. rewrite E in Hlen. discriminate Hlen.
    + rewrite N.eqb_refl. inversion_clear Hrev as [|? ? Hq _].
      replace (q =? equals_sign) with false by lia.
      change (rev (q :: r) = X). rewrite <- E. apply rev_involutive.
Qed.

Lemma filter_all {A} (f : A -> bool) (s : list A) :
  Forall (fun c => f c = true) s -> List.filter f s = s.
Proof.
  induction 1 as [|c s Hc Hs IH]; simpl; [reflexivity|].
  now rewrite Hc, IH.
Qed.

Lemma atob_b64_encode (l : list N) :
  Forall (fun c => c < 256) l -> atob (b64_encode l) = Normal l.
Proof.
  intros Hl. unfold atob.
  rewrite filter_all.
  2:{ rewrite b64_encode_split. apply Forall_app. split.
      - apply List.Forall_forall. intros c Hc. apply List.in_map_iff in Hc as (i & <- & _).
        now rewrite b64_char_not_whitespace.
      - destruct (b64_shape l) as [[_ ->] | [[_ ->] | [_ ->]]];
          repeat constructor. }
  rewrite b64_encode_split.
  assert (Hne : Forall (fun c => c <> equals_sign) (map b64_char (b64_sextets l))).
  { apply List.Forall_forall. intros c Hc. apply List.in_map_iff in Hc as (i & <- & _).
    apply b64_char_not_equals. }
  pose proof (b64_shape l) as Hshape.
  rewrite strip_padding_encoded; [| assumption | now rewrite length_map].
  rewrite length_map.
  replace (N.of_nat (List.length (b64_sextets l)) mod 4 =? 1) with false
    by (destruct Hshape as [[H _] | [[H _] | [H _]]]; lia).
  rewrite b64_indices_chars by now apply b64_sextets_lt_64.
  now rewrite b64_decode_sextets_sextets.
Qed.

Lemma btoa_bytes (bs : list byte) :
  btoa (String_fromCharCode bs) = Normal (b64_encode (map Byte.to_N bs)).
Proof.
  unfold btoa, String_fromCharCode.
  replace (forallb (fun c => c <=? 255) (map Byte.to_N bs)) with true; [reflexivity|].
  symmetry. apply forallb_forall. intros c Hc.
  apply in_map_iff in Hc as (b & <- & _). pose proof (Byte.to_N_bounded b). lia.
Qed.

Lemma Uint8Array_from_fromCharCode (bs : list byte) :
  Uint8Array_from (String_fromCharCode bs) = bs.
Proof.
  unfold Uint8Array_from, String_fromCharCode. rewrite map_map.
  rewrite <- (map_id bs) at 2. apply map_ext. intros b.
  rewrite N.mod_small by apply to_N_lt_256. apply byte_of_N_to_N.
Qed.

(** Bytes written with [btoa] are read back by [atob]. *)
Lemma atob_btoa_bytes (bs : list byte) (encoded : jsstring) :
  btoa (String_fromCharCode bs) = Normal encoded ->
  atob encoded = Normal (String_fromCharCode bs).
Proof.
  rewrite btoa_bytes. intros [= <-].
  apply atob_b64_encode, Forall_to_N_lt_256.
Qed.

Lemma btoa_bytes_inj (bs1 bs2 : list byte) :
  btoa (String_fromCharCode bs1) = btoa (String_fromCharCode bs2) -> bs1 = bs2.
Proof.
  intros H.
  destruct (btoa (String_fromCharCode bs1)) as [e|] eqn:E1;
    [| now rewrite btoa_bytes in E1].
  symmetry in H. apply atob_btoa_bytes in E1, H. rewrite E1 in H.
  injection H as H.
  rewrite <- (Uint8Array_from_fromCharCode bs1), <- (Uint8Array_from_fromCharCode bs2).
  now rewrite H.
Qed.

(** ** UTF-16 and UTF-8: [TextDecoder] undoes [TextEncoder] on well-formed text *)

(** Induction over a list where a step may consume two elements, as the
    pairing of surrogates does. *)
Lemma list_ind2 {A} (P : list A -> Prop) :
  P [] -> (forall a, P [a]) ->
  (forall a b l, P l -> P (b :: l) -> P (a :: b :: l)) ->
  forall l, P l.
Proof.
  intros H0 H1 H2.
  assert (H : forall l, P l /\ (forall a, P (a :: l))).
  { induction l as [|x l [IH0 IH1]]; split; auto. }
  intros l. apply H.
Qed.

Lemma from_scalar_surrogate_pair (hi lo : N) :
  is_high_surrogate hi = true -> is_low_surrogate lo = true ->
  from_scalar (surrogate_pair hi lo) = [hi; lo].
Proof.
  unfold is_high_surrogate, is_low_surrogate, from_scalar, surrogate_pair.
  intros Hhi Hlo. case_if. list_eq_lia.
Qed.

Lemma to_scalar_cons (c : N) (rest : jsstring) :
  to_scalar (c :: rest) =
  if is_high_surrogate c then
    match rest with
    | d :: rest' =>
        if is_low_surrogate d then surrogate_pair c d :: to_scalar rest'
        else 0xFFFD :: to_scalar rest
    | [] => [0xFFFD]
    end
  else if is_low_surrogate c then 0xFFFD :: to_scalar rest
  else c :: to_scalar rest.
Proof. reflexivity. Qed.

Lemma isWellFormed_cons (c : N) (rest : jsstring) :
  isWellFormed (c :: rest) =
  if is_high_surrogate c then
    match rest with
    | d :: rest' => is_low_surrogate d && isWellFormed rest'
    | [] => false
    end
  else negb (is_low_surrogate c) && (c <? 0x10000) && isWellFormed rest.
Proof. reflexivity. Qed.

Lemma from_scalar_to_scalar (s : jsstring) :
  isWellFormed s = true -> flat_map from_scalar (to_scalar s) = s.
Proof.
  induction s as [| a | a b l IHl IHbl] using list_ind2; intros Hwf;
    [reflexivity | rewrite isWellFormed_cons in Hwf; rewrite to_scalar_cons ..].
  - destruct (is_high_surrogate a); [discriminate|].
    destruct (is_low_surrogate a); [discriminate|].
    cbn in Hwf |- *. unfold from_scalar. case_if. reflexivity.
  - destruct (is_high_surrogate a) eqn:Ha.
    + apply andb_prop in Hwf as [Hb Hl]. rewrite Hb.
      cbn [flat_map]. rewrite from_scalar_surrogate_pair by assumption.
      now rewrite IHl.
    + destruct (is_low_surrogate a) eqn:Ha'; [discriminate|].
      apply andb_prop in Hwf as [Hlt Hbl]. cbn [flat_map].
      rewrite IHbl by assumption.
      unfold from_scalar. cbn in Hlt. now rewrite Hlt.
Qed.

Lemma to_scalar_is_scalar (s : jsstring) :
  is_string s = true -> Forall (fun c => is_scalar c = true) (to_scalar s).
Proof.
  induction s as [| a | a b l IHl IHbl] using list_ind2; intros Hs;
    [constructor | rewrite to_scalar_cons ..].
  - cbn in Hs. unfold is_scalar, is_surrogate, is_high_surrogate, is_low_surrogate.
    repeat case_if; repeat constructor; lia.
  - cbn [is_string forallb] in Hs.
    apply andb_prop in Hs as [Ha Hs]. pose proof Hs as Hbl.
    apply andb_prop in Hs as [Hb Hl].
    destruct (is_high_surrogate a) eqn:Eha.
    + destruct (is_low_surrogate b) eqn:Elb.
      * constructor; [| now apply IHl].
        unfold is_scalar, is_surrogate, surrogate_pair, is_high_surrogate,
          is_low_surrogate in *. lia.
      * constructor; [reflexivity | now apply IHbl].
    + destruct (is_low_surrogate a) eqn:Ela.
      * constructor; [reflexivity | now apply IHbl].
      * constructor; [| now apply IHbl].
        unfold is_scalar, is_surrogate, is_high_surrogate, is_low_surrogate in *. lia.
Qed.

Lemma isWellFormed_is_string (s : jsstring) :
  isWellFormed s = true -> is_string s = true.
Proof.
  induction s as [| a | a b l IHl IHbl] using list_ind2; intros Hwf;
    [reflexivity | rewrite isWellFormed_cons in Hwf ..].
  - cbn in Hwf |- *. destruct (is_high_surrogate a); [discriminate|]. lia.
  - cbn [is_string forallb].
    destruct (is_high_surrogate a) eqn:Ha.
    + apply andb_prop in Hwf as [Hb Hl]. apply IHl in Hl.
      unfold is_string in Hl. rewrite Hl.
      unfold is_high_surrogate, is_low_surrogate in *. lia.
    + apply andb_prop in Hwf as [Hlt Hbl]. apply IHbl in Hbl.
      unfold is_string in Hbl. cbn [forallb] in Hbl. rewrite Hbl.
      apply andb_prop in Hlt as [_ Hlt]. now rewrite Hlt.
Qed.

(** The decoder reads back each encoded scalar value. *)
Lemma utf8_decode_encode_cp (c : N) (rest : list byte) :
  is_scalar c = true ->
  utf8_decode_from utf8_init (utf8_encode_cp c ++ rest) =
  c :: utf8_decode_from utf8_init rest.
Proof.
  unfold is_scalar, is_surrogate. intros Hc.
  unfold utf8_encode_cp.
  repeat case_if; cbn [app utf8_decode_from].
  - rewrite !to_N_byte_of_N by lia. utf8_read. reflexivity.
  - remember (c / 64) as b1 eqn:E1. remember (c mod 64) as b2 eqn:E2.
    assert (c = b1 * 64 + b2 /\ b2 < 64) as [-> ?] by lia. clear E1 E2.
    rewrite !to_N_byte_of_N by lia.
    do 2 utf8_read. apply (f_equal2 (@cons _)); [lia | reflexivity].
  - remember (c / 4096) as b1 eqn:E1. remember ((c / 64) mod 64) as b2 eqn:E2.
    remember (c mod 64) as b3 eqn:E3.
    assert (c = b1 * 4096 + b2 * 64 + b3 /\ b2 < 64 /\ b3 < 64) as (-> & ? & ?) by lia.
    clear E1 E2 E3.
    rewrite !to_N_byte_of_N by lia.
    do 3 utf8_read; apply (f_equal2 (@cons _)); try reflexivity; lia.
  - remember (c / 262144) as b1 eqn:E1. remember ((c / 4096) mod 64) as b2 eqn:E2.
    remember ((c / 64) mod 64) as b3 eqn:E3. remember (c mod 64) as b4 eqn:E4.
    assert (c = b1 * 262144 + b2 * 4096 + b3 * 64 + b4 /\ b2 < 64 /\ b3 < 64 /\ b4 < 64)
      as (-> & ? & ? & ?) by lia.
    clear E1 E2 E3 E4.
    rewrite !to_N_byte_of_N by lia.
    do 4 utf8_read; apply (f_equal2 (@cons _)); try reflexivity; lia.
Qed.

Lemma utf8_decode_encode (cps : list N) :
  Forall (fun c => is_scalar c = true) cps ->
  utf8_decode (flat_map utf8_encode_cp cps) = cps.
Proof.
  unfold utf8_decode.
  induction 1 as [|c cps Hc Hcps IH]; [reflexivity|].
  cbn [flat_map]. rewrite utf8_decode_encode_cp by assumption. now rewrite IH.
Qed.

(** What decoding an encoded string yields in general: unpaired surrogates
    have become U+FFFD and one leading U+FEFF is gone. *)
Lemma TextDecoder_TextEncoder_general (s : jsstring) :
  is_string s = true ->
  TextDecoder_decode (TextEncoder_encode s) =
  flat_map from_scalar (strip_bom (to_scalar s)).
Proof.
  intros Hs. unfold TextDecoder_decode, TextEncoder_encode.
  now rewrite utf8_decode_encode by now apply to_scalar_is_scalar.
Qed.

Lemma strip_bom_to_scalar (s : jsstring) :
  startsWith s [0xFEFF] = false -> strip_bom (to_scalar s) = to_scalar s.
Proof.
  destruct s as [|c rest]; [reflexivity|].
  cbn [startsWith]. rewrite andb_true_r. intros Hc.
  rewrite to_scalar_cons.
  destruct (is_high_surrogate c) eqn:Eh.
  - destruct rest as [|d rest']; [reflexivity|].
    destruct (is_low_surrogate d) eqn:El; [|reflexivity].
    unfold strip_bom.
    replace (surrogate_pair c d =? 0xFEFF) with false; [reflexivity|].
    unfold surrogate_pair, is_high_surrogate, is_low_surrogate in *. lia.
  - destruct (is_low_surrogate c); [reflexivity|].
    unfold strip_bom. now rewrite Hc.
Qed.

(** Well-formed text that does not start with U+FEFF survives the round
    trip through UTF-8. *)
Lemma TextDecoder_TextEncoder (s : jsstring) :
  isWellFormed s = true -> startsWith s [0xFEFF] = false ->
  TextDecoder_decode (TextEncoder_encode s) = s.
Proof.
  intros Hwf Hbom.
  rewrite TextDecoder_TextEncoder_general by now apply isWellFormed_is_string.
  rewrite strip_bom_to_scalar by assumption.
  now apply from_scalar_to_scalar.
Qed.

(** Distinct well-formed strings have distinct encodings. *)
Lemma TextEncoder_encode_inj (s1 s2 : jsstring) :
  isWellFormed s1 = true -> isWellFormed s2 = true ->
  TextEncoder_encode s1 = TextEncoder_encode s2 -> s1 = s2.
Proof.
  intros H1 H2 E. unfold TextEncoder_encode in E.
  apply (f_equal utf8_decode) in E.
  rewrite !utf8_decode_encode in E
    by (apply to_scalar_is_scalar; now apply isWellFormed_is_string).
  rewrite <- (from_scalar_to_scalar s1), <- (from_scalar_to_scalar s2) by assumption.
  now rewrite E.
Qed.

(** ** crypto.js: envelopes and the password hash *)

Section CryptoProperties.
Context {WC : WebCrypto}.

Lemma generateRandomBytes_length (n : nat) (r : Rng) :
  exists bs r', CryptoUtils.generateRandomBytes n r = (Normal bs, r') /\ List.length bs = n.
Proof.
  eexists _, _. split; [reflexivity|]. now rewrite length_map, length_seq.
Qed.

(** What a successful [encrypt] has computed. *)
Lemma encrypt_success (plaintext password : jsstring) (r r' : Rng) (envelope : jsstring) :
  CryptoUtils.encrypt plaintext password r = (Normal envelope, r') ->
  exists salt iv key encrypted,
    List.length salt = 16%nat /\ List.length iv = 12%nat /\
    pbkdf2_deriveKey (TextEncoder_encode password) salt
      CryptoUtils.iterations CryptoUtils.keyLength = Normal key /\
    aes_gcm_encrypt key iv (TextEncoder_encode plaintext) = Normal encrypted /\
    envelope = b64_encode (map Byte.to_N (salt ++ iv ++ encrypted)).
Proof.
  unfold CryptoUtils.encrypt, try_catch, bind, CryptoUtils.deriveKey, lift, throw.
  unfold CryptoUtils.saltLength, CryptoUtils.ivLength.
  destruct (generateRandomBytes_length 16 r) as (salt & r1 & E1 & Hsalt). rewrite E1.
  destruct (generateRandomBytes_length 12 r1) as (iv & r2 & E2 & Hiv). rewrite E2.
  destruct (pbkdf2_deriveKey _ salt _ _) as [key|] eqn:Ekey; [|discriminate].
  destruct (aes_gcm_encrypt key iv _) as [encrypted|] eqn:Eenc; [|discriminate].
  rewrite btoa_bytes. intros [= <- <-].
  now exists salt, iv, key, encrypted.
Qed.

Lemma decrypt_envelope (password : jsstring) (salt iv encrypted : list byte) (r : Rng) :
  List.length salt = 16%nat -> List.length iv = 12%nat ->
  CryptoUtils.decrypt (b64_encode (map Byte.to_N (salt ++ iv ++ encrypted))) password r =
  match pbkdf2_deriveKey (TextEncoder_encode password) salt
          CryptoUtils.iterations CryptoUtils.keyLength with
  | Normal key =>
      match aes_gcm_decrypt key iv encrypted with
      | Normal decrypted => (Normal (TextDecoder_decode decrypted), r)
      | Throw _ =>
          (Throw (JsError "Failed to decrypt data - invalid password or corrupted data"), r)
      end
  | Throw _ =>
      (Throw (JsError "Failed to decrypt data - invalid password or corrupted data"), r)
  end.
Proof.
  intros Hsalt Hiv.
  unfold CryptoUtils.decrypt, try_catch, bind, CryptoUtils.deriveKey, lift, throw, ret.
  rewrite atob_b64_encode by apply Forall_to_N_lt_256.
  change (map Byte.to_N (salt ++ iv ++ encrypted))
    with (String_fromCharCode (salt ++ iv ++ encrypted)).
  rewrite Uint8Array_from_fromCharCode.
  unfold CryptoUtils.saltLength, CryptoUtils.ivLength.
  rewrite (take_app_length' salt) by auto.
  rewrite (drop_app_length' salt) by auto.
  rewrite (take_app_length' iv) by auto.
  rewrite (app_assoc salt iv encrypted).
  rewrite (drop_app_length' (salt ++ iv)) by (rewrite length_app; lia).
  destruct (pbkdf2_deriveKey _ salt _ _) as [key|]; [|reflexivity].
  destruct (aes_gcm_decrypt key iv encrypted); reflexivity.
Qed.

(** C1, as amended: for every well-formed plaintext that does not begin
    with U+FEFF and every password, decrypting the envelope that [encrypt]
    produced, with the same password, returns the plaintext exactly. The
    fresh salt and IV are read from the entropy tape; the decryption reads
    no entropy. *)
Theorem encrypt_decrypt_round_trip
  (plaintext password envelope : jsstring) (r r' : Rng) :
  aes_gcm_sound WC ->
  isWellFormed plaintext = true ->
  startsWith plaintext [0xFEFF] = false ->
  CryptoUtils.encrypt plaintext password r = (Normal envelope, r') ->
  forall r2, CryptoUtils.decrypt envelope password r2 = (Normal plaintext, r2).
Proof.
  intros Haes Hwf Hbom Henc r2.
  apply encrypt_success in Henc
    as (salt & iv & key & encrypted & Hsalt & Hiv & Hkey & Hct & ->).
  rewrite decrypt_envelope by assumption.
  rewrite Hkey, (Haes _ _ _ _ Hct).
  now rewrite TextDecoder_TextEncoder.
Qed.

(** The round trip in general, for any string of 16-bit code units: what
    comes back is the plaintext with unpaired surrogates replaced by U+FFFD
    and one leading U+FEFF removed. *)
Lemma encrypt_decrypt_general
  (plaintext password envelope : jsstring) (r r' : Rng) :
  aes_gcm_sound WC ->
  is_string plaintext = true ->
  CryptoUtils.encrypt plaintext password r = (Normal envelope, r') ->
  forall r2, CryptoUtils.decrypt envelope password r2 =
             (Normal (flat_map from_scalar (strip_bom (to_scalar plaintext))), r2).
Proof.
  intros Haes Hs Henc r2.
  apply encrypt_success in Henc
    as (salt & iv & key & encrypted & Hsalt & Hiv & Hkey & Hct & ->).
  rewrite decrypt_envelope by assumption.
  rewrite Hkey, (Haes _ _ _ _ Hct).
  now rewrite TextDecoder_TextEncoder_general.
Qed.

End CryptoProperties.

Section PasswordHashProperties.
Context {WC : WebCrypto}.

(** What a successful [hashPassword] with a generated salt has computed. *)
Lemma hashPassword_success (password : jsstring) (r r' : Rng) (stored : jsstring) :
  CryptoUtils.hashPassword password None r = (Normal stored, r') ->
  exists salt digest,
    List.length salt = 16%nat /\
    pbkdf2_deriveBits (TextEncoder_encode password) salt CryptoUtils.iterations 256 =
      Normal digest /\
    stored = b64_encode (map Byte.to_N (salt ++ digest)).
Proof.
  unfold CryptoUtils.hashPassword, bind, lift, CryptoUtils.saltLength.
  destruct (generateRandomBytes_length 16 r) as (salt & r1 & E1 & Hsalt). rewrite E1.
  destruct (pbkdf2_deriveBits _ salt _ _) as [digest|] eqn:Ed; [|discriminate].
  rewrite btoa_bytes. intros [= <- <-].
  now exists salt, digest.
Qed.

(** [verifyPassword] against a stored hash, in terms of the digest of the
    candidate password under the stored salt. *)
Lemma verifyPassword_stored (password : jsstring) (salt digest : list byte) (r : Rng) :
  List.length salt = 16%nat ->
  CryptoUtils.verifyPassword password (b64_encode (map Byte.to_N (salt ++ digest))) r =
  match pbkdf2_deriveBits (TextEncoder_encode password) salt CryptoUtils.iterations 256 with
  | Normal digest' => (Normal (bool_decide (digest' = digest)), r)
  | Throw _ => (Normal false, r)
  end.
Proof.
  intros Hsalt.
  unfold CryptoUtils.verifyPassword, CryptoUtils.verifyPassword_try,
    CryptoUtils.hashPassword, try_catch, bind, lift, ret.
  rewrite atob_b64_encode by apply Forall_to_N_lt_256.
  change (map Byte.to_N (salt ++ digest)) with (String_fromCharCode (salt ++ digest)).
  rewrite Uint8Array_from_fromCharCode.
  unfold CryptoUtils.saltLength. rewrite (take_app_length' salt) by auto.
  destruct (pbkdf2_deriveBits _ salt _ _) as [digest'|]; [|reflexivity].
  rewrite btoa_bytes. unfold str_eqb. do 2 f_equal.
  destruct (decide (digest' = digest)) as [->|Hne].
  - rewrite !bool_decide_eq_true_2; reflexivity.
  - rewrite !bool_decide_eq_false_2; [reflexivity | assumption |].
    intros E. apply Hne.
    assert (E' : btoa (String_fromCharCode (salt ++ digest')) =
                 btoa (String_fromCharCode (salt ++ digest)))
      by (rewrite !btoa_bytes; now f_equal).
    apply btoa_bytes_inj in E'. now apply app_inv_head in E'.
Qed.

(** C2, as amended: a password verifies against its own hash. Another
    password verifies against it exactly when PBKDF2 gives its UTF-8 bytes,
    under the stored salt, the digest of the hashed password, and is refused
    in every other case, a different digest or a throw of the derivation;
    nothing is thrown in either case. Two passwords with one UTF-8 encoding
    have one digest, so each verifies against the hash of the other. The
    salt is the 16 bytes that [hashPassword] read from the entropy source;
    nothing is assumed of PBKDF2. *)
Theorem verifyPassword_hashPassword
  (password1 stored : jsstring) (r r' : Rng) :
  CryptoUtils.hashPassword password1 None r = (Normal stored, r') ->
  let digest password :=
    pbkdf2_deriveBits (TextEncoder_encode password) (map r (seq 0 16))
      CryptoUtils.iterations 256 in
  (forall r2, CryptoUtils.verifyPassword password1 stored r2 = (Normal true, r2)) /\
  (forall password2 r2,
     digest password2 = digest password1 ->
     CryptoUtils.verifyPassword password2 stored r2 = (Normal true, r2)) /\
  (forall password2 r2,
     digest password2 <> digest password1 ->
     CryptoUtils.verifyPassword password2 stored r2 = (Normal false, r2)) /\
  (forall password2 r2,
     TextEncoder_encode password2 = TextEncoder_encode password1 ->
     CryptoUtils.verifyPassword password2 stored r2 = (Normal true, r2)).
Proof.
  intros Hhash digest.
  assert (Hstored : exists d,
            digest password1 = Normal d /\
            stored = b64_encode (map Byte.to_N (map r (seq 0 16) ++ d))).
  { revert Hhash.
    unfold CryptoUtils.hashPassword, bind, lift, CryptoUtils.generateRandomBytes,
      CryptoUtils.saltLength.
    fold (digest password1).
    destruct (digest password1) as [d|]; [|discriminate].
    rewrite btoa_bytes. intros [= <- _]. now exists d. }
  destruct Hstored as (d & Hd & ->).
  assert (Hsalt : List.length (map r (seq 0 16)) = 16%nat)
    by now rewrite length_map, length_seq.
  assert (Hsame : forall password2 r2,
            digest password2 = digest password1 ->
            CryptoUtils.verifyPassword password2
              (b64_encode (map Byte.to_N (map r (seq 0 16) ++ d))) r2 = (Normal true, r2)).
  { intros password2 r2 E. rewrite verifyPassword_stored by assumption.
    fold (digest password2). rewrite E, Hd.
    now rewrite bool_decide_eq_true_2. }
  repeat split.
  - intros r2. now apply Hsame.
  - exact Hsame.
  - intros password2 r2 Hne. rewrite verifyPassword_stored by assumption.
    fold (digest password2).
    destruct (digest password2) as [d2|] eqn:E2; [|reflexivity].
    rewrite bool_decide_eq_false_2; [reflexivity|].
    intros ->. apply Hne. now rewrite Hd.
  - intros password2 r2 E. apply Hsame. unfold digest. now rewrite E.
Qed.

(** The [try] block of [verifyPassword] reads no entropy. *)
Lemma verifyPassword_try_rng (password stored : jsstring) (r : Rng) :
  snd (CryptoUtils.verifyPassword_try password stored r) = r.
Proof.
  unfold CryptoUtils.verifyPassword_try, CryptoUtils.hashPassword, bind, lift, ret.
  destruct (atob stored); [|reflexivity].
  destruct (pbkdf2_deriveBits _ _ _ _); [|reflexivity].
  destruct (btoa _); reflexivity.
Qed.

(** C7: for every password and every stored envelope, well-formed or not,
    [verifyPassword] returns a boolean and throws nothing; whenever its
    [try] block faults (the envelope does not parse as base64, or the
    derivation throws), the boolean is [false]. *)
Theorem verifyPassword_never_throws (password stored : jsstring) (r : Rng) :
  exists b : bool,
    CryptoUtils.verifyPassword password stored r = (Normal b, r) /\
    (is_throw (fst (CryptoUtils.verifyPassword_try password stored r)) = true ->
     b = false).
Proof.
  pose proof (verifyPassword_try_rng password stored r) as Hr.
  unfold CryptoUtils.verifyPassword, try_catch, ret.
  destruct (CryptoUtils.verifyPassword_try password stored r) as [[b|e] r1];
    cbn [snd fst is_throw] in *; subst r1.
  - exists b. split; [reflexivity | discriminate].
  - exists false. split; reflexivity.
Qed.

(** An envelope that is not base64 is rejected without a throw. *)
Lemma verifyPassword_malformed (password stored : jsstring) (r : Rng) :
  is_throw (atob stored) = true ->
  CryptoUtils.verifyPassword password stored r = (Normal false, r).
Proof.
  unfold CryptoUtils.verifyPassword, CryptoUtils.verifyPassword_try, try_catch, bind,
    lift, ret.
  destruct (atob stored); [discriminate | reflexivity].
Qed.

End PasswordHashProperties.

(** ** The toy platform satisfies the laws *)

Lemma toy_tag_length (key : list byte) : List.length (Instances.toy_tag key) = 16%nat.
Proof.
  unfold Instances.toy_tag. rewrite length_take, length_app, repeat_length. lia.
Qed.

Lemma bytes_eqb_refl (a : list byte) : Instances.bytes_eqb a a = true.
Proof.
  unfold Instances.bytes_eqb. now destruct (List.list_eq_dec byte_eq_dec a a).
Qed.

Lemma toy_aes_gcm_sound : aes_gcm_sound Instances.ToyCrypto.
Proof.
  intros key iv data encrypted. cbn. intros [= <-].
  unfold Instances.toy_decrypt.
  rewrite length_app, toy_tag_length.
  replace (List.length data + 16 <? 16)%nat with false by lia.
  replace (List.length data + 16 - 16)%nat with (List.length data) by lia.
  rewrite drop_app_length, bytes_eqb_refl. now rewrite take_app_length.
Qed.

Lemma ascii_case_mapping_AsciiCase : ascii_case_mapping Instances.AsciiCase.
Proof. intros s _. split; reflexivity. Qed.

(** ** C1 and C2 on concrete inputs *)

(** The round trip of the text ["[]"] under the toy platform. *)
Lemma encrypt_decrypt_round_trip_witness :
  CryptoUtils.decrypt (WC := Instances.ToyCrypto) Instances.sample_envelope
    (lit "correcthorse1") Instances.zero_rng =
  (Normal (lit "[]"), Instances.zero_rng).
Proof.
  apply (encrypt_decrypt_round_trip (WC := Instances.ToyCrypto)
           (lit "[]") (lit "correcthorse1") Instances.sample_envelope
           Instances.counting_rng (snd Instances.sample_sealed)).
  - exact toy_aes_gcm_sound.
  - reflexivity.
  - reflexivity.
  - vm_compute. reflexivity.
Defined.

(** C1 as stated fails: on an AES-GCM that decrypts what it encrypted, a
    plaintext that begins with U+FEFF comes back without it, and an
    unpaired surrogate comes back as U+FFFD. *)
Lemma round_trip_loses_bom_and_lone_surrogates :
  aes_gcm_sound Instances.ToyCrypto /\
  (exists envelope,
     fst (CryptoUtils.encrypt (WC := Instances.ToyCrypto) [0xFEFF; 104; 105]
            (lit "pw") Instances.counting_rng) = Normal envelope /\
     fst (CryptoUtils.decrypt (WC := Instances.ToyCrypto) envelope (lit "pw")
            Instances.zero_rng) = Normal [104; 105] /\
     [104; 105] <> [0xFEFF; 104; 105]) /\
  (exists envelope,
     fst (CryptoUtils.encrypt (WC := Instances.ToyCrypto) [104; 0xD83D; 105]
            (lit "pw") Instances.counting_rng) = Normal envelope /\
     fst (CryptoUtils.decrypt (WC := Instances.ToyCrypto) envelope (lit "pw")
            Instances.zero_rng) = Normal [104; 0xFFFD; 105] /\
     [104; 0xFFFD; 105] <> [104; 0xD83D; 105]).
Proof.
  split; [exact toy_aes_gcm_sound|].
  split; eexists; (split; [vm_compute; reflexivity|]);
    (split; [vm_compute; reflexivity | discriminate]).
Qed.

(** A stored hash accepts its password and refuses another one. *)
Lemma verifyPassword_hashPassword_witness :
  CryptoUtils.verifyPassword (WC := Instances.ToyCrypto) (lit "correcthorse1")
    Instances.sample_hash Instances.zero_rng = (Normal true, Instances.zero_rng) /\
  CryptoUtils.verifyPassword (WC := Instances.ToyCrypto) (lit "correcthorse2")
    Instances.sample_hash Instances.zero_rng = (Normal false, Instances.zero_rng).
Proof.
  destruct (verifyPassword_hashPassword (WC := Instances.ToyCrypto)
              (lit "correcthorse1") Instances.sample_hash
              Instances.counting_rng (snd Instances.sample_hashed))
    as (Hsame & _ & Hother & _).
  - vm_compute. reflexivity.
  - split.
    + apply Hsame.
    + apply Hother. vm_compute. discriminate.
Defined.

(** C2 as stated fails. Two distinct passwords that differ in an unpaired
    surrogate only have the same UTF-8 encoding, so that under every PBKDF2
    the second verifies against the hash of the first. And PBKDF2 over HMAC
    fills a short key up with zero bytes: where it does, a password
    followed by U+0000, well-formed and distinct from it, verifies against
    its hash too. *)
Lemma distinct_passwords_verify_alike :
  [0xDBFF; 97] <> [0xD800; 97] /\
  (forall (WC : WebCrypto) (stored : jsstring) (r r' r2 : Rng),
     CryptoUtils.hashPassword [0xD800; 97] None r = (Normal stored, r') ->
     CryptoUtils.verifyPassword [0xDBFF; 97] stored r2 = (Normal true, r2)) /\
  (exists stored,
     fst (CryptoUtils.hashPassword (WC := Instances.ToyCrypto) [0xD800; 97] None
            Instances.counting_rng) = Normal stored /\
     fst (CryptoUtils.verifyPassword (WC := Instances.ToyCrypto) [0xDBFF; 97] stored
            Instances.zero_rng) = Normal true) /\
  lit "correcthorse1" ++ [0] <> lit "correcthorse1" /\
  isWellFormed (lit "correcthorse1" ++ [0]) = true /\
  (exists stored,
     fst (CryptoUtils.hashPassword (WC := Instances.ZeroFilledKeyCrypto)
            (lit "correcthorse1") None Instances.counting_rng) = Normal stored /\
     fst (CryptoUtils.verifyPassword (WC := Instances.ZeroFilledKeyCrypto)
            (lit "correcthorse1" ++ [0]) stored Instances.zero_rng) = Normal true).
Proof.
  split; [discriminate|]. split.
  - intros WC stored r r' r2 Hhash.
    apply hashPassword_success in Hhash as (salt & digest & Hsalt & Hd & ->).
    rewrite verifyPassword_stored by assumption.
    change (TextEncoder_encode [0xDBFF; 97]) with (TextEncoder_encode [0xD800; 97]).
    rewrite Hd. now rewrite bool_decide_eq_true_2.
  - split; [eexists; split; vm_compute; reflexivity|].
    split; [discriminate|]. split; [reflexivity|].
    eexists. split; vm_compute; reflexivity.
Qed.

(** ** project/app.js: registration, loading and the entry list *)

Section VaultProperties.
Context {WC : WebCrypto} {UC : UnicodeCase} {JC : JSONCodec}.

Import PasswordVault.

(** An account of the mapping is the member that [users[email]] reads. *)
Lemma users_member_own (users : gmap jsstring UserAccount) (email : jsstring)
  (user : UserAccount) :
  users !! email = Some user -> users_member users email = own_member user.
Proof. intros H. unfold users_member. now rewrite H. Qed.

(** There is no member exactly when the email has no account and is not a
    name that objects inherit. *)
Lemma users_member_none (users : gmap jsstring UserAccount) (email : jsstring) :
  users_member users email = no_member <->
  users !! email = None /\ is_inherited email = false.
Proof.
  unfold users_member.
  destruct (users !! email); [split; [discriminate | intros [H _]; discriminate H]|].
  destruct (is_inherited email); split; try discriminate; auto.
  intros [_ H]. discriminate H.
Qed.

(** The text ["undefined"] is no base64: [verifyPassword] refuses it. *)
Lemma verifyPassword_undefined (password : jsstring) (r : Rng) :
  CryptoUtils.verifyPassword password (lit "undefined") r = (Normal false, r).
Proof. reflexivity. Qed.

(** C10: registration with a confirmation that differs from the password,
    or with a password shorter than 8 code units, is rejected: the handler
    returns after a single alert, no hash is computed, and the storage (with
    its [users] mapping) and the vault object are unchanged. *)
Theorem handleRegister_rejects
  (w : World) (email password confirmPassword isoNow : jsstring) :
  password <> confirmPassword \/ (List.length password < 8)%nat ->
  exists msg : string,
    (msg = "Passwords do not match!"%string \/
     msg = "Password must be at least 8 characters long!"%string) /\
    handleRegister email password confirmPassword isoNow w =
    (Normal tt,
     mkWorld (vault w) (localStorage w) (rng w) (alerts w ++ [msg]) (posted w)).
Proof.
  intros H. unfold handleRegister, str_eqb.
  destruct (decide (password = confirmPassword)) as [Heq|Hne].
  - destruct H as [H|H]; [contradiction|].
    rewrite bool_decide_eq_true_2 by assumption. cbn [negb].
    replace (List.length password <? 8)%nat with true by lia.
    eexists. split; [right; reflexivity | reflexivity].
  - rewrite bool_decide_eq_false_2 by assumption. cbn [negb].
    eexists. split; [left; reflexivity | reflexivity].
Qed.

(** A registration that passes both checks for an email that reads no
    member of the mapping stores the account under that email. *)
Lemma handleRegister_accepts
  (w : World) (email password isoNow hashed : jsstring) (r' : Rng) :
  (8 <= List.length password)%nat ->
  users_member (ls_users (localStorage w)) email = no_member ->
  CryptoUtils.hashPassword password None (rng w) = (Normal hashed, r') ->
  ls_users (localStorage (snd (handleRegister email password password isoNow w))) =
  <[email := mkUser email hashed isoNow]> (ls_users (localStorage w)).
Proof.
  intros Hlen Hnew Hhash. unfold handleRegister, str_eqb.
  rewrite bool_decide_eq_true_2 by reflexivity. cbn [negb].
  replace (List.length password <? 8)%nat with false by lia.
  unfold_monad. rewrite Hnew, Hhash. reflexivity.
Qed.

(** C5: for a logged-in account, when no envelope is stored, or when the
    stored envelope fails to decrypt, [loadUserEntries] completes normally
    with the in-memory entry list empty; the session (current user and
    password), the storage and the alert log are as before. *)
Theorem loadUserEntries_recovers (w : World) (u : UserAccount) :
  currentUser (vault w) = Some u ->
  ls_entries (localStorage w) !! user_email u = None \/
  (exists envelope,
     ls_entries (localStorage w) !! user_email u = Some envelope /\
     is_throw (fst (CryptoUtils.decrypt envelope
                      (password_string (userPassword (vault w))) (rng w))) = true) ->
  exists w',
    loadUserEntries w = (Normal tt, w') /\
    entries (vault w') = [] /\
    currentUser (vault w') = Some u /\
    userPassword (vault w') = userPassword (vault w) /\
    localStorage w' = localStorage w /\
    alerts w' = alerts w /\
    posted w' = posted w.
Proof.
  intros Hu H. unfold loadUserEntries. unfold_monad. rewrite Hu.
  destruct H as [Hnone | (envelope & Hsome & Hthrow)].
  - rewrite Hnone. eexists. split; [reflexivity|]. cbn. now rewrite Hu.
  - rewrite Hsome. destruct (is_empty envelope).
    + eexists. split; [reflexivity|]. cbn. now rewrite Hu.
    + destruct (CryptoUtils.decrypt envelope _ (rng w)) as [[plain|e] r'];
        [discriminate Hthrow|].
      eexists. split; [reflexivity|]. cbn. now rewrite Hu.
Qed.

(** The duplicate check of [handleAddEntry] and [handleEditEntry]. *)
Lemma duplicate_check (es : list Entry) (platformName : jsstring) :
  existsb (fun entry => str_eqb (toLowerCase (entry_platform entry))
                                (toLowerCase platformName)) es = true <->
  exists entry, In entry es /\
                toLowerCase (entry_platform entry) = toLowerCase platformName.
Proof.
  rewrite existsb_exists. unfold str_eqb.
  split; intros (e & He & H); exists e; split; auto.
  - now apply bool_decide_eq_true_1 in H.
  - now apply bool_decide_eq_true_2.
Qed.

(** C6: when the trimmed platform name equals the platform of an entry of
    the list under lower-casing, [handleAddEntry] adds nothing: the vault
    object, the storage, the entropy tape and the posted messages are
    unchanged. With all three fields filled in, the one effect is the alert
    that an entry for this platform already exists; with a field left
    empty it is the alert to fill in all fields. *)
Theorem handleAddEntry_duplicate_platform
  (w : World) (rawName rawUsername rawPassword : jsstring) (now : Z) (isoNow : jsstring) :
  (exists entry, In entry (entries (vault w)) /\
     toLowerCase (entry_platform entry) = toLowerCase (trim rawName)) ->
  exists msg : string,
    handleAddEntry rawName rawUsername rawPassword now isoNow w =
    (Normal tt,
     mkWorld (vault w) (localStorage w) (rng w) (alerts w ++ [msg]) (posted w)) /\
    msg = (if is_empty (trim rawName) || is_empty (trim rawUsername) ||
              is_empty rawPassword
           then "Please fill in all fields!"
           else "An entry for this platform already exists!")%string.
Proof.
  intros Hdup. apply duplicate_check in Hdup.
  unfold handleAddEntry.
  destruct (is_empty (trim rawName) || is_empty (trim rawUsername) ||
            is_empty rawPassword).
  - eexists. split; reflexivity.
  - unfold_monad. rewrite Hdup. eexists. split; reflexivity.
Qed.

(** [saveUserEntries] leaves the vault object as it is. *)
Lemma saveUserEntries_vault (w : World) :
  vault (snd (saveUserEntries w)) = vault w.
Proof.
  unfold saveUserEntries. unfold_monad.
  destruct (currentUser (vault w)); [|reflexivity].
  destruct (CryptoUtils.encrypt _ _ (rng w)) as [[enc|e] r']; reflexivity.
Qed.

Lemma saveUserEntries_normal (w : World) :
  fst (saveUserEntries w) = Normal tt.
Proof.
  unfold saveUserEntries. unfold_monad.
  destruct (currentUser (vault w)); [|reflexivity].
  destruct (CryptoUtils.encrypt _ _ (rng w)) as [[enc|e] r']; reflexivity.
Qed.

(** [handleAddEntry] either rejects the submission and leaves the vault
    object as it is, or appends exactly one entry whose id is the decimal
    rendering of the clock reading. *)
Lemma handleAddEntry_vault
  (w : World) (rawName rawUsername rawPassword : jsstring) (now : Z) (isoNow : jsstring) :
  let v' := vault (snd (handleAddEntry rawName rawUsername rawPassword now isoNow w)) in
  v' = vault w \/
  v' = set_entries (entries (vault w) ++
                    [added_entry rawName rawUsername rawPassword now isoNow]) (vault w).
Proof.
  unfold handleAddEntry.
  destruct (is_empty (trim rawName) || is_empty (trim rawUsername) ||
            is_empty rawPassword); [left; reflexivity|].
  unfold_monad. cbn beta iota.
  destruct (existsb _ (entries (vault w))); [left; reflexivity|].
  right.
  match goal with |- context [saveUserEntries ?w1] =>
    pose proof (saveUserEntries_vault w1) as Hv;
    pose proof (saveUserEntries_normal w1) as Hn;
    destruct (saveUserEntries w1) as [c w2]
  end.
  cbn [fst snd] in Hv, Hn. subst c. cbn. rewrite Hv. reflexivity.
Qed.

End VaultProperties.

(** ** Entry ids *)

Lemma lit_inj (s t : string) : lit s = lit t -> s = t.
Proof.
  unfold lit. intros H.
  rewrite <- (string_of_list_ascii_of_string s), <- (string_of_list_ascii_of_string t).
  f_equal. revert H.
  generalize (list_ascii_of_string s) (list_ascii_of_string t).
  induction l as [|a l IH]; intros [|b l']; simpl; try discriminate; [reflexivity|].
  intros [= Hab Hl]. f_equal; [|now apply IH].
  rewrite <- (ascii_N_embedding a), <- (ascii_N_embedding b). now rewrite Hab.
Qed.

(** Distinct clock readings give distinct ids. *)
Lemma Number_toString_inj (a b : Z) : Number_toString a = Number_toString b -> a = b.
Proof.
  unfold Number_toString. intros H. apply lit_inj in H.
  assert (Hnn : forall z, Z.to_int z <> Decimal.Pos Decimal.Nil /\
                          Z.to_int z <> Decimal.Neg Decimal.Nil).
  { intros [|p|p]; simpl; split; try discriminate;
      intros [= E]; now apply DecimalPos.Unsigned.to_uint_nonnil in E. }
  apply (f_equal NilZero.int_of_string) in H.
  destruct (Hnn a) as [Ha1 Ha2]. destruct (Hnn b) as [Hb1 Hb2].
  rewrite !NilZero.isi in H by assumption.
  injection H as H. now apply DecimalZ.to_int_inj.
Qed.

Lemma NoDup_snoc {A} (l : list A) (x : A) :
  List.NoDup l -> ~ In x l -> List.NoDup (l ++ [x]).
Proof.
  induction 1 as [|y l Hy Hl IH]; intros Hx; simpl.
  - apply List.NoDup_cons; [intros [] | apply List.NoDup_nil].
  - apply List.NoDup_cons.
    + rewrite in_app_iff. intros [H | [H | []]]; [now apply Hy|].
      apply Hx. now left.
    + apply IH. intros H. apply Hx. now right.
Qed.

Section EntryIds.
Context {WC : WebCrypto} {UC : UnicodeCase} {JC : JSONCodec}.

Import PasswordVault.

(** C9, as amended: when the ids of the list are pairwise distinct, and
    the clock readings of a sequence of add-entry submissions are pairwise
    distinct and render to none of those ids, the ids of the resulting
    list are pairwise distinct. In particular this holds from the empty
    list for any sequence of submissions made at distinct clock readings. *)
Theorem addEntry_ids_distinct (w : World) (reqs : list AddRequest) :
  List.NoDup (map entry_id (entries (vault w))) ->
  List.NoDup (map req_now reqs) ->
  (forall q, In q reqs ->
     ~ In (Number_toString (req_now q)) (map entry_id (entries (vault w)))) ->
  List.NoDup (map entry_id (entries (vault (run (map add_event reqs) w)))).
Proof.
  revert w. induction reqs as [|q reqs IH]; intros w Hids Hclock Hfresh;
    [exact Hids|].
  cbn [map run fold_left handle add_event].
  change (fold_left (fun w ev => snd (handle ev w)) (map add_event reqs) ?w1)
    with (run (map add_event reqs) w1).
  inversion_clear Hclock as [|? ? Hq Hrest].
  pose proof (handleAddEntry_vault w (req_name q) (req_username q) (req_password q)
                (req_now q) (req_isoNow q)) as Hv.
  cbv zeta in Hv.
  set (w1 := snd (handleAddEntry (req_name q) (req_username q) (req_password q)
                    (req_now q) (req_isoNow q) w)) in *.
  apply IH; [| assumption |].
  - destruct Hv as [-> | ->]; [assumption|].
    cbn [entries set_entries]. rewrite map_app. cbn [map added_entry entry_id].
    apply NoDup_snoc; [assumption|]. apply Hfresh. now left.
  - intros q' Hq'. destruct Hv as [-> | ->]; [apply Hfresh; now right|].
    cbn [entries set_entries]. rewrite map_app, in_app_iff.
    cbn [map added_entry entry_id In].
    intros [H | [H | []]].
    + revert H. apply Hfresh. now right.
    + apply Number_toString_inj in H. apply Hq. rewrite H.
      now apply in_map.
Qed.

End EntryIds.

(** ** String containment and the removal of [www.] *)

Lemma startsWith_spec (s t : jsstring) :
  startsWith s t = true <-> exists post, s = t ++ post.
Proof.
  revert s. induction t as [|b t IH]; intros s; cbn [startsWith].
  - split; [intros _; now exists s | reflexivity].
  - destruct s as [|a s].
    + split; [discriminate | intros (post & H); discriminate H].
    + rewrite andb_true_iff, N.eqb_eq, IH. split.
      * intros (-> & post & ->). now exists post.
      * intros (post & [= -> ->]). split; [reflexivity | now exists post].
Qed.

(** [includes] is substring containment. *)
Lemma includes_spec (s t : jsstring) :
  includes s t = true <-> exists pre post, s = pre ++ t ++ post.
Proof.
  induction s as [|a s IH]; cbn [includes].
  - rewrite orb_false_r, startsWith_spec. split.
    + intros (post & H). now exists [], post.
    + intros (pre & post & H). destruct pre; [now exists post|discriminate].
  - rewrite orb_true_iff, startsWith_spec, IH. split.
    + intros [(post & H) | (pre & post & ->)].
      * now exists [], post.
      * now exists (a :: pre), post.
    + intros ([|x pre] & post & H).
      * left. now exists post.
      * right. injection H as -> ->. now exists pre, post.
Qed.

Lemma replace_leading (s pat rep : jsstring) :
  startsWith s pat = true -> replace s pat rep = rep ++ skipn (List.length pat) s.
Proof. intros H. destruct s; cbn [replace]; now rewrite H. Qed.

Lemma replace_absent (s pat rep : jsstring) :
  includes s pat = false -> replace s pat rep = s.
Proof.
  induction s as [|a s IH]; cbn [includes replace]; intros H;
    apply orb_false_elim in H as [H1 H2]; rewrite H1; [reflexivity|].
  now rewrite IH.
Qed.

(** What [List.find] returns is the first element, in list order, that
    passes the test. *)
Lemma find_first {A} (f : A -> bool) (l : list A) (x : A) :
  List.find f l = Some x <->
  exists before after,
    l = before ++ x :: after /\ f x = true /\ forallb (fun y => negb (f y)) before = true.
Proof.
  induction l as [|a l IH]; cbn [List.find].
  - split; [discriminate|]. intros ([|] & ? & H & _); discriminate H.
  - destruct (f a) eqn:Ea.
    + split.
      * intros [= ->]. now exists [], l.
      * intros ([|b before] & after & H & Hx & Hb).
        -- now injection H as ->.
        -- injection H as -> ->. cbn in Hb. now rewrite Ea in Hb.
    + rewrite IH. split.
      * intros (before & after & -> & Hx & Hb).
        exists (a :: before), after. cbn. now rewrite Ea.
      * intros ([|b before] & after & H & Hx & Hb).
        -- injection H as -> ->. congruence.
        -- injection H as -> ->. exists before, after.
           cbn in Hb. apply andb_prop in Hb as [_ Hb]. auto.
Qed.

Lemma find_none {A} (f : A -> bool) (l : list A) :
  List.find f l = None <-> forallb (fun y => negb (f y)) l = true.
Proof.
  induction l as [|a l IH]; cbn; [tauto|].
  destruct (f a); cbn; [split; discriminate | exact IH].
Qed.

(** ** The two domain matchers *)

Section Matchers.
Context {UC : UnicodeCase}.

(** The loop of the web application returns the data of the first entry
    that passes the test. *)
Lemma app_match_loop_find (normalizedDomain : jsstring) (es : list Entry) :
  PasswordVault.match_loop normalizedDomain es =
  option_map PasswordVault.entry_data
    (List.find (DomainMatcher.satisfies normalizedDomain) es).
Proof.
  induction es as [|e es IH]; cbn [PasswordVault.match_loop List.find]; [reflexivity|].
  unfold DomainMatcher.satisfies at 1.
  destruct (includes normalizedDomain (toLowerCase (entry_platform e)) ||
            includes (toLowerCase (entry_platform e)) normalizedDomain);
    [reflexivity|].
  cbn [orb].
  destruct (includes normalizedDomain (toLowerCase (entry_platform e) ++ lit ".com") ||
            includes (toLowerCase (entry_platform e) ++ lit ".com") normalizedDomain);
    [reflexivity | exact IH].
Qed.

(** So does the loop of the extension. *)
Lemma bg_match_loop_find (normalizedDomain : jsstring) (es : list Entry) :
  BackgroundService.match_loop normalizedDomain es =
  option_map BackgroundService.entry_data
    (List.find (DomainMatcher.satisfies normalizedDomain) es).
Proof.
  induction es as [|e es IH]; cbn [BackgroundService.match_loop List.find]; [reflexivity|].
  unfold DomainMatcher.satisfies at 1.
  destruct (includes normalizedDomain (toLowerCase (entry_platform e)) ||
            includes (toLowerCase (entry_platform e)) normalizedDomain);
    [reflexivity|].
  cbn [orb].
  destruct (includes normalizedDomain (toLowerCase (entry_platform e) ++ lit ".com") ||
            includes (toLowerCase (entry_platform e) ++ lit ".com") normalizedDomain);
    [reflexivity | exact IH].
Qed.

(** The guard of the extension's query: an empty cache has no match. *)
Lemma bg_getPasswordForDomain_find (s : BackgroundService.Service) (domain : jsstring) :
  BackgroundService.getPasswordForDomain s domain =
  if BackgroundService.isUserLoggedIn s then
    option_map BackgroundService.entry_data
      (List.find (DomainMatcher.satisfies (BackgroundService.normalize_domain domain))
                 (BackgroundService.passwordData s))
  else None.
Proof.
  unfold BackgroundService.getPasswordForDomain.
  destruct (BackgroundService.isUserLoggedIn s); [|reflexivity]. cbn [negb orb].
  destruct (BackgroundService.passwordData s) as [|e es] eqn:E; [reflexivity|].
  cbn [List.length Nat.eqb]. apply bg_match_loop_find.
Qed.

Lemma app_getPasswordForDomain_find (v : PasswordVault.Vault) (domain : jsstring) :
  PasswordVault.getPasswordForDomain v domain =
  match PasswordVault.currentUser v with
  | Some _ =>
      option_map PasswordVault.entry_data
        (List.find (DomainMatcher.satisfies (PasswordVault.normalize_domain domain))
                   (PasswordVault.entries v))
  | None => None
  end.
Proof.
  unfold PasswordVault.getPasswordForDomain.
  destruct (PasswordVault.currentUser v); [apply app_match_loop_find | reflexivity].
Qed.

(** When the lower-cased hostname begins with [www.], or does not contain
    it, removing the first occurrence strips the leading one. *)
Lemma replace_www_leading_or_absent (hostname : jsstring) :
  startsWith hostname (lit "www.") = true \/ includes hostname (lit "www.") = false ->
  replace hostname (lit "www.") (lit "") = DomainMatcher.strip_leading_www hostname.
Proof.
  intros [H | H]; unfold DomainMatcher.strip_leading_www.
  - rewrite H. now rewrite replace_leading.
  - rewrite replace_absent by assumption.
    destruct (startsWith hostname (lit "www.")) eqn:E; [|reflexivity].
    apply startsWith_spec in E as (post & E).
    assert (includes hostname (lit "www.") = true)
      by (apply includes_spec; now exists [], post).
    congruence.
Qed.

(** C3, as amended: both matchers lower-case the hostname; when the
    lower-cased hostname begins with [www.] or does not contain it, they
    answer as the matcher of the specification does on the lower-cased
    hostname: the leading [www.] is stripped and the result is the data of
    the first entry, in list order, whose lower-cased platform is in
    two-way substring containment with the normalized hostname, or whose
    lower-cased platform followed by [.com] is, and none when there is no
    such entry (or no session). *)
Theorem getPasswordForDomain_first_match
  (v : PasswordVault.Vault) (s : BackgroundService.Service) (domain : jsstring) :
  startsWith (toLowerCase domain) (lit "www.") = true \/
  includes (toLowerCase domain) (lit "www.") = false ->
  PasswordVault.getPasswordForDomain v domain =
    match PasswordVault.currentUser v with
    | Some _ =>
        option_map PasswordVault.entry_data
          (DomainMatcher.spec_match (PasswordVault.entries v) (toLowerCase domain))
    | None => None
    end /\
  BackgroundService.getPasswordForDomain s domain =
    (if BackgroundService.isUserLoggedIn s then
       option_map BackgroundService.entry_data
         (DomainMatcher.spec_match (BackgroundService.passwordData s) (toLowerCase domain))
     else None).
Proof.
  intros H. apply replace_www_leading_or_absent in H.
  unfold DomainMatcher.spec_match. rewrite <- H. split.
  - apply app_getPasswordForDomain_find.
  - apply bg_getPasswordForDomain_find.
Qed.

End Matchers.

(** ** The answer to a domain query and to an autofill request *)

Section DomainQuery.
Context {UC : UnicodeCase}.

(** C4, as amended: the web application's query answers with the
    platform, the username and the password of the first matching entry;
    the extension's query and its autofill message carry the platform and
    the password of the first matching entry and no username. Without a
    session, or without a matching entry, the answer is none and no
    autofill message is sent. *)
Theorem domain_query_result
  (v : PasswordVault.Vault) (w : BackgroundService.World) (domain : jsstring) (tabId : N) :
  let matched_app :=
    List.find (DomainMatcher.satisfies (PasswordVault.normalize_domain domain))
              (PasswordVault.entries v) in
  let matched_ext :=
    List.find (DomainMatcher.satisfies (BackgroundService.normalize_domain domain))
              (BackgroundService.passwordData (BackgroundService.service w)) in
  (forall entry user,
     PasswordVault.currentUser v = Some user -> matched_app = Some entry ->
     PasswordVault.getPasswordForDomain v domain =
     Some (mkPasswordData (entry_platform entry) (Some (entry_username entry))
                          (entry_password entry))) /\
  (PasswordVault.currentUser v = None \/ matched_app = None ->
   PasswordVault.getPasswordForDomain v domain = None) /\
  (forall entry,
     BackgroundService.isUserLoggedIn (BackgroundService.service w) = true ->
     matched_ext = Some entry ->
     let data := mkPasswordData (entry_platform entry) None (entry_password entry) in
     BackgroundService.getPasswordForDomain (BackgroundService.service w) domain =
       Some data /\
     BackgroundService.requestAutofill domain tabId w =
       (Normal (Some data),
        BackgroundService.mkWorld (BackgroundService.service w)
          (BackgroundService.storage w)
          (BackgroundService.sent w ++
           [(BackgroundService.ToTab tabId, BackgroundService.AUTOFILL_PASSWORD data)]))) /\
  (BackgroundService.isUserLoggedIn (BackgroundService.service w) = false \/
   matched_ext = None ->
   BackgroundService.getPasswordForDomain (BackgroundService.service w) domain = None /\
   BackgroundService.requestAutofill domain tabId w = (Normal None, w)).
Proof.
  cbv zeta. repeat split.
  - intros entry user Hu Hm. rewrite app_getPasswordForDomain_find, Hu, Hm. reflexivity.
  - intros H. rewrite app_getPasswordForDomain_find.
    destruct H as [-> | ->]; [reflexivity|].
    now destruct (PasswordVault.currentUser v).
  - rewrite bg_getPasswordForDomain_find, H, H0. reflexivity.
  - unfold BackgroundService.requestAutofill, bind, get.
    rewrite bg_getPasswordForDomain_find, H, H0. reflexivity.
  - rewrite bg_getPasswordForDomain_find.
    destruct H as [-> | ->]; [reflexivity|].
    now destruct (BackgroundService.isUserLoggedIn _).
  - unfold BackgroundService.requestAutofill, bind, get.
    rewrite bg_getPasswordForDomain_find.
    destruct H as [-> | ->]; [reflexivity|].
    now destruct (BackgroundService.isUserLoggedIn _).
Qed.

End DomainQuery.

(** ** Logout *)

Section Logout.
Context {WC : WebCrypto} {UC : UnicodeCase} {JC : JSONCodec}.









End Logout.

(** ** Login after a failed decryption, and the Gmail scenario *)

Section Scenarios.
Context {WC : WebCrypto} {UC : UnicodeCase} {JC : JSONCodec}.

Import PasswordVault.

(** A login whose password verifies is not failed by an envelope that does
    not decrypt: the session is opened with an empty entry list, no alert is
    raised and the extension is told of the login. *)
Lemma handleLogin_with_unreadable_envelope
  (w : World) (email password envelope : jsstring) (user : UserAccount) :
  ls_users (localStorage w) !! email = Some user ->
  CryptoUtils.verifyPassword password (user_hashedPassword user) (rng w) =
    (Normal true, rng w) ->
  ls_entries (localStorage w) !! user_email user = Some envelope ->
  is_throw (fst (CryptoUtils.decrypt envelope password (rng w))) = true ->
  exists r',
    handleLogin email password w =
    (Normal tt,
     mkWorld (mkVault (Some user) (Some password) [] (editingEntryId (vault w)))
             (set_ls_currentUser (Some user) (localStorage w))
             r' (alerts w) (posted w ++ [user_logged_in (Some email)])).
Proof.
  destruct w as [[cu up es ed] [us lcu les] r al po].
  cbn [vault localStorage rng alerts posted ls_users ls_entries editingEntryId].
  intros Huser Hverify Henv Hthrow.
  unfold handleLogin, loadUserEntries. unfold_monad.
  unfold set_localStorage, set_vault, set_session, set_ls_currentUser, set_entries.
  reduce_world. rewrite (users_member_own _ _ _ Huser). reduce_world.
  rewrite Hverify. reduce_world.
  rewrite Henv.
  destruct (is_empty envelope).
  - eexists. reflexivity.
  - reduce_world.
    destruct (CryptoUtils.decrypt envelope password r) as [[plain|e] r'];
      [discriminate Hthrow|].
    eexists. reflexivity.
Qed.

(** Under any case mapping that treats ASCII letters as expected: once
    ["Gmail"] has been submitted with its fields filled in, a submission of
    ["gmail"] is refused as a duplicate and changes nothing. *)
Lemma gmail_then_gmail_refused
  (w : World) (username1 password1 username2 password2 isoNow1 isoNow2 : jsstring)
  (now1 now2 : Z) :
  ascii_case_mapping UC ->
  is_empty (trim username1) = false -> is_empty password1 = false ->
  is_empty (trim username2) = false -> is_empty password2 = false ->
  let w1 := snd (handleAddEntry (lit "Gmail") username1 password1 now1 isoNow1 w) in
  handleAddEntry (lit "gmail") username2 password2 now2 isoNow2 w1 =
  (Normal tt,
   mkWorld (vault w1) (localStorage w1) (rng w1)
     (alerts w1 ++ ["An entry for this platform already exists!"%string]) (posted w1)).
Proof.
  intros Hcase Hu1 Hp1 Hu2 Hp2 w1.
  assert (Hlower : forall s, is_ascii s = true -> toLowerCase s = map ascii_lower s)
    by (intros s Hs; now apply Hcase).
  assert (Hupper : forall s, is_ascii s = true -> toUpperCase s = map ascii_upper s)
    by (intros s Hs; now apply Hcase).
  assert (Hdup : existsb (fun entry => str_eqb (toLowerCase (entry_platform entry))
                                               (toLowerCase (trim (lit "gmail"))))
                         (entries (vault w1)) = true).
  { subst w1. unfold handleAddEntry.
    change (trim (lit "Gmail")) with (lit "Gmail").
    change (trim (lit "gmail")) with (lit "gmail").
    rewrite Hu1, Hp1. change (is_empty (lit "Gmail")) with false. cbn [orb].
    unfold_monad. cbn beta iota.
    rewrite (Hlower (lit "Gmail")) by reflexivity.
    rewrite (Hlower (lit "gmail")) by reflexivity.
    destruct (existsb _ (entries (vault w))) eqn:Hexisting; [exact Hexisting|].
    match goal with |- context [saveUserEntries ?w0] =>
      pose proof (saveUserEntries_vault w0) as Hv;
      pose proof (saveUserEntries_normal w0) as Hn;
      destruct (saveUserEntries w0) as [c0 w2]
    end.
    cbn [fst snd] in Hv, Hn. subst c0. cbn [snd vault]. rewrite Hv.
    cbn [vault set_vault set_entries entries].
    rewrite existsb_app. cbn [existsb entry_platform].
    unfold capitalizePlatform.
    rewrite (Hupper (charAt0 (lit "Gmail"))) by reflexivity.
    rewrite (Hlower (slice1 (lit "Gmail"))) by reflexivity.
    rewrite (Hlower (map ascii_upper (charAt0 (lit "Gmail")) ++
                     map ascii_lower (slice1 (lit "Gmail")))) by reflexivity.
    rewrite orb_true_r. reflexivity. }
  unfold handleAddEntry.
  change (trim (lit "gmail")) with (lit "gmail") in *.
  rewrite Hu2, Hp2. change (is_empty (lit "gmail")) with false. cbn [orb].
  unfold_monad. cbn beta iota.
  rewrite Hdup. reflexivity.
Qed.

End Scenarios.

(** ** The theorems on concrete inputs *)

Module Examples.
Import Instances.

(** A registration with a six-character password. *)
Lemma handleRegister_rejects_witness :
  exists msg : string,
    (msg = "Passwords do not match!"%string \/
     msg = "Password must be at least 8 characters long!"%string) /\
    PasswordVault.handleRegister (WC := ToyCrypto)
      (lit "b@x.com") (lit "horse1") (lit "horse1") (lit "2024-01-02T00:00:00.000Z")
      sample_world =
    (Normal tt,
     PasswordVault.mkWorld (PasswordVault.vault sample_world)
       (PasswordVault.localStorage sample_world) (PasswordVault.rng sample_world)
       (PasswordVault.alerts sample_world ++ [msg]) (PasswordVault.posted sample_world)).
Proof.
  apply (handleRegister_rejects (WC := ToyCrypto)). right. cbn. lia.
Defined.

(** Loading an envelope that was sealed under a former password. *)
Lemma loadUserEntries_recovers_witness :
  exists w',
    PasswordVault.loadUserEntries (WC := ToyCrypto) (JC := EmptyArrayJSON) stale_world =
      (Normal tt, w') /\
    PasswordVault.entries (PasswordVault.vault w') = [] /\
    PasswordVault.currentUser (PasswordVault.vault w') = Some sample_user /\
    PasswordVault.userPassword (PasswordVault.vault w') =
      PasswordVault.userPassword (PasswordVault.vault stale_world) /\
    PasswordVault.localStorage w' = PasswordVault.localStorage stale_world /\
    PasswordVault.alerts w' = PasswordVault.alerts stale_world /\
    PasswordVault.posted w' = PasswordVault.posted stale_world.
Proof.
  apply (loadUserEntries_recovers (WC := ToyCrypto) (JC := EmptyArrayJSON)
           stale_world sample_user).
  - reflexivity.
  - right. exists sample_envelope. split; vm_compute; reflexivity.
Defined.

(** ["Gmail"] has been added; a submission of ["gmail"] is a duplicate. *)
Lemma handleAddEntry_duplicate_platform_witness :
  exists msg : string,
    PasswordVault.handleAddEntry (WC := ToyCrypto) (UC := AsciiCase) (JC := EmptyArrayJSON)
      (lit "gmail") (lit "alice") (lit "pw") 1700000000500
      (lit "2024-01-01T00:00:00.500Z") gmail_added =
    (Normal tt,
     PasswordVault.mkWorld (PasswordVault.vault gmail_added)
       (PasswordVault.localStorage gmail_added) (PasswordVault.rng gmail_added)
       (PasswordVault.alerts gmail_added ++ [msg]) (PasswordVault.posted gmail_added)) /\
    msg = (if is_empty (trim (lit "gmail")) || is_empty (trim (lit "alice")) ||
              is_empty (lit "pw")
           then "Please fill in all fields!"
           else "An entry for this platform already exists!")%string.
Proof.
  apply (handleAddEntry_duplicate_platform (WC := ToyCrypto) (UC := AsciiCase)
           (JC := EmptyArrayJSON) gmail_added).
  eexists. split; [left; vm_compute; reflexivity | vm_compute; reflexivity].
Defined.

(** The scenario of the specification: ["Gmail"] is added, then ["gmail"]
    is refused, and the list still holds the one entry. *)
Example gmail_then_gmail :
  let w2 := PasswordVault.run (WC := ToyCrypto) (UC := AsciiCase) (JC := EmptyArrayJSON)
              [PasswordVault.add_event add_gmail;
               PasswordVault.AddEntry (lit "gmail") (lit "alice") (lit "pw")
                 1700000000500 (lit "2024-01-01T00:00:00.500Z")]
              sample_world in
  PasswordVault.alerts w2 =
    ["Password entry added successfully!"%string;
     "An entry for this platform already exists!"%string] /\
  map entry_platform (PasswordVault.entries (PasswordVault.vault w2)) = [lit "Gmail"].
Proof. vm_compute. split; reflexivity. Qed.

(** Two submissions one millisecond apart. *)
Lemma addEntry_ids_distinct_witness :
  List.NoDup
    (map entry_id
       (PasswordVault.entries
          (PasswordVault.vault
             (PasswordVault.run (WC := ToyCrypto) (UC := AsciiCase) (JC := EmptyArrayJSON)
                (map PasswordVault.add_event [add_gmail; add_github]) sample_world)))).
Proof.
  apply (addEntry_ids_distinct (WC := ToyCrypto) (UC := AsciiCase) (JC := EmptyArrayJSON)
           sample_world [add_gmail; add_github]).
  - apply List.NoDup_nil.
  - cbn. apply List.NoDup_cons; [| apply List.NoDup_cons; [| apply List.NoDup_nil]].
    + cbn. intros [H | []]. discriminate H.
    + intros [].
  - intros q _ [].
Defined.

(** C9 as stated fails: two submissions that read the same clock value
    are both added, and the two entries carry the same id. *)
Lemma same_clock_same_id :
  let w2 := PasswordVault.run (WC := ToyCrypto) (UC := AsciiCase) (JC := EmptyArrayJSON)
              (map PasswordVault.add_event [add_gmail; add_github_same_clock])
              sample_world in
  PasswordVault.alerts w2 =
    ["Password entry added successfully!"%string;
     "Password entry added successfully!"%string] /\
  map entry_platform (PasswordVault.entries (PasswordVault.vault w2)) =
    [lit "Gmail"; lit "Github"] /\
  map entry_id (PasswordVault.entries (PasswordVault.vault w2)) =
    [lit "1700000000000"; lit "1700000000000"] /\
  ~ List.NoDup (map entry_id (PasswordVault.entries (PasswordVault.vault w2))).
Proof.
  vm_compute. repeat split.
  intros H. inversion H as [|? ? Hin _]. apply Hin. now left.
Qed.

(** The examples of the specification: a vault that holds ["Github"]. *)
Example github_matches :
  option_map pd_platform
    (PasswordVault.getPasswordForDomain (UC := AsciiCase) github_vault (lit "github.com")) =
    Some (lit "Github") /\
  option_map pd_platform
    (PasswordVault.getPasswordForDomain (UC := AsciiCase) github_vault
       (lit "www.github.com")) = Some (lit "Github") /\
  PasswordVault.getPasswordForDomain (UC := AsciiCase) github_vault (lit "example.com") =
    None /\
  option_map pd_platform
    (BackgroundService.getPasswordForDomain (UC := AsciiCase) sample_service
       (lit "www.github.com")) = Some (lit "Github").
Proof. vm_compute. repeat split. Qed.

(** The hostname [www.github.com] against a vault that holds ["Github"]. *)
Lemma getPasswordForDomain_first_match_witness :
  PasswordVault.getPasswordForDomain (UC := AsciiCase) github_vault (lit "www.github.com") =
    option_map PasswordVault.entry_data
      (DomainMatcher.spec_match (UC := AsciiCase) [sample_entry]
         (toLowerCase (UnicodeCase := AsciiCase) (lit "www.github.com"))) /\
  BackgroundService.getPasswordForDomain (UC := AsciiCase) sample_service
    (lit "www.github.com") =
    option_map BackgroundService.entry_data
      (DomainMatcher.spec_match (UC := AsciiCase) [sample_entry]
         (toLowerCase (UnicodeCase := AsciiCase) (lit "www.github.com"))).
Proof.
  apply (getPasswordForDomain_first_match (UC := AsciiCase) github_vault sample_service
           (lit "www.github.com")).
  left. reflexivity.
Defined.

(** C3 as stated fails. On the hostname [GITHUB.COM] the specification's
    matcher, which does not lower-case the hostname, finds no entry, while
    the code lower-cases it first and answers with the entry ["Github"]. On
    the hostname [xwww.y.com] the specification's matcher, which strips a
    leading [www.] only, finds no entry, while both matchers of the code
    remove the inner [www.] and answer with the entry ["Xy"]. *)
Lemma matcher_differs_from_specification :
  DomainMatcher.spec_match (UC := AsciiCase) [sample_entry] (lit "GITHUB.COM") = None /\
  PasswordVault.getPasswordForDomain (UC := AsciiCase) github_vault (lit "GITHUB.COM") =
    Some (PasswordVault.entry_data sample_entry) /\
  BackgroundService.getPasswordForDomain (UC := AsciiCase) sample_service
    (lit "GITHUB.COM") = Some (BackgroundService.entry_data sample_entry) /\
  DomainMatcher.spec_match (UC := AsciiCase) [xy_entry] (lit "xwww.y.com") = None /\
  PasswordVault.getPasswordForDomain (UC := AsciiCase) xy_vault (lit "xwww.y.com") =
    Some (PasswordVault.entry_data xy_entry) /\
  BackgroundService.getPasswordForDomain (UC := AsciiCase)
    (BackgroundService.mkService [xy_entry] true None) (lit "xwww.y.com") =
    Some (BackgroundService.entry_data xy_entry).
Proof. vm_compute. repeat split. Qed.

(** The extension's answer and autofill message for [github.com]. *)
Lemma domain_query_result_witness :
  let data := mkPasswordData (entry_platform sample_entry) None
                             (entry_password sample_entry) in
  BackgroundService.getPasswordForDomain (UC := AsciiCase)
    (BackgroundService.service sample_background) (lit "github.com") = Some data /\
  BackgroundService.requestAutofill (UC := AsciiCase) (lit "github.com") 7
    sample_background =
  (Normal (Some data),
   BackgroundService.mkWorld (BackgroundService.service sample_background)
     (BackgroundService.storage sample_background)
     (BackgroundService.sent sample_background ++
      [(BackgroundService.ToTab 7, BackgroundService.AUTOFILL_PASSWORD data)])).
Proof.
  destruct (domain_query_result (UC := AsciiCase) github_vault sample_background
              (lit "github.com") 7) as (_ & _ & H & _).
  apply (H sample_entry); vm_compute; reflexivity.
Defined.

(** C4 as stated fails: the extension's answer for a matching record, and
    the autofill message made of it, carry no username. *)
Lemma extension_answer_has_no_username :
  exists data,
    BackgroundService.getPasswordForDomain (UC := AsciiCase) sample_service
      (lit "github.com") = Some data /\
    fst (BackgroundService.requestAutofill (UC := AsciiCase) (lit "github.com") 7
           sample_background) = Normal (Some data) /\
    pd_platform data = entry_platform sample_entry /\
    pd_password data = entry_password sample_entry /\
    pd_username data <> Some (entry_username sample_entry).
Proof.
  eexists. repeat split; try (vm_compute; reflexivity). discriminate.
Qed.


(** The length check belongs to registration only: a stored account with
    a three-character password logs in. *)
Example login_has_no_length_check :
  let w' := snd (PasswordVault.handleLogin (WC := ToyCrypto) (JC := EmptyArrayJSON)
                   (lit "c@x.com") (lit "abc") short_world) in
  PasswordVault.currentUser (PasswordVault.vault w') = Some short_user /\
  PasswordVault.alerts w' = [] /\
  PasswordVault.posted w' = [user_logged_in (Some (lit "c@x.com"))].
Proof. vm_compute. repeat split. Qed.

(** After the logout the cache of the extension is refilled by a late
    update and the list of the web application by a submission of the form;
    both are non-empty while the queries above answer none. *)
Example stale_entries_after_logout :
  BackgroundService.passwordData
    (BackgroundService.service
       (BackgroundService.run (UC := AsciiCase)
          [BackgroundService.VaultUpdateMessage (entries_updated (Some [sample_entry]))]
          (snd (BackgroundService.handleVaultUpdate user_logged_out sample_background)))) =
    [sample_entry] /\
  map entry_platform
    (PasswordVault.entries
       (PasswordVault.vault
          (PasswordVault.run (WC := ToyCrypto) (UC := AsciiCase) (JC := EmptyArrayJSON)
             [PasswordVault.add_event add_github]
             (snd (PasswordVault.handleLogout gmail_added))))) = [lit "Github"].
Proof. vm_compute. split; reflexivity. Qed.

End Examples.

(** * Further properties of the code *)

(** ** crypto.js: the layout of envelopes and stored hashes *)

Section CryptoEnvelopes.
Context {WC : WebCrypto}.

(** What a successful [encrypt] has read from the entropy tape and computed. *)
Lemma encrypt_inversion (plaintext password envelope : jsstring) (r r' : Rng) :
  CryptoUtils.encrypt plaintext password r = (Normal envelope, r') ->
  exists key encrypted,
    pbkdf2_deriveKey (TextEncoder_encode password) (map r (seq 0 16))
      CryptoUtils.iterations CryptoUtils.keyLength = Normal key /\
    aes_gcm_encrypt key (map r (seq 16 12)) (TextEncoder_encode plaintext) =
      Normal encrypted /\
    envelope = b64_encode (map Byte.to_N (map r (seq 0 16) ++ map r (seq 16 12) ++ encrypted)) /\
    r' = fun i => r (16 + (12 + i))%nat.
Proof.
  unfold CryptoUtils.encrypt, try_catch, bind, CryptoUtils.deriveKey, lift, throw,
    CryptoUtils.generateRandomBytes, CryptoUtils.saltLength, CryptoUtils.ivLength.
  change (map (fun i => r (16 + i)%nat) (seq 0 12)) with (map r (seq 16 12)).
  destruct (pbkdf2_deriveKey _ (map r (seq 0 16)) _ _) as [key|] eqn:Ekey; [|discriminate].
  destruct (aes_gcm_encrypt key (map r (seq 16 12)) _) as [encrypted|] eqn:Eenc; [|discriminate].
  rewrite btoa_bytes. intros [= <- <-].
  now exists key, encrypted.
Qed.

(** What a successful [hashPassword] with a generated salt has read and computed. *)
Lemma hashPassword_inversion (password stored : jsstring) (r r' : Rng) :
  CryptoUtils.hashPassword password None r = (Normal stored, r') ->
  exists digest,
    pbkdf2_deriveBits (TextEncoder_encode password) (map r (seq 0 16))
      CryptoUtils.iterations 256 = Normal digest /\
    stored = b64_encode (map Byte.to_N (map r (seq 0 16) ++ digest)) /\
    r' = fun i => r (16 + i)%nat.
Proof.
  unfold CryptoUtils.hashPassword, bind, lift, CryptoUtils.generateRandomBytes,
    CryptoUtils.saltLength.
  destruct (pbkdf2_deriveBits _ (map r (seq 0 16)) _ _) as [digest|] eqn:Ed; [|discriminate].
  rewrite btoa_bytes. intros [= <- <-].
  now exists digest.
Qed.

(** X1: an envelope that [encrypt] returns is the base64 text of the salt,
    the IV and the AES-GCM output, in this order: [atob] gives these bytes
    back. The salt is the next 16 bytes of the entropy source and the IV the
    12 bytes after them; the key is derived from the password under that
    salt; [encrypt] reads 28 bytes of entropy and no more. *)
Theorem encrypt_envelope_layout (plaintext password envelope : jsstring) (r r' : Rng) :
  CryptoUtils.encrypt plaintext password r = (Normal envelope, r') ->
  let salt := map r (seq 0 16) in
  let iv := map r (seq 16 12) in
  exists key encrypted,
    pbkdf2_deriveKey (TextEncoder_encode password) salt
      CryptoUtils.iterations CryptoUtils.keyLength = Normal key /\
    aes_gcm_encrypt key iv (TextEncoder_encode plaintext) = Normal encrypted /\
    atob envelope = Normal (String_fromCharCode (salt ++ iv ++ encrypted)) /\
    (forall i, r' i = r (28 + i)%nat).
Proof.
  intros H salt iv.
  apply encrypt_inversion in H as (key & encrypted & Hkey & Henc & -> & ->).
  exists key, encrypted. repeat split; try assumption.
  apply atob_b64_encode, Forall_to_N_lt_256.
Qed.

(** X2: two envelopes made from entropy that differs somewhere in the 28
    bytes read are different texts, whatever the plaintexts and the
    passwords are: sealing the same list twice does not give the same
    envelope unless the entropy source repeats itself. *)
Theorem encrypt_fresh_randomness
  (plaintext1 password1 plaintext2 password2 envelope1 envelope2 : jsstring)
  (r1 r1' r2 r2' : Rng) :
  CryptoUtils.encrypt plaintext1 password1 r1 = (Normal envelope1, r1') ->
  CryptoUtils.encrypt plaintext2 password2 r2 = (Normal envelope2, r2') ->
  map r1 (seq 0 28) <> map r2 (seq 0 28) ->
  envelope1 <> envelope2.
Proof.
  intros H1 H2 Hne E. apply Hne.
  apply encrypt_inversion in H1 as (key1 & enc1 & _ & _ & -> & _).
  apply encrypt_inversion in H2 as (key2 & enc2 & _ & _ & -> & _).
  assert (E' : btoa (String_fromCharCode (map r1 (seq 0 16) ++ map r1 (seq 16 12) ++ enc1)) =
               btoa (String_fromCharCode (map r2 (seq 0 16) ++ map r2 (seq 16 12) ++ enc2)))
    by (rewrite !btoa_bytes; now f_equal).
  apply btoa_bytes_inj in E'.
  rewrite !app_assoc, <- !map_app in E'.
  change (seq 0 16 ++ seq 16 12) with (seq 0 28) in E'.
  apply (f_equal (firstn 28)) in E'.
  rewrite !take_app_length' in E' by (now rewrite length_map, length_seq).
  exact E'.
Qed.

(** X3: whatever goes wrong inside [encrypt] or [decrypt], the exception
    that leaves the function is the one generic error of that function, so
    a caller cannot tell a text that is no base64 from a failed key
    derivation or a rejected authentication tag. [decrypt] reads no entropy,
    and it throws on every text that [atob] rejects. *)
Theorem crypto_errors_are_generic (text password : jsstring) (r : Rng) :
  (forall e, fst (CryptoUtils.encrypt text password r) = Throw e ->
             e = JsError "Failed to encrypt data") /\
  (forall e, fst (CryptoUtils.decrypt text password r) = Throw e ->
             e = JsError "Failed to decrypt data - invalid password or corrupted data") /\
  snd (CryptoUtils.decrypt text password r) = r /\
  (is_throw (atob text) = true ->
   is_throw (fst (CryptoUtils.decrypt text password r)) = true).
Proof.
  repeat split.
  - unfold CryptoUtils.encrypt, try_catch, throw. intros e.
    destruct (bind _ _ r) as [[env|x] r1]; cbn; congruence.
  - unfold CryptoUtils.decrypt, try_catch, throw. intros e.
    destruct (bind _ _ r) as [[env|x] r1]; cbn; congruence.
  - unfold CryptoUtils.decrypt, try_catch, bind, CryptoUtils.deriveKey, lift, throw, ret.
    destruct (atob text); [|reflexivity].
    destruct (pbkdf2_deriveKey _ _ _ _); [|reflexivity].
    destruct (aes_gcm_decrypt _ _ _); reflexivity.
  - unfold CryptoUtils.decrypt, try_catch, bind, lift, throw.
    destruct (atob text); [discriminate | reflexivity].
Qed.

(** X4: [verifyPassword] compares the recomputed hash with the stored text
    itself, not with its bytes: a text that differs from the stored hash,
    even one that [atob] decodes to the same bytes (white space added,
    padding dropped), is refused for the right password. *)
Theorem verifyPassword_rejects_altered_hash
  (password stored altered : jsstring) (r r' : Rng) :
  CryptoUtils.hashPassword password None r = (Normal stored, r') ->
  atob altered = atob stored ->
  altered <> stored ->
  forall r2, CryptoUtils.verifyPassword password altered r2 = (Normal false, r2).
Proof.
  intros Hhash Hatob Hne r2.
  apply hashPassword_inversion in Hhash as (digest & Hd & -> & _).
  rewrite atob_b64_encode in Hatob by apply Forall_to_N_lt_256.
  unfold CryptoUtils.verifyPassword, CryptoUtils.verifyPassword_try,
    CryptoUtils.hashPassword, try_catch, bind, lift, ret.
  rewrite Hatob.
  change (map Byte.to_N (map r (seq 0 16) ++ digest))
    with (String_fromCharCode (map r (seq 0 16) ++ digest)).
  rewrite Uint8Array_from_fromCharCode.
  unfold CryptoUtils.saltLength.
  rewrite take_app_length' by (now rewrite length_map, length_seq).
  rewrite Hd, btoa_bytes. unfold str_eqb.
  rewrite bool_decide_eq_false_2; [reflexivity|]. congruence.
Qed.

(** X5: the stored hash is salted: two hashes made with salts that differ
    are different texts, also when the two passwords are the same, so equal
    passwords of two accounts do not show in the [users] mapping. *)
Theorem hashPassword_salted
  (password1 password2 stored1 stored2 : jsstring) (r1 r1' r2 r2' : Rng) :
  CryptoUtils.hashPassword password1 None r1 = (Normal stored1, r1') ->
  CryptoUtils.hashPassword password2 None r2 = (Normal stored2, r2') ->
  map r1 (seq 0 16) <> map r2 (seq 0 16) ->
  stored1 <> stored2.
Proof.
  intros H1 H2 Hne E. apply Hne.
  apply hashPassword_inversion in H1 as (d1 & _ & -> & _).
  apply hashPassword_inversion in H2 as (d2 & _ & -> & _).
  assert (E' : btoa (String_fromCharCode (map r1 (seq 0 16) ++ d1)) =
               btoa (String_fromCharCode (map r2 (seq 0 16) ++ d2)))
    by (rewrite !btoa_bytes; now f_equal).
  apply btoa_bytes_inj in E'.
  apply (f_equal (firstn 16)) in E'.
  rewrite !take_app_length' in E' by (now rewrite length_map, length_seq).
  exact E'.
Qed.

End CryptoEnvelopes.

(** ** project/app.js: registration and login *)

Section Sessions.
Context {WC : WebCrypto} {UC : UnicodeCase} {JC : JSONCodec}.

Import PasswordVault.

(** [verifyPassword] answers with a boolean and reads no entropy. *)
Lemma verifyPassword_total (password stored : jsstring) (r : Rng) :
  exists b : bool, CryptoUtils.verifyPassword password stored r = (Normal b, r).
Proof.
  pose proof (verifyPassword_try_rng password stored r) as Hr.
  unfold CryptoUtils.verifyPassword, try_catch, ret.
  destruct (CryptoUtils.verifyPassword_try password stored r) as [[b|e] r1];
    cbn [snd] in Hr; subst r1; eauto.
Qed.

(** [loadUserEntries] sets the entry list and may read entropy; it throws
    nothing and touches nothing else. *)
Lemma loadUserEntries_frame (w : World) :
  exists es r',
    loadUserEntries w =
    (Normal tt, mkWorld (set_entries es (vault w)) (localStorage w) r' (alerts w) (posted w)).
Proof.
  unfold loadUserEntries. unfold_monad.
  destruct (currentUser (vault w)) as [u|]; [|now eexists _, _].
  destruct (ls_entries (localStorage w) !! user_email u) as [envelope|];
    [|now eexists _, _].
  destruct (is_empty envelope); [now eexists _, _|].
  destruct (CryptoUtils.decrypt envelope _ (rng w)) as [[plain|e] r']; [|now eexists _, _].
  destruct (JSON_parse plain); now eexists _, _.
Qed.

(** X6: registration followed by a login with the same email and password
    opens the session, for an email that reads no member of the [users]
    mapping (it has no account and is not a name that objects inherit, such
    as [constructor]): the account stored under the email becomes the
    current user, the password is kept for sealing, the marker is written
    and the extension is told of the login; the only alert is that of the
    registration. No assumption on PBKDF2 is needed beyond that it returns
    a digest. *)
Theorem register_then_login (w : World) (email password isoNow : jsstring) :
  (8 <= List.length password)%nat ->
  users_member (ls_users (localStorage w)) email = no_member ->
  is_throw (fst (CryptoUtils.hashPassword password None (rng w))) = false ->
  let w1 := snd (handleRegister email password password isoNow w) in
  exists user w2,
    ls_users (localStorage w1) !! email = Some user /\
    user_email user = email /\
    handleLogin email password w1 = (Normal tt, w2) /\
    currentUser (vault w2) = Some user /\
    userPassword (vault w2) = Some password /\
    ls_currentUser (localStorage w2) = Some user /\
    alerts w2 = alerts w ++ ["Registration successful! Please login."%string] /\
    posted w2 = posted w ++ [user_logged_in (Some email)].
Proof.
  intros Hlen Hnew Hhash.
  destruct w as [v l r al po]. cbn [localStorage rng] in *.
  destruct (CryptoUtils.hashPassword password None r) as [[hashed|e] r1] eqn:Eh;
    [|discriminate Hhash].
  pose proof Eh as Hs.
  apply hashPassword_success in Hs as (salt & digest & Hsalt & Hd & ->).
  unfold handleRegister, str_eqb.
  rewrite bool_decide_eq_true_2 by reflexivity. cbn [negb].
  replace (List.length password <? 8)%nat with false by lia.
  unfold_monad. reduce_world. rewrite Hnew. reduce_world. rewrite Eh. reduce_world.
  cbv zeta.
  unfold handleLogin. unfold_monad.
  unfold set_localStorage, set_ls_users. reduce_world.
  rewrite (users_member_own _ _ _ (lookup_insert_eq _ _ _)). reduce_world.
  cbn [user_hashedPassword].
  rewrite verifyPassword_stored by assumption. rewrite Hd.
  rewrite bool_decide_eq_true_2 by reflexivity. reduce_world.
  match goal with |- context [loadUserEntries ?w1] =>
    destruct (loadUserEntries_frame w1) as (es & r' & Hload); rewrite Hload
  end.
  eexists _, _. split; [apply lookup_insert_eq|]. repeat split.
Qed.

(** An email that is a name every object inherits reads a member of the
    [users] mapping although no account is stored under it: the
    registration is refused as if the user existed, whatever the store
    holds. *)
Lemma handleRegister_inherited_name
  (w : World) (email password isoNow : jsstring) :
  (8 <= List.length password)%nat ->
  ls_users (localStorage w) !! email = None ->
  is_inherited email = true ->
  handleRegister email password password isoNow w =
  (Normal tt,
   mkWorld (vault w) (localStorage w) (rng w)
     (alerts w ++ ["User with this email already exists!"%string]) (posted w)).
Proof.
  intros Hlen Hnew Hin. unfold handleRegister, str_eqb.
  rewrite bool_decide_eq_true_2 by reflexivity. cbn [negb].
  replace (List.length password <? 8)%nat with false by lia.
  unfold_monad. unfold users_member. now rewrite Hnew, Hin.
Qed.

(** X7: a registration under an email that has an account never
    overwrites it: whatever password and confirmation are submitted, the
    handler raises one alert and leaves the storage, the object and the
    entropy source as they are; when the submission passes the two checks
    on the password the alert says that the user exists. *)
Theorem handleRegister_existing_email
  (w : World) (email password confirmPassword isoNow : jsstring) (user : UserAccount) :
  ls_users (localStorage w) !! email = Some user ->
  exists msg : string,
    handleRegister email password confirmPassword isoNow w =
    (Normal tt,
     mkWorld (vault w) (localStorage w) (rng w) (alerts w ++ [msg]) (posted w)) /\
    (password = confirmPassword -> (8 <= List.length password)%nat ->
     msg = "User with this email already exists!"%string).
Proof.
  intros Huser. unfold handleRegister, str_eqb.
  destruct (decide (password = confirmPassword)) as [Heq|Hne].
  - rewrite bool_decide_eq_true_2 by assumption. cbn [negb].
    destruct (List.length password <? 8)%nat eqn:Hlen.
    + eexists. split; [reflexivity|]. intros _ H. lia.
    + unfold_monad. rewrite (users_member_own _ _ _ Huser).
      eexists. split; reflexivity.
  - rewrite bool_decide_eq_false_2 by assumption. cbn [negb].
    eexists. split; [reflexivity|]. intros H. contradiction.
Qed.

(** X8: [handleLogin] throws nothing, whatever is submitted and stored,
    and a login that fails has one effect, an alert: no session is opened,
    nothing is written to storage, nothing is posted to the extension and
    no entropy is read. The alert is that the user was not found when the
    email reads no member of the [users] mapping; it is that the password
    is invalid when [verifyPassword] refuses the password for the account
    stored under the email, and also when the email has no account and is a
    name that objects inherit (such as [constructor]), whatever the
    password. *)
Theorem handleLogin_failure (w : World) (email password : jsstring) :
  let failed msg :=
    mkWorld (vault w) (localStorage w) (rng w) (alerts w ++ [msg]) (posted w) in
  fst (handleLogin email password w) = Normal tt /\
  (users_member (ls_users (localStorage w)) email = no_member ->
   snd (handleLogin email password w) = failed "User not found!"%string) /\
  (forall user,
     ls_users (localStorage w) !! email = Some user ->
     fst (CryptoUtils.verifyPassword password (user_hashedPassword user) (rng w)) =
       Normal false ->
     snd (handleLogin email password w) = failed "Invalid password!"%string) /\
  (ls_users (localStorage w) !! email = None -> is_inherited email = true ->
   snd (handleLogin email password w) = failed "Invalid password!"%string).
Proof.
  destruct w as [v l r al po]. cbv zeta.
  unfold handleLogin. unfold_monad. reduce_world.
  unfold users_member.
  destruct (ls_users l !! email) as [user|] eqn:Huser.
  - destruct (verifyPassword_total password (user_hashedPassword user) r) as (b & Hb).
    reduce_world. rewrite Hb. reduce_world.
    destruct b; cbn [negb].
    + match goal with |- context [loadUserEntries ?w1] =>
        destruct (loadUserEntries_frame w1) as (es & r' & Hload); rewrite Hload
      end.
      split; [reflexivity|]. split; [intros H; discriminate H|].
      split; [|intros H; discriminate H].
      intros user' [= <-] H. rewrite Hb in H. discriminate H.
    + split; [reflexivity|]. split; [intros H; discriminate H|].
      split; [|intros H; discriminate H].
      intros user' _ _. reflexivity.
  - destruct (is_inherited email).
    + reduce_world. rewrite verifyPassword_undefined. reduce_world.
      split; [reflexivity|]. split; [intros H; discriminate H|].
      split; [intros user' H; discriminate H | reflexivity].
    + split; [reflexivity|]. split; [reflexivity|].
      split; [intros user' H; discriminate H | intros _ H; discriminate H].
Qed.


End Sessions.

(** ** Blank fields *)

Lemma trimStart_nil (s : jsstring) :
  trimStart s = [] <-> forallb is_whitespace s = true.
Proof.
  induction s as [|c s IH]; cbn [trimStart forallb]; [tauto|].
  destruct (is_whitespace c); cbn [andb]; [exact IH|].
  split; discriminate.
Qed.

Lemma trimStart_head (s : jsstring) (c : N) (rest : jsstring) :
  trimStart s = c :: rest -> is_whitespace c = false.
Proof.
  induction s as [|a s IH]; cbn [trimStart]; [discriminate|].
  destruct (is_whitespace a) eqn:Ea; [exact IH|]. now intros [= <- _].
Qed.

(** [trim] leaves nothing exactly when the string is white space throughout. *)
Lemma is_empty_trim (s : jsstring) : is_empty (trim s) = forallb is_whitespace s.
Proof.
  unfold trim.
  destruct (forallb is_whitespace s) eqn:E.
  - apply trimStart_nil in E. rewrite E. reflexivity.
  - destruct (trimStart s) as [|c rest] eqn:Et.
    + apply trimStart_nil in Et. congruence.
    + apply trimStart_head in Et as Hc.
      destruct (trimStart (rev (c :: rest))) as [|d rest'] eqn:Er.
      * apply trimStart_nil in Er. rewrite forallb_forall in Er.
        rewrite (Er c) in Hc; [discriminate|]. apply in_rev. rewrite rev_involutive. now left.
      * destruct (rev (d :: rest')) eqn:E2; [|reflexivity].
        apply (f_equal (@rev N)) in E2. rewrite rev_involutive in E2. discriminate E2.
Qed.

(** ** Case mapping of ASCII text *)

Lemma is_ascii_map_lower (s : jsstring) : is_ascii s = true -> is_ascii (map ascii_lower s) = true.
Proof.
  unfold is_ascii. rewrite !forallb_forall. intros H c Hc.
  apply in_map_iff in Hc as (a & <- & Ha). specialize (H a Ha).
  unfold ascii_lower. case_if; lia.
Qed.

Lemma is_ascii_map_upper (s : jsstring) : is_ascii s = true -> is_ascii (map ascii_upper s) = true.
Proof.
  unfold is_ascii. rewrite !forallb_forall. intros H c Hc.
  apply in_map_iff in Hc as (a & <- & Ha). specialize (H a Ha).
  unfold ascii_upper. case_if; lia.
Qed.

Lemma ascii_lower_lower (c : N) : ascii_lower (ascii_lower c) = ascii_lower c.
Proof. unfold ascii_lower. repeat case_if; lia. Qed.

Lemma ascii_lower_upper (c : N) : ascii_lower (ascii_upper c) = ascii_lower c.
Proof. unfold ascii_lower, ascii_upper. repeat case_if; lia. Qed.

Lemma ascii_upper_upper (c : N) : ascii_upper (ascii_upper c) = ascii_upper c.
Proof. unfold ascii_upper. repeat case_if; lia. Qed.

Section Capitalize.
Context {UC : UnicodeCase}.

Import PasswordVault.

(** [capitalizePlatform] on ASCII text. *)
Lemma capitalizePlatform_ascii (platform : jsstring) :
  ascii_case_mapping UC -> is_ascii platform = true ->
  capitalizePlatform platform =
  match platform with
  | [] => []
  | c :: rest => ascii_upper c :: map ascii_lower rest
  end.
Proof.
  intros Hcase Hp. unfold capitalizePlatform, charAt0, slice1.
  destruct platform as [|c rest].
  - destruct (Hcase [] eq_refl) as [Hl Hu].
    change (firstn 1 (@nil N)) with (@nil N). change (skipn 1 (@nil N)) with (@nil N).
    now rewrite Hl, Hu.
  - change (firstn 1 (c :: rest)) with [c]. change (skipn 1 (c :: rest)) with rest.
    cbn [is_ascii forallb] in Hp. apply andb_prop in Hp as [Hc Hrest].
    destruct (Hcase [c]) as [_ Hu]; [cbn; now rewrite Hc|].
    destruct (Hcase rest Hrest) as [Hl _].
    now rewrite Hu, Hl.
Qed.

Lemma is_ascii_capitalizePlatform (platform : jsstring) :
  ascii_case_mapping UC -> is_ascii platform = true ->
  is_ascii (capitalizePlatform platform) = true.
Proof.
  intros Hcase Hp. rewrite capitalizePlatform_ascii by assumption.
  destruct platform as [|c rest]; [reflexivity|].
  change (is_ascii (map ascii_upper [c] ++ map ascii_lower rest) = true).
  cbn [is_ascii forallb] in Hp. apply andb_prop in Hp as [Hc Hrest].
  unfold is_ascii. rewrite forallb_app. apply andb_true_intro. split.
  - apply is_ascii_map_upper. cbn. now rewrite Hc.
  - now apply is_ascii_map_lower.
Qed.

(** The duplicate check sees a capitalized name as it sees the name. *)
Lemma toLowerCase_capitalizePlatform (platform : jsstring) :
  ascii_case_mapping UC -> is_ascii platform = true ->
  toLowerCase (capitalizePlatform platform) = toLowerCase platform.
Proof.
  intros Hcase Hp.
  destruct (Hcase _ (is_ascii_capitalizePlatform platform Hcase Hp)) as [-> _].
  destruct (Hcase _ Hp) as [-> _].
  rewrite capitalizePlatform_ascii by assumption.
  destruct platform as [|c rest]; [reflexivity|].
  cbn [map]. rewrite ascii_lower_upper. f_equal.
  rewrite map_map. apply map_ext. intros a. apply ascii_lower_lower.
Qed.

(** X10: on ASCII names, under a case mapping that is the usual one on
    ASCII, [capitalizePlatform] is idempotent, so an edit that submits the
    platform as it is displayed stores it unchanged, and it does not change
    what the duplicate check compares. *)
Theorem capitalizePlatform_idempotent (platform : jsstring) :
  ascii_case_mapping UC -> is_ascii platform = true ->
  capitalizePlatform (capitalizePlatform platform) = capitalizePlatform platform /\
  toLowerCase (capitalizePlatform platform) = toLowerCase platform.
Proof.
  intros Hcase Hp. split; [|now apply toLowerCase_capitalizePlatform].
  rewrite (capitalizePlatform_ascii (capitalizePlatform platform))
    by (auto using is_ascii_capitalizePlatform).
  rewrite capitalizePlatform_ascii by assumption.
  destruct platform as [|c rest]; [reflexivity|].
  rewrite ascii_upper_upper. f_equal.
  rewrite map_map. apply map_ext. intros a. apply ascii_lower_lower.
Qed.

End Capitalize.

(** ** project/app.js: the entry list *)

Section EntryList.
Context {WC : WebCrypto} {UC : UnicodeCase} {JC : JSONCodec}.

Import PasswordVault.

(** A save that cannot be made: no session, or [encrypt] throws. The alert
    is the one effect. *)
Lemma saveUserEntries_failed (w : World) :
  currentUser (vault w) = None \/
  is_throw (fst (CryptoUtils.encrypt (JSON_stringify (entries (vault w)))
                   (password_string (userPassword (vault w))) (rng w))) = true ->
  exists r',
    saveUserEntries w =
    (Normal tt,
     mkWorld (vault w) (localStorage w) r'
       (alerts w ++ ["Failed to save entries. Please try again."%string]) (posted w)).
Proof.
  unfold saveUserEntries. unfold_monad.
  destruct (currentUser (vault w)) as [u|]; [|intros _; now eexists].
  intros [H|H]; [discriminate H|].
  destruct (CryptoUtils.encrypt _ _ (rng w)) as [[envelope|e] r']; [discriminate H|].
  now eexists.
Qed.

(** X11: a submission of the add form or of the edit form in which the
    platform name or the username is white space throughout, or the
    password is empty, is refused with the alert to fill in all fields and
    changes nothing. The password is not trimmed: one that consists of
    spaces is not refused by this check. *)
Theorem blank_fields_rejected
  (w : World) (rawName rawUsername rawPassword isoNow : jsstring) (now : Z) :
  forallb is_whitespace rawName || forallb is_whitespace rawUsername ||
    is_empty rawPassword = true ->
  let w' := mkWorld (vault w) (localStorage w) (rng w)
              (alerts w ++ ["Please fill in all fields!"%string]) (posted w) in
  handleAddEntry rawName rawUsername rawPassword now isoNow w = (Normal tt, w') /\
  handleEditEntry rawName rawUsername rawPassword isoNow w = (Normal tt, w').
Proof.
  intros H. unfold handleAddEntry, handleEditEntry.
  rewrite !is_empty_trim, H. split; reflexivity.
Qed.

(** X12: when the save fails (no session, or [encrypt] throws), a
    submission that passed the checks has still been appended to the list
    in memory and is still reported as added: the alerts are the failure of
    the save followed by the success of the add, while nothing has been
    stored and nothing posted to the extension. *)
Theorem handleAddEntry_failed_save
  (w : World) (rawName rawUsername rawPassword isoNow : jsstring) (now : Z) :
  let added := entries (vault w) ++
               [added_entry rawName rawUsername rawPassword now isoNow] in
  forallb is_whitespace rawName || forallb is_whitespace rawUsername ||
    is_empty rawPassword = false ->
  (forall entry, In entry (entries (vault w)) ->
     toLowerCase (entry_platform entry) <> toLowerCase (trim rawName)) ->
  currentUser (vault w) = None \/
  is_throw (fst (CryptoUtils.encrypt (JSON_stringify added)
                   (password_string (userPassword (vault w))) (rng w))) = true ->
  exists r',
    handleAddEntry rawName rawUsername rawPassword now isoNow w =
    (Normal tt,
     mkWorld (set_entries added (vault w)) (localStorage w) r'
       (alerts w ++ ["Failed to save entries. Please try again."%string;
                     "Password entry added successfully!"%string])
       (posted w)).
Proof.
  intros added Hfields Hnew Hsave.
  assert (Hdup : existsb (fun entry => str_eqb (toLowerCase (entry_platform entry))
                                               (toLowerCase (trim rawName)))
                         (entries (vault w)) = false).
  { destruct (existsb _ _) eqn:E; [|reflexivity].
    apply duplicate_check in E as (entry & Hin & Heq). now destruct (Hnew entry Hin). }
  unfold handleAddEntry. rewrite !is_empty_trim, Hfields.
  unfold bind at 1, get. rewrite Hdup.
  unfold bind at 1, modify at 1. unfold bind at 1.
  match goal with |- context [saveUserEntries ?w1] =>
    destruct (saveUserEntries_failed w1) as (r' & ->)
  end.
  - destruct w as [[cu up es ed] l r al po]. exact Hsave.
  - exists r'. destruct w as [[cu up es ed] l r al po].
    unfold alert, modify. cbn. now rewrite <- app_assoc.
Qed.

(** The vault object after [handleAddEntry]: as before, or with the new
    entry appended after the duplicate check has passed. *)
Lemma handleAddEntry_checked
  (w : World) (rawName rawUsername rawPassword : jsstring) (now : Z) (isoNow : jsstring) :
  let v' := vault (snd (handleAddEntry rawName rawUsername rawPassword now isoNow w)) in
  v' = vault w \/
  (existsb (fun entry => str_eqb (toLowerCase (entry_platform entry))
                                 (toLowerCase (trim rawName)))
           (entries (vault w)) = false /\
   v' = set_entries (entries (vault w) ++
                     [added_entry rawName rawUsername rawPassword now isoNow]) (vault w)).
Proof.
  unfold handleAddEntry.
  destruct (is_empty (trim rawName) || is_empty (trim rawUsername) ||
            is_empty rawPassword); [left; reflexivity|].
  unfold_monad. cbn beta iota.
  destruct (existsb _ (entries (vault w))) eqn:Hdup; [left; reflexivity|].
  right. split; [reflexivity|].
  match goal with |- context [saveUserEntries ?w1] =>
    pose proof (saveUserEntries_vault w1) as Hv;
    pose proof (saveUserEntries_normal w1) as Hn;
    destruct (saveUserEntries w1) as [c w2]
  end.
  cbn [fst snd] in Hv, Hn. subst c. cbn. rewrite Hv. reflexivity.
Qed.

Lemma update_first_map {A} (g : Entry -> A) (i : jsstring) (f : Entry -> Entry)
  (es : list Entry) :
  (forall e, g (f e) = g e) -> map g (update_first i f es) = map g es.
Proof.
  intros Hf. induction es as [|e es IH]; cbn [update_first]; [reflexivity|].
  destruct (str_eqb (entry_id e) i); cbn [map]; [now rewrite Hf | now rewrite IH].
Qed.

Lemma update_first_other (i : jsstring) (f : Entry -> Entry) (es : list Entry)
  (k : nat) (e : Entry) :
  es !! k = Some e -> entry_id e <> i -> update_first i f es !! k = Some e.
Proof.
  revert k. induction es as [|a es IH]; intros k Hk Hne; [discriminate Hk|].
  cbn [update_first]. unfold str_eqb.
  destruct k as [|k]; cbn in Hk.
  - injection Hk as ->. now rewrite bool_decide_eq_false_2.
  - destruct (bool_decide (entry_id a = i)); cbn; [exact Hk | now apply IH].
Qed.

Lemma In_update_first (i : jsstring) (f : Entry -> Entry) (es : list Entry) (x : Entry) :
  In x (update_first i f es) -> In x es \/ exists e, In e es /\ entry_id e = i /\ x = f e.
Proof.
  induction es as [|a es IH]; cbn [update_first]; [intros []|].
  unfold str_eqb. destruct (bool_decide (entry_id a = i)) eqn:E.
  - apply bool_decide_eq_true_1 in E.
    intros [<- | H]; [right; exists a; cbn; auto | left; now right].
  - intros [<- | H]; [left; now left|].
    destruct (IH H) as [H' | (e & He & Hi & ->)]; [left; now right|].
    right. exists e. cbn. auto.
Qed.

(** Overwriting the first entry that carries an id keeps the lower-cased
    platforms distinct when the ids are distinct and no other entry has
    the new platform. *)
Lemma update_first_distinct (i newPlatform : jsstring) (f : Entry -> Entry)
  (es : list Entry) :
  List.NoDup (map entry_id es) ->
  platforms_distinct es ->
  (forall e, In e es -> entry_id e <> i -> toLowerCase (entry_platform e) <> newPlatform) ->
  (forall e, toLowerCase (entry_platform (f e)) = newPlatform) ->
  platforms_distinct (update_first i f es).
Proof.
  unfold platforms_distinct. intros Hids Hp Hother Hf.
  induction es as [|a es IH]; cbn [update_first map]; [constructor|].
  cbn [map] in Hids, Hp.
  apply List.NoDup_cons_iff in Hids as [Ha Hids].
  apply List.NoDup_cons_iff in Hp as [Hpa Hp].
  unfold str_eqb. destruct (bool_decide (entry_id a = i)) eqn:E.
  - apply bool_decide_eq_true_1 in E. cbn [map].
    apply List.NoDup_cons; [|exact Hp].
    rewrite Hf. intros Hin. apply in_map_iff in Hin as (e & He & Hin).
    apply (Hother e); [now right | | exact He].
    intros Hi. apply Ha. rewrite E, <- Hi. now apply in_map.
  - apply bool_decide_eq_false_1 in E. cbn [map].
    apply List.NoDup_cons.
    + intros Hin. apply in_map_iff in Hin as (x & Hx & Hin).
      apply In_update_first in Hin as [Hin | (e & He & Hi & ->)].
      * apply Hpa. rewrite <- Hx.
        exact (in_map (fun entry => toLowerCase (entry_platform entry)) _ _ Hin).
      * rewrite Hf in Hx. apply (Hother a); [now left | exact E | now symmetry].
    + apply IH; [assumption | assumption |].
      intros e He. apply Hother. now right.
Qed.

(** The vault object after [handleEditEntry]: as before, or with the first
    entry that carries the id under edit overwritten and the edit closed,
    after the duplicate check has passed. *)
Lemma handleEditEntry_checked (w : World) (rawName rawUsername rawPassword isoNow : jsstring) :
  let v' := vault (snd (handleEditEntry rawName rawUsername rawPassword isoNow w)) in
  v' = vault w \/
  exists editing,
    editingEntryId (vault w) = Some editing /\
    (forall e, In e (entries (vault w)) -> entry_id e <> editing ->
               toLowerCase (entry_platform e) <> toLowerCase (trim rawName)) /\
    v' = mkVault (currentUser (vault w)) (userPassword (vault w))
           (update_first editing (edited_entry rawName rawUsername rawPassword isoNow)
              (entries (vault w)))
           None.
Proof.
  unfold handleEditEntry.
  destruct (is_empty (trim rawName) || is_empty (trim rawUsername) ||
            is_empty rawPassword); [left; reflexivity|].
  unfold_monad. cbn beta iota.
  destruct (editingEntryId (vault w)) as [editing|] eqn:Hed; [|left; reflexivity].
  destruct (negb _); [left; reflexivity|].
  destruct (existsb _ (entries (vault w))) eqn:Hdup; [left; reflexivity|].
  right. exists editing. split; [reflexivity|]. split.
  - intros e He Hid Hp.
    assert (existsb (fun entry =>
                       str_eqb (toLowerCase (entry_platform entry))
                               (toLowerCase (trim rawName)) &&
                       negb (str_eqb (entry_id entry) editing))
                    (entries (vault w)) = true); [|congruence].
    apply existsb_exists. exists e. split; [assumption|].
    unfold str_eqb. rewrite bool_decide_eq_true_2 by assumption.
    now rewrite bool_decide_eq_false_2.
  - match goal with |- context [saveUserEntries ?w1] =>
      pose proof (saveUserEntries_vault w1) as Hv;
      pose proof (saveUserEntries_normal w1) as Hn;
      destruct (saveUserEntries w1) as [c w2]
    end.
    cbn [fst snd] in Hv, Hn. subst c. cbn. rewrite Hv. reflexivity.
Qed.

(** X13: the platforms of the list stay distinct under lower-casing. For
    an ASCII name, under a case mapping that is the usual one on ASCII,
    [handleAddEntry] keeps them distinct, and so does [handleEditEntry] when
    the ids of the list are distinct (ids that collide let the edit pass
    its duplicate check against the other entry of the same id). *)
Theorem platforms_stay_distinct
  (w : World) (rawName rawUsername rawPassword isoNow : jsstring) (now : Z) :
  ascii_case_mapping UC ->
  is_ascii (trim rawName) = true ->
  platforms_distinct (entries (vault w)) ->
  platforms_distinct
    (entries (vault (snd (handleAddEntry rawName rawUsername rawPassword now isoNow w)))) /\
  (List.NoDup (map entry_id (entries (vault w))) ->
   platforms_distinct
     (entries (vault (snd (handleEditEntry rawName rawUsername rawPassword isoNow w))))).
Proof.
  intros Hcase Hascii Hinv. split.
  - destruct (handleAddEntry_checked w rawName rawUsername rawPassword now isoNow)
      as [-> | (Hdup & ->)]; [exact Hinv|].
    unfold platforms_distinct. cbn [entries set_entries].
    rewrite map_app. cbn [map added_entry entry_platform].
    apply NoDup_snoc; [exact Hinv|].
    rewrite toLowerCase_capitalizePlatform by assumption.
    intros Hin. apply in_map_iff in Hin as (entry & Heq & Hin).
    assert (existsb (fun entry => str_eqb (toLowerCase (entry_platform entry))
                                          (toLowerCase (trim rawName)))
                    (entries (vault w)) = true) by (apply duplicate_check; eauto).
    congruence.
  - intros Hids.
    destruct (handleEditEntry_checked w rawName rawUsername rawPassword isoNow)
      as [-> | (editing & _ & Hother & ->)]; [exact Hinv|].
    cbn [entries].
    apply update_first_distinct with (newPlatform := toLowerCase (trim rawName));
      try assumption.
    intros e. cbn [edited_entry entry_platform].
    now apply toLowerCase_capitalizePlatform.
Qed.

(** X14: an edit, accepted or refused, changes no id and no creation time
    and moves no entry: the lists of ids and of [createdAt] values are as
    before, in the same order, and every entry other than the one under
    edit is at its place unchanged. *)
Theorem handleEditEntry_keeps_ids
  (w : World) (rawName rawUsername rawPassword isoNow : jsstring) :
  let es := entries (vault w) in
  let es' := entries (vault (snd (handleEditEntry rawName rawUsername rawPassword isoNow w))) in
  map entry_id es' = map entry_id es /\
  map entry_createdAt es' = map entry_createdAt es /\
  (forall k entry,
     es !! k = Some entry -> editingEntryId (vault w) <> Some (entry_id entry) ->
     es' !! k = Some entry).
Proof.
  cbv zeta.
  destruct (handleEditEntry_checked w rawName rawUsername rawPassword isoNow)
    as [-> | (editing & Hed & _ & ->)]; [auto|].
  cbn [entries]. repeat split.
  - now apply update_first_map.
  - now apply update_first_map.
  - intros k entry Hk Hne. apply update_first_other; [assumption|]. congruence.
Qed.

(** An edit is refused when no entry is under edit, or when the entry
    under edit is no longer in the list. *)
Lemma handleEditEntry_not_found
  (w : World) (rawName rawUsername rawPassword isoNow : jsstring) :
  forallb is_whitespace rawName || forallb is_whitespace rawUsername ||
    is_empty rawPassword = false ->
  editingEntryId (vault w) = None \/
  (exists editing, editingEntryId (vault w) = Some editing /\
     forall entry, In entry (entries (vault w)) -> entry_id entry <> editing) ->
  handleEditEntry rawName rawUsername rawPassword isoNow w =
  (Normal tt,
   mkWorld (vault w) (localStorage w) (rng w)
     (alerts w ++ ["Entry not found!"%string]) (posted w)).
Proof.
  intros Hfields H. unfold handleEditEntry. rewrite !is_empty_trim, Hfields.
  unfold_monad. cbn beta iota.
  destruct H as [-> | (editing & -> & Hnone)]; [reflexivity|].
  replace (existsb _ _) with false; [reflexivity|].
  symmetry. apply not_true_is_false. intros E.
  apply existsb_exists in E as (entry & Hentry & Heq).
  unfold str_eqb in Heq. apply bool_decide_eq_true_1 in Heq.
  now apply (Hnone entry).
Qed.

(** The vault object after a confirmed deletion. *)
Lemma handleDeleteEntry_vault (w : World) (entryId : jsstring) :
  vault (snd (handleDeleteEntry entryId true w)) =
  set_entries (List.filter (fun entry => negb (str_eqb (entry_id entry) entryId))
                           (entries (vault w))) (vault w).
Proof.
  unfold handleDeleteEntry. cbn [negb]. unfold_monad. cbn beta iota.
  match goal with |- context [saveUserEntries ?w1] =>
    pose proof (saveUserEntries_vault w1) as Hv;
    pose proof (saveUserEntries_normal w1) as Hn;
    destruct (saveUserEntries w1) as [c w2]
  end.
  cbn [fst snd] in Hv, Hn. subst c. cbn. rewrite Hv. reflexivity.
Qed.

(** X15: a deletion that is not confirmed does nothing at all. A
    confirmed one removes every entry that carries the id (there may be
    several) and no other; the session and the id under edit are as before,
    so that when the deleted entry was under edit, the edit form that is
    submitted afterwards is refused with the alert that the entry was not
    found. *)
Theorem handleDeleteEntry_removes_id (w : World) (entryId : jsstring) :
  handleDeleteEntry entryId false w = (Normal tt, w) /\
  let w' := snd (handleDeleteEntry entryId true w) in
  (forall entry, In entry (entries (vault w')) <->
                 In entry (entries (vault w)) /\ entry_id entry <> entryId) /\
  currentUser (vault w') = currentUser (vault w) /\
  editingEntryId (vault w') = editingEntryId (vault w) /\
  (forall rawName rawUsername rawPassword isoNow,
     forallb is_whitespace rawName || forallb is_whitespace rawUsername ||
       is_empty rawPassword = false ->
     editingEntryId (vault w) = Some entryId ->
     handleEditEntry rawName rawUsername rawPassword isoNow w' =
     (Normal tt,
      mkWorld (vault w') (localStorage w') (rng w')
        (alerts w' ++ ["Entry not found!"%string]) (posted w'))).
Proof.
  split; [reflexivity|]. cbv zeta.
  pose proof (handleDeleteEntry_vault w entryId) as Hv.
  assert (Hin : forall entry,
            In entry (entries (vault (snd (handleDeleteEntry entryId true w)))) <->
            In entry (entries (vault w)) /\ entry_id entry <> entryId).
  { intros entry. rewrite Hv. cbn [entries set_entries].
    rewrite List.filter_In. unfold str_eqb. rewrite negb_true_iff, bool_decide_eq_false.
    reflexivity. }
  split; [exact Hin|]. split; [now rewrite Hv|]. split; [now rewrite Hv|].
  intros rawName rawUsername rawPassword isoNow Hfields Hed.
  apply handleEditEntry_not_found; [assumption|].
  right. exists entryId. split; [now rewrite Hv|].
  intros entry Hentry. now apply Hin in Hentry.
Qed.

End EntryList.

(** ** project/app.js: a reload of the page *)

Section Reload.
Context {WC : WebCrypto} {UC : UnicodeCase} {JC : JSONCodec}.

Import PasswordVault.

(** Without a login the password stays absent, and an entry of the list
    has the id of an entry that was there before or is the one that the
    add form has just appended. *)
Lemma handle_without_login (ev : AppEvent) (w : World) :
  is_login ev = false ->
  let w' := snd (handle ev w) in
  (userPassword (vault w) = None -> userPassword (vault w') = None) /\
  (forall entry, In entry (entries (vault w')) ->
     (exists old, In old (entries (vault w)) /\ entry_id old = entry_id entry) \/
     (exists n u p now t, ev = AddEntry n u p now t /\ entry_id entry = Number_toString now)).
Proof.
  intros Hev. cbv zeta.
  assert (Hsame : userPassword (vault (snd (handle ev w))) = userPassword (vault w) ->
            entries (vault (snd (handle ev w))) = entries (vault w) ->
            (userPassword (vault w) = None ->
             userPassword (vault (snd (handle ev w))) = None) /\
            (forall entry, In entry (entries (vault (snd (handle ev w)))) ->
               (exists old, In old (entries (vault w)) /\ entry_id old = entry_id entry) \/
               (exists n u p now t,
                  ev = AddEntry n u p now t /\ entry_id entry = Number_toString now))).
  { intros -> ->. split; [auto|]. intros entry H. left. now exists entry. }
  destruct ev as [e p c t | e p | | n u p now t | n u p t | i c | i | |];
    try discriminate Hev; cbn [handle] in *.
  - apply Hsame; unfold handleRegister; unfold_monad;
      (destruct (negb _); [reflexivity|]); (destruct (_ <? _)%nat; [reflexivity|]);
      (destruct (users_member _ e); [reflexivity | reflexivity |]);
      destruct (CryptoUtils.hashPassword p None _) as [[h|x] r']; reflexivity.
  - split; [reflexivity | intros entry []].
  - destruct (handleAddEntry_vault w n u p now t) as [H | H]; cbv zeta in H;
      [apply Hsame; now rewrite H|].
    rewrite H. cbn [userPassword entries set_entries]. split; [auto|].
    intros entry Hin. apply in_app_iff in Hin as [Hin | [<- | []]].
    + left. now exists entry.
    + right. now exists n, u, p, now, t.
  - destruct (handleEditEntry_checked w n u p t) as [H | (editing & _ & _ & H)];
      cbv zeta in H; [apply Hsame; now rewrite H|].
    rewrite H. cbn [userPassword entries]. split; [auto|].
    intros entry Hin. left.
    apply (in_map entry_id) in Hin.
    rewrite update_first_map in Hin by reflexivity.
    apply in_map_iff in Hin as (old & Hid & Hold). now exists old.
  - destruct c; [|now apply Hsame].
    rewrite handleDeleteEntry_vault. cbn [userPassword entries set_entries].
    split; [auto|].
    intros entry H. apply List.filter_In in H as [H _]. left. now exists entry.
  - apply Hsame; unfold openEditModal; unfold_monad; cbn beta iota;
      now destruct (existsb _ _).
  - now apply Hsame.
  - split; [|intros entry H; exfalso; revert H];
      unfold constructor, checkAuthState; unfold_monad; cbn;
      now destruct (ls_currentUser _).
Qed.

Lemma run_without_login (evs : list AppEvent) (w : World) :
  forallb (fun ev => negb (is_login ev)) evs = true ->
  (userPassword (vault w) = None -> userPassword (vault (run evs w)) = None) /\
  (forall entry, In entry (entries (vault (run evs w))) ->
     (exists old, In old (entries (vault w)) /\ entry_id old = entry_id entry) \/
     (exists n u p now t,
        In (AddEntry n u p now t) evs /\ entry_id entry = Number_toString now)).
Proof.
  revert w. induction evs as [|ev evs IH]; intros w Hevs.
  - split; [auto|]. intros entry H. left. now exists entry.
  - cbn [forallb] in Hevs. apply andb_prop in Hevs as [Hev Hevs].
    apply negb_true_iff in Hev.
    cbn [run fold_left]. fold (run evs (snd (handle ev w))).
    destruct (handle_without_login ev w Hev) as [Hp He]. cbv zeta in Hp, He.
    destruct (IH (snd (handle ev w)) Hevs) as [IHp IHe].
    split; [auto|].
    intros entry Hin.
    destruct (IHe entry Hin) as [(old & Hold & Hid) | (n & u & p & now & t & Hadd & Hid)].
    + destruct (He old Hold) as [(old' & Hold' & Hid') | (n & u & p & now & t & -> & Hid')].
      * left. exists old'. split; [assumption | congruence].
      * right. exists n, u, p, now, t. split; [now left | congruence].
    + right. exists n, u, p, now, t. split; [now right | assumption].
Qed.

(** X9: a reload of the page restores the current user from the marker
    and nothing else: the password is absent and the entry list empty, so
    that right after the reload every domain query answers none; storage is
    not touched. As long as no login follows, whatever else is done on the
    page, the password stays absent and the list holds nothing of what was
    stored before the reload: each of its entries carries the id of a
    submission of the add form made since. *)
Theorem reload_requires_login (w : World) (evs : list AppEvent) (domain : jsstring) :
  forallb (fun ev => negb (is_login ev)) evs = true ->
  let w0 := snd (constructor w) in
  currentUser (vault w0) = ls_currentUser (localStorage w) /\
  userPassword (vault w0) = None /\
  entries (vault w0) = [] /\
  getPasswordForDomain (vault w0) domain = None /\
  localStorage w0 = localStorage w /\
  posted w0 = posted w /\
  userPassword (vault (run evs w0)) = None /\
  (forall entry, In entry (entries (vault (run evs w0))) ->
     exists n u p now t,
       In (AddEntry n u p now t) evs /\ entry_id entry = Number_toString now).
Proof.
  intros Hevs. cbv zeta.
  assert (H0 : currentUser (vault (snd (constructor w))) = ls_currentUser (localStorage w) /\
               userPassword (vault (snd (constructor w))) = None /\
               entries (vault (snd (constructor w))) = [] /\
               getPasswordForDomain (vault (snd (constructor w))) domain = None /\
               localStorage (snd (constructor w)) = localStorage w /\
               posted (snd (constructor w)) = posted w).
  { unfold constructor, checkAuthState. unfold_monad. cbn.
    unfold getPasswordForDomain.
    destruct (ls_currentUser (localStorage w)); cbn; repeat split. }
  destruct H0 as (Hu & Hp & He & Hq & Hl & Hpo).
  destruct (run_without_login evs (snd (constructor w)) Hevs) as [Hrp Hre].
  repeat split; try assumption; [now apply Hrp|].
  intros entry Hin. destruct (Hre entry Hin) as [(old & Hold & _) | H]; [|exact H].
  rewrite He in Hold. destruct Hold.
Qed.

End Reload.

(** ** project/app.js: what is saved can be loaded *)

Section Persistence.
Context {WC : WebCrypto} {UC : UnicodeCase} {JC : JSONCodec}.

Import PasswordVault.

Lemma b64_encode_nonempty (a : N) (l : list N) : is_empty (b64_encode (a :: l)) = false.
Proof. destruct l as [|b [|c l]]; reflexivity. Qed.

(** Loading an envelope that [encrypt] sealed from the text of a list,
    under the password of the session, sets that list. *)
Lemma loadUserEntries_sealed
  (w : World) (u : UserAccount) (es : list Entry) (envelope : jsstring) (r0 r0' : Rng) :
  aes_gcm_sound WC -> json_faithful JC es ->
  currentUser (vault w) = Some u ->
  CryptoUtils.encrypt (JSON_stringify es) (password_string (userPassword (vault w))) r0 =
    (Normal envelope, r0') ->
  ls_entries (localStorage w) !! user_email u = Some envelope ->
  loadUserEntries w =
  (Normal tt, mkWorld (set_entries es (vault w)) (localStorage w) (rng w) (alerts w) (posted w)).
Proof.
  intros Haes (Hparse & Hwf & Hbom) Hu Henc Henv.
  apply encrypt_success in Henc
    as (salt & iv & key & encrypted & Hsalt & Hiv & Hkey & Hct & ->).
  unfold loadUserEntries. unfold_monad. rewrite Hu, Henv.
  destruct salt as [|b salt]; [discriminate Hsalt|].
  change (map to_N ((b :: salt) ++ iv ++ encrypted))
    with (to_N b :: map to_N (salt ++ iv ++ encrypted)) at 1.
  rewrite b64_encode_nonempty.
  rewrite decrypt_envelope by assumption.
  rewrite Hkey, (Haes _ _ _ _ Hct).
  rewrite TextDecoder_TextEncoder by assumption.
  rewrite Hparse. reflexivity.
Qed.

(** A save that can be made: the envelope is stored under the email of the
    account and the list is posted to the extension. *)
Lemma saveUserEntries_stored (w : World) (u : UserAccount) (envelope : jsstring) (r' : Rng) :
  currentUser (vault w) = Some u ->
  CryptoUtils.encrypt (JSON_stringify (entries (vault w)))
    (password_string (userPassword (vault w))) (rng w) = (Normal envelope, r') ->
  saveUserEntries w =
  (Normal tt,
   mkWorld (vault w)
     (set_ls_entries (<[user_email u := envelope]> (ls_entries (localStorage w)))
        (localStorage w))
     r' (alerts w) (posted w ++ [entries_updated (Some (entries (vault w)))])).
Proof.
  intros Hu Henc. unfold saveUserEntries. unfold_monad. rewrite Hu, Henc. reflexivity.
Qed.

(** X16: what [saveUserEntries] stores, [loadUserEntries] reads back.
    When the save can be made it raises no alert and posts the list to the
    extension, and a load in the same session sets the list that was saved,
    whatever the list in memory has become in between. AES-GCM is taken to
    decrypt what it encrypted and JSON to read back what it wrote. *)
Theorem saveUserEntries_loadUserEntries (w : World) (u : UserAccount) :
  aes_gcm_sound WC -> json_faithful JC (entries (vault w)) ->
  currentUser (vault w) = Some u ->
  is_throw (fst (CryptoUtils.encrypt (JSON_stringify (entries (vault w)))
                   (password_string (userPassword (vault w))) (rng w))) = false ->
  let w1 := snd (saveUserEntries w) in
  alerts w1 = alerts w /\
  posted w1 = posted w ++ [entries_updated (Some (entries (vault w)))] /\
  forall other,
    entries (vault (snd (loadUserEntries (set_vault (set_entries other) w1)))) =
    entries (vault w).
Proof.
  intros Haes Hjson Hu Henc.
  destruct (CryptoUtils.encrypt _ _ (rng w)) as [[envelope|e] r'] eqn:E;
    [|discriminate Henc].
  rewrite (saveUserEntries_stored w u envelope r' Hu E). cbn [snd alerts posted].
  repeat split. intros other.
  rewrite loadUserEntries_sealed
    with (u := u) (es := entries (vault w)) (envelope := envelope) (r0 := rng w) (r0' := r').
  - reflexivity.
  - exact Haes.
  - exact Hjson.
  - exact Hu.
  - exact E.
  - cbn. apply lookup_insert_eq.
Qed.

(** X17: saved entries survive a logout and a new login. In a session
    opened for an account of the [users] mapping, after a save that can be
    made, [handleLogout] empties the list in memory and a login with the
    email and the password of the account brings back the list that was
    saved, with the session reopened. *)
Theorem saved_entries_survive_relogin
  (w : World) (u : UserAccount) (email password : jsstring) :
  aes_gcm_sound WC -> json_faithful JC (entries (vault w)) ->
  currentUser (vault w) = Some u ->
  userPassword (vault w) = Some password ->
  ls_users (localStorage w) !! email = Some u ->
  (forall r, CryptoUtils.verifyPassword password (user_hashedPassword u) r = (Normal true, r)) ->
  is_throw (fst (CryptoUtils.encrypt (JSON_stringify (entries (vault w))) password (rng w))) =
    false ->
  let w1 := snd (handleLogout (snd (saveUserEntries w))) in
  let w2 := snd (handleLogin email password w1) in
  entries (vault w1) = [] /\
  entries (vault w2) = entries (vault w) /\
  currentUser (vault w2) = Some u /\
  userPassword (vault w2) = Some password.
Proof.
  intros Haes Hjson Hu Hp Huser Hverify Henc.
  destruct (CryptoUtils.encrypt _ _ (rng w)) as [[envelope|e] r'] eqn:E;
    [|discriminate Henc].
  rewrite (saveUserEntries_stored w u envelope r' Hu); [|now rewrite Hp].
  destruct w as [[cu up es ed] [us lcu les] r al po].
  cbn [vault localStorage rng alerts posted currentUser userPassword entries ls_users
       ls_entries] in *.
  subst cu up. cbv zeta.
  unfold handleLogout. unfold_monad. cbn [snd].
  unfold set_vault, set_localStorage, set_ls_currentUser, set_ls_entries. reduce_world.
  split; [reflexivity|].
  unfold handleLogin. unfold_monad. reduce_world.
  rewrite (users_member_own _ _ _ Huser). reduce_world.
  rewrite Hverify. reduce_world.
  unfold set_vault, set_localStorage, set_ls_currentUser, set_session. reduce_world.
  rewrite loadUserEntries_sealed
    with (u := u) (es := es) (envelope := envelope) (r0 := r) (r0' := r').
  - repeat split.
  - exact Haes.
  - exact Hjson.
  - reflexivity.
  - exact E.
  - cbn. apply lookup_insert_eq.
Qed.

End Persistence.

(** ** Hostnames that are a fragment of [.com] *)

Lemma includes_app_r (s t pre : jsstring) :
  includes s t = true -> includes (pre ++ s) t = true.
Proof.
  rewrite !includes_spec. intros (a & b & ->). exists (pre ++ a), b.
  now rewrite <- app_assoc.
Qed.

Section Fragment.
Context {UC : UnicodeCase}.

(** X18: a hostname that, lower-cased and without its first [www.], is
    a fragment of [.com] (the empty hostname of a local file, [www.],
    [com], [www.com]) passes the second containment test against every
    entry, whatever its platform: with a session and a non-empty list, both
    matchers answer with the first entry of the list. *)
Theorem fragment_of_dot_com_matches_first_entry
  (v : PasswordVault.Vault) (s : BackgroundService.Service) (domain : jsstring) :
  includes (lit ".com") (replace (toLowerCase domain) (lit "www.") (lit "")) = true ->
  (forall user entry rest,
     PasswordVault.currentUser v = Some user ->
     PasswordVault.entries v = entry :: rest ->
     PasswordVault.getPasswordForDomain v domain = Some (PasswordVault.entry_data entry)) /\
  (forall entry rest,
     BackgroundService.isUserLoggedIn s = true ->
     BackgroundService.passwordData s = entry :: rest ->
     BackgroundService.getPasswordForDomain s domain =
       Some (BackgroundService.entry_data entry)).
Proof.
  intros H. split.
  - intros user entry rest Hu Hes.
    unfold PasswordVault.getPasswordForDomain, PasswordVault.normalize_domain.
    rewrite Hu, Hes. cbn [PasswordVault.match_loop].
    rewrite (includes_app_r _ _ (toLowerCase (entry_platform entry)) H).
    rewrite orb_true_r. now destruct (_ || _).
  - intros entry rest Hl Hes.
    unfold BackgroundService.getPasswordForDomain, BackgroundService.normalize_domain.
    rewrite Hl, Hes. cbn [negb orb List.length Nat.eqb BackgroundService.match_loop].
    rewrite (includes_app_r _ _ (toLowerCase (entry_platform entry)) H).
    rewrite orb_true_r. now destruct (_ || _).
Qed.

End Fragment.

(** ** background.js: what the service worker keeps, writes and sends *)

Section Worker.
Context {UC : UnicodeCase}.

Import BackgroundService.

(** X19: handling the same [VAULT_UPDATE] a second time (the page posts
    it to the window and may send it to the extension directly as well)
    changes neither the object nor storage, and ends as the first handling
    did; its one effect is the repeated broadcast to the tabs. *)
Theorem handleVaultUpdate_idempotent (message : VaultUpdate) (w : World) :
  let w1 := snd (handleVaultUpdate message w) in
  let w2 := snd (handleVaultUpdate message w1) in
  service w2 = service w1 /\
  storage w2 = storage w1 /\
  fst (handleVaultUpdate message w1) = fst (handleVaultUpdate message w).
Proof.
  destruct w as [[pd li em] [us spd] se].
  destruct message as [[email|] | | [data|] |]; cbn; repeat split.
Qed.

(** Nothing but a [VAULT_UPDATE] writes to the object or to storage, and a
    request without a sender tab sends nothing. *)
Lemma receive_frame (i : Incoming) (w : World) :
  is_vault_update i = false ->
  storage (snd (receive i w)) = storage w /\
  (i <> WorkerRestart -> service (snd (receive i w)) = service w) /\
  (forall message, i = RuntimeMessage message None ->
     sent (snd (receive i w)) = sent w).
Proof.
  intros Hi.
  destruct i as [[update | domain | domain | | |] [tabId|] | tabId [hostname|e] |];
    try discriminate Hi; unfold receive, handleMessage, requestAutofill, checkForLoginPage,
      loadStoredData, send, set_service, bind, get, modify, ret, throw, lift, try_catch;
    cbn [service storage sent];
    repeat match goal with
           | |- context [match ?x with _ => _ end] =>
               match x with
               | context [match _ with _ => _ end] => fail 1
               | _ => destruct x eqn:?
               end
           end;
    cbn; repeat split; try congruence; intros ? [=].
Qed.

(** X20: of everything the service worker reacts to, the [VAULT_UPDATE]
    message alone writes. Over any sequence of inputs without one (queries,
    autofill requests, status requests, unknown messages, pages that finish
    loading, restarts), [chrome.storage] is left as it is; without a restart
    the object is left as it is too; and the inputs whose sender is no tab
    (the popup, whose autofill request throws on [sender.tab.id]) make the
    worker send nothing to any tab. *)
Theorem only_vault_update_writes (inputs : list Incoming) (w : World) :
  forallb (fun i => negb (is_vault_update i)) inputs = true ->
  storage (receive_all inputs w) = storage w /\
  (forallb (fun i => negb (is_restart i)) inputs = true ->
   service (receive_all inputs w) = service w) /\
  (forallb from_popup inputs = true -> sent (receive_all inputs w) = sent w).
Proof.
  revert w. induction inputs as [|i inputs IH]; intros w Hin; [now repeat split|].
  cbn [forallb] in Hin. apply andb_prop in Hin as [Hi Hin].
  apply negb_true_iff in Hi.
  destruct (receive_frame i w Hi) as (Hst & Hsv & Hse).
  destruct (IH (snd (receive i w)) Hin) as (IHst & IHsv & IHse).
  cbn [receive_all fold_left]. fold (receive_all inputs (snd (receive i w))).
  split; [congruence|]. split.
  - cbn [forallb]. intros H. apply andb_prop in H as [H1 H2].
    rewrite IHsv by assumption. apply Hsv. intros ->. discriminate H1.
  - cbn [forallb]. intros H. apply andb_prop in H as [H1 H2].
    rewrite IHse by assumption.
    destruct i as [message [tabId|] | |]; try discriminate H1. now apply (Hse message).
Qed.



(** X22: a login message that carries no data makes [handleMessage]
    throw on [message.data.email] after the session flag has been set: the
    message gets no response, nothing is written to storage and no tab is
    told, while the object says logged in. A restart of the worker brings
    back the flag that storage holds. *)
Theorem login_message_without_data (sender_tab : option N) (w : World) :
  let w' := snd (handleMessage (VAULT_UPDATE (user_logged_in None)) sender_tab w) in
  fst (handleMessage (VAULT_UPDATE (user_logged_in None)) sender_tab w) = Throw TypeError /\
  isUserLoggedIn (service w') = true /\
  storage w' = storage w /\
  sent w' = sent w /\
  isUserLoggedIn (service (snd (receive WorkerRestart w'))) =
    match stored_userStatus (storage w) with
    | Some (isLoggedIn, _) => isLoggedIn
    | None => false
    end.
Proof.
  destruct w as [[pd li em] [[[sli sem]|] [spd|]] se]; cbn; repeat split.
Qed.

(** [persisted] is kept by everything the worker reacts to, a login
    message without data apart. *)
Lemma receive_persisted (i : Incoming) (w : World) :
  carries_data i = true -> persisted w -> persisted (snd (receive i w)).
Proof.
  intros Hi [[email Hus] Hpd].
  destruct (is_vault_update i) eqn:Hv.
  - destruct i as [[[[e|] | | [data|] |] | | | | |] t | |]; try discriminate;
      destruct w as [[pd li em] [us spd] se]; cbn in *; split; eauto.
  - destruct i as [message t | tabId hostname |].
    + destruct (receive_frame (RuntimeMessage message t) w Hv) as (Hst & Hsv & _).
      unfold persisted. rewrite Hst, Hsv by discriminate. eauto.
    + destruct (receive_frame (TabComplete tabId hostname) w Hv) as (Hst & Hsv & _).
      unfold persisted. rewrite Hst, Hsv by discriminate. eauto.
    + destruct w as [[pd li em] [us spd] se]. cbn in *. subst us spd.
      cbn. split; eauto.
Qed.

(** A handler that runs to its end without another in between does what
    [receive] does. *)
Lemma snd_bind_ret {S A} (m : M S A) (s : S) :
  snd ((let* _ := m in ret tt) s) = snd (m s).
Proof. unfold bind, ret. now destruct (m s) as [[a|e] s']. Qed.

Lemma complete_task_of (i : Incoming) (w : World) :
  complete (task_of i) w = snd (receive i w).
Proof.
  destruct i as [message sender_tab | tabId hostname |].
  - destruct message as [update | domain | domain | | |];
      try (cbn [task_of complete receive]; unfold effect; now rewrite snd_bind_ret).
    destruct w as [[pd li em] [us spd] se].
    destruct update as [[email|] | | [data|] |]; reflexivity.
  - reflexivity.
  - destruct w as [[pd li em] [[[l e]|] [data|]] se]; reflexivity.
Qed.

Lemma settle_finished (w : World) (flight : list Task) :
  forallb is_finished flight = true -> settle (mkRunning w flight) = w.
Proof.
  unfold settle. cbn [in_flight current]. revert w.
  induction flight as [|t flight IH]; intros w H; [reflexivity|].
  cbn [forallb] in H. apply andb_prop in H as [Ht H].
  destruct t; [|discriminate Ht]. cbn [fold_left complete]. now apply IH.
Qed.

Lemma settle_last (w : World) (before : list Task) (t : Task) :
  forallb is_finished before = true ->
  settle (mkRunning w (before ++ [t])) = complete t w.
Proof.
  intros H. unfold settle. cbn [in_flight current].
  rewrite fold_left_app. cbn [fold_left].
  change (fold_left (fun w t => complete t w) before w) with (settle (mkRunning w before)).
  now rewrite settle_finished.
Qed.

Lemma advance_complete (t : Task) (w : World) :
  complete (snd (advance t w)) (fst (advance t w)) = complete t w.
Proof. destruct t; reflexivity. Qed.

Lemma forallb_insert_finished (flight : list Task) (k : nat) :
  forallb is_finished flight = true ->
  forallb is_finished (<[k := finished]> flight) = true.
Proof.
  revert k. induction flight as [|t flight IH]; intros k H; [reflexivity|].
  cbn [forallb] in H. apply andb_prop in H as [Ht H].
  destruct k; cbn; [exact H | rewrite Ht; now apply IH].
Qed.

Lemma resume_settle (k : nat) (c : Running) :
  last_in_flight c ->
  last_in_flight (move (Resume k) c) /\ settle (move (Resume k) c) = settle c.
Proof.
  destruct c as [w flight]. unfold last_in_flight. cbn [in_flight move current].
  intros [Hall | (before & t & -> & Hbefore)].
  - destruct (flight !! k) as [t|] eqn:Ek; [|split; [now left|reflexivity]].
    assert (Ht : is_finished t = true).
    { rewrite forallb_forall in Hall. apply Hall.
      apply list_elem_of_In. eapply list_elem_of_lookup_2. exact Ek. }
    destruct t; [|discriminate Ht]. cbn [advance in_flight].
    split; [left; now apply forallb_insert_finished|].
    rewrite !settle_finished; auto using forallb_insert_finished.
  - destruct (lt_eq_lt_dec k (List.length before)) as [[Hlt | ->] | Hgt].
    + rewrite lookup_app_l by assumption.
      destruct (before !! k) as [t0|] eqn:Ek.
      2:{ apply lookup_ge_None in Ek. lia. }
      assert (Ht : is_finished t0 = true).
      { rewrite forallb_forall in Hbefore. apply Hbefore.
        apply list_elem_of_In. eapply list_elem_of_lookup_2. exact Ek. }
      destruct t0; [|discriminate Ht]. cbn [advance in_flight].
      rewrite insert_app_l by assumption.
      split.
      * right. exists (<[k := finished]> before), t.
        split; [reflexivity | now apply forallb_insert_finished].
      * rewrite !settle_last; auto using forallb_insert_finished.
    + rewrite list_lookup_middle by reflexivity.
      destruct t as [|run next]; cbn [advance in_flight].
      * replace (<[List.length before := finished]> (before ++ [finished]))
          with (before ++ [finished]).
        2:{ rewrite insert_app_r_alt by lia. now rewrite Nat.sub_diag. }
        split; [right; now exists before, finished | reflexivity].
      * replace (<[List.length before := next w]> (before ++ [part run next]))
          with (before ++ [next w]).
        2:{ rewrite insert_app_r_alt by lia. now rewrite Nat.sub_diag. }
        split; [right; now exists before, (next w)|].
        now rewrite !settle_last.
    + rewrite lookup_ge_None_2 by (rewrite length_app; cbn; lia).
      split; [right; now exists before, t | reflexivity].
Qed.

Lemma arrive_settle (i : Incoming) (c : Running) :
  forallb is_finished (in_flight c) = true ->
  last_in_flight (move (Arrive i) c) /\
  settle (move (Arrive i) c) = snd (receive i (settle c)).
Proof.
  destruct c as [w flight]. cbn [in_flight move current]. intros Hall.
  rewrite settle_finished by assumption.
  assert (Hflight : forallb is_finished (if is_restart i then [] else flight) = true)
    by now destruct (is_restart i).
  destruct (advance (task_of i) w) as [w' rest] eqn:E.
  split.
  - right. now exists (if is_restart i then [] else flight), rest.
  - rewrite settle_last by assumption.
    change w' with (fst (w', rest)). change rest with (snd (w', rest)) at 1.
    rewrite <- E, advance_complete. apply complete_task_of.
Qed.

(** When no input arrives while a handler is in flight, the worker ends
    where handling the inputs one after the other ends. *)
Lemma play_one_at_a_time (moves : list Move) (c : Running) :
  one_at_a_time moves c = true ->
  last_in_flight c ->
  current (play moves c) = receive_all (arrivals moves) (settle c).
Proof.
  revert c. induction moves as [|m moves IH]; intros c Hq Hc.
  - cbn in Hq |- *. destruct c as [w flight]. now rewrite settle_finished.
  - cbn [one_at_a_time] in Hq. apply andb_prop in Hq as [Hm Hq].
    cbn [play fold_left]. fold (play moves (move m c)).
    destruct m as [i | k].
    + destruct (arrive_settle i c Hm) as [Hl Hs].
      rewrite (IH _ Hq Hl), Hs. reflexivity.
    + destruct (resume_settle k c Hc) as [Hl Hs].
      rewrite (IH _ Hq Hl), Hs. reflexivity.
Qed.

(** X23: a restart of the service worker loses nothing of the session
    when no input arrives while a handler is in flight. When
    [chrome.storage] holds the session flag and the cached entries of the
    object, it still does after any run of the worker in which every
    handler has finished before the next input arrives and every login
    message carries its data, and the worker restarted then has the same
    flag and the same entries, so it answers every domain query as before.
    (Handlers that overlap can leave in storage what the object no longer
    holds: the listener does not wait for them.) *)
Theorem restart_restores_session (moves : list Move) (w : World) :
  one_at_a_time moves (mkRunning w []) = true ->
  forallb carries_data (arrivals moves) = true ->
  persisted w ->
  let w' := current (play moves (mkRunning w [])) in
  let restarted := complete restart_task w' in
  persisted w' /\
  isUserLoggedIn (service restarted) = isUserLoggedIn (service w') /\
  passwordData (service restarted) = passwordData (service w') /\
  forall domain,
    getPasswordForDomain (service restarted) domain =
    getPasswordForDomain (service w') domain.
Proof.
  intros Hone Hin Hw. cbv zeta.
  rewrite (play_one_at_a_time moves (mkRunning w []) Hone) by (now left).
  change (settle (mkRunning w [])) with w.
  change restart_task with (task_of WorkerRestart). rewrite complete_task_of.
  generalize dependent (arrivals moves). clear moves Hone. intros inputs Hin.
  assert (Hp : persisted (receive_all inputs w)).
  { revert w Hw. induction inputs as [|i inputs IH]; intros w Hw; [exact Hw|].
    cbn [forallb] in Hin. apply andb_prop in Hin as [Hi Hin].
    cbn [receive_all fold_left]. apply (IH Hin). now apply receive_persisted. }
  split; [exact Hp|].
  destruct (receive_all inputs w) as [[pd li em] [us spd] se].
  destruct Hp as [[email Hus] Hpd]. cbn in Hus, Hpd. subst us spd.
  cbn. repeat split.
Qed.

End Worker.

(** ** From the page to the service worker *)

Section Sync.
Context {WC : WebCrypto} {UC : UnicodeCase} {JC : JSONCodec}.

Import PasswordVault.








End Sync.

(** ** The further properties on concrete inputs *)

Module Evaluations.
Import Instances.

(** The envelope of the text ["[]"]: the first 28 bytes of the counting
    entropy source, then the output of the cipher. *)
Lemma encrypt_envelope_layout_witness :
  let salt := map counting_rng (seq 0 16) in
  let iv := map counting_rng (seq 16 12) in
  exists key encrypted,
    pbkdf2_deriveKey (WebCrypto := ToyCrypto) (TextEncoder_encode (lit "correcthorse1")) salt
      CryptoUtils.iterations CryptoUtils.keyLength = Normal key /\
    aes_gcm_encrypt key iv (TextEncoder_encode (lit "[]")) = Normal encrypted /\
    atob sample_envelope = Normal (String_fromCharCode (salt ++ iv ++ encrypted)) /\
    (forall i, snd sample_sealed i = counting_rng (28 + i)%nat).
Proof.
  apply (encrypt_envelope_layout (WC := ToyCrypto) (lit "[]") (lit "correcthorse1")
           sample_envelope counting_rng (snd sample_sealed)).
  vm_compute. reflexivity.
Defined.

(** The same text under the same password, sealed from two entropy sources. *)
Lemma encrypt_fresh_randomness_witness : sample_envelope <> zero_envelope.
Proof.
  apply (encrypt_fresh_randomness (WC := ToyCrypto)
           (lit "[]") (lit "correcthorse1") (lit "[]") (lit "correcthorse1")
           sample_envelope zero_envelope
           counting_rng (snd sample_sealed) zero_rng (snd zero_sealed)).
  - vm_compute. reflexivity.
  - vm_compute. reflexivity.
  - vm_compute. discriminate.
Defined.

(** The stored hash followed by a line feed, which [atob] skips. *)
Lemma verifyPassword_rejects_altered_hash_witness :
  CryptoUtils.verifyPassword (WC := ToyCrypto) (lit "correcthorse1")
    (sample_hash ++ [10]) zero_rng = (Normal false, zero_rng).
Proof.
  apply (verifyPassword_rejects_altered_hash (WC := ToyCrypto) (lit "correcthorse1")
           sample_hash (sample_hash ++ [10]) counting_rng (snd sample_hashed)).
  - vm_compute. reflexivity.
  - vm_compute. reflexivity.
  - intros H. apply (f_equal (@List.length N)) in H. vm_compute in H. discriminate H.
Defined.

(** One password hashed under two salts. *)
Lemma hashPassword_salted_witness : sample_hash <> zero_hash.
Proof.
  apply (hashPassword_salted (WC := ToyCrypto) (lit "correcthorse1") (lit "correcthorse1")
           sample_hash zero_hash counting_rng (snd sample_hashed) zero_rng (snd zero_hashed)).
  - vm_compute. reflexivity.
  - vm_compute. reflexivity.
  - vm_compute. discriminate.
Defined.

(** A first registration on a fresh page, followed by the login. *)
Lemma register_then_login_witness :
  let w1 := snd (PasswordVault.handleRegister (WC := ToyCrypto)
                   (lit "b@x.com") (lit "correcthorse1") (lit "correcthorse1")
                   (lit "2024-01-02T00:00:00.000Z") fresh_world) in
  exists user w2,
    PasswordVault.ls_users (PasswordVault.localStorage w1) !! lit "b@x.com" = Some user /\
    user_email user = lit "b@x.com" /\
    PasswordVault.handleLogin (WC := ToyCrypto) (JC := FieldJSON)
      (lit "b@x.com") (lit "correcthorse1") w1 = (Normal tt, w2) /\
    PasswordVault.currentUser (PasswordVault.vault w2) = Some user /\
    PasswordVault.userPassword (PasswordVault.vault w2) = Some (lit "correcthorse1") /\
    PasswordVault.ls_currentUser (PasswordVault.localStorage w2) = Some user /\
    PasswordVault.alerts w2 =
      PasswordVault.alerts fresh_world ++ ["Registration successful! Please login."%string] /\
    PasswordVault.posted w2 =
      PasswordVault.posted fresh_world ++ [user_logged_in (Some (lit "b@x.com"))].
Proof.
  apply (register_then_login (WC := ToyCrypto) (JC := FieldJSON) fresh_world
           (lit "b@x.com") (lit "correcthorse1") (lit "2024-01-02T00:00:00.000Z")).
  - cbn. lia.
  - reflexivity.
  - vm_compute. reflexivity.
Defined.

(** A second registration under the email of a stored account. *)
Lemma handleRegister_existing_email_witness :
  exists msg : string,
    PasswordVault.handleRegister (WC := ToyCrypto)
      (lit "c@x.com") (lit "correcthorse9") (lit "correcthorse9")
      (lit "2024-01-02T00:00:00.000Z") short_world =
    (Normal tt,
     PasswordVault.mkWorld (PasswordVault.vault short_world)
       (PasswordVault.localStorage short_world) (PasswordVault.rng short_world)
       (PasswordVault.alerts short_world ++ [msg]) (PasswordVault.posted short_world)) /\
    (lit "correcthorse9" = lit "correcthorse9" ->
     (8 <= List.length (lit "correcthorse9"))%nat ->
     msg = "User with this email already exists!"%string).
Proof.
  apply (handleRegister_existing_email (WC := ToyCrypto) short_world
           (lit "c@x.com") (lit "correcthorse9") (lit "correcthorse9")
           (lit "2024-01-02T00:00:00.000Z") short_user).
  vm_compute. reflexivity.
Defined.

(** The page that holds ["Gmail"] is reloaded; ["Github"] is added and
    an entry is deleted, without a login. *)
Lemma reload_requires_login_witness :
  let evs := [PasswordVault.add_event add_github;
              PasswordVault.DeleteEntry (lit "1700000000000") true] in
  let w0 := snd (PasswordVault.constructor gmail_added) in
  let w' := PasswordVault.run (WC := ToyCrypto) (UC := AsciiCase) (JC := FieldJSON) evs w0 in
  PasswordVault.currentUser (PasswordVault.vault w0) =
    PasswordVault.ls_currentUser (PasswordVault.localStorage gmail_added) /\
  PasswordVault.userPassword (PasswordVault.vault w0) = None /\
  PasswordVault.entries (PasswordVault.vault w0) = [] /\
  PasswordVault.getPasswordForDomain (UC := AsciiCase) (PasswordVault.vault w0)
    (lit "mail.google.com") = None /\
  PasswordVault.localStorage w0 = PasswordVault.localStorage gmail_added /\
  PasswordVault.posted w0 = PasswordVault.posted gmail_added /\
  PasswordVault.userPassword (PasswordVault.vault w') = None /\
  (forall entry, In entry (PasswordVault.entries (PasswordVault.vault w')) ->
     exists n u p now t,
       In (PasswordVault.AddEntry n u p now t) evs /\
       entry_id entry = Number_toString now).
Proof.
  apply (reload_requires_login (WC := ToyCrypto) (UC := AsciiCase) (JC := FieldJSON)
           gmail_added
           [PasswordVault.add_event add_github;
            PasswordVault.DeleteEntry (lit "1700000000000") true]
           (lit "mail.google.com")).
  reflexivity.
Defined.

(** The name ["gMAIL"] is stored as ["Gmail"], and ["Gmail"] as itself. *)
Lemma capitalizePlatform_idempotent_witness :
  PasswordVault.capitalizePlatform (UC := AsciiCase)
    (PasswordVault.capitalizePlatform (UC := AsciiCase) (lit "gMAIL")) =
  PasswordVault.capitalizePlatform (UC := AsciiCase) (lit "gMAIL") /\
  toLowerCase (UnicodeCase := AsciiCase)
    (PasswordVault.capitalizePlatform (UC := AsciiCase) (lit "gMAIL")) =
  toLowerCase (UnicodeCase := AsciiCase) (lit "gMAIL").
Proof.
  apply (capitalizePlatform_idempotent (UC := AsciiCase) (lit "gMAIL")).
  - exact ascii_case_mapping_AsciiCase.
  - reflexivity.
Defined.

(** A platform name of three spaces. *)
Lemma blank_fields_rejected_witness :
  let w' := PasswordVault.mkWorld (PasswordVault.vault sample_world)
              (PasswordVault.localStorage sample_world) (PasswordVault.rng sample_world)
              (PasswordVault.alerts sample_world ++ ["Please fill in all fields!"%string])
              (PasswordVault.posted sample_world) in
  PasswordVault.handleAddEntry (WC := ToyCrypto) (UC := AsciiCase) (JC := FieldJSON)
    (lit "   ") (lit "bob") (lit "hunter2") 1700000000000 (lit "2024-01-01T00:00:00.000Z")
    sample_world = (Normal tt, w') /\
  PasswordVault.handleEditEntry (WC := ToyCrypto) (UC := AsciiCase) (JC := FieldJSON)
    (lit "   ") (lit "bob") (lit "hunter2") (lit "2024-01-01T00:00:00.000Z")
    sample_world = (Normal tt, w').
Proof.
  apply (blank_fields_rejected (WC := ToyCrypto) (UC := AsciiCase) (JC := FieldJSON)
           sample_world (lit "   ") (lit "bob") (lit "hunter2")
           (lit "2024-01-01T00:00:00.000Z") 1700000000000).
  reflexivity.
Defined.

(** The add form submitted on a page without a session. *)
Lemma handleAddEntry_failed_save_witness :
  exists r',
    PasswordVault.handleAddEntry (WC := ToyCrypto) (UC := AsciiCase) (JC := FieldJSON)
      (lit "Github") (lit "bob") (lit "p@ss") 1700000000001 (lit "2024-01-01T00:00:00.001Z")
      short_world =
    (Normal tt,
     PasswordVault.mkWorld
       (PasswordVault.set_entries
          (PasswordVault.entries (PasswordVault.vault short_world) ++
           [PasswordVault.added_entry (UC := AsciiCase) (lit "Github") (lit "bob") (lit "p@ss")
              1700000000001 (lit "2024-01-01T00:00:00.001Z")])
          (PasswordVault.vault short_world))
       (PasswordVault.localStorage short_world) r'
       (PasswordVault.alerts short_world ++
        ["Failed to save entries. Please try again."%string;
         "Password entry added successfully!"%string])
       (PasswordVault.posted short_world)).
Proof.
  apply (handleAddEntry_failed_save (WC := ToyCrypto) (UC := AsciiCase) (JC := FieldJSON)
           short_world (lit "Github") (lit "bob") (lit "p@ss")
           (lit "2024-01-01T00:00:00.001Z") 1700000000001).
  - reflexivity.
  - intros entry [].
  - left. reflexivity.
Defined.

(** ["Github"] added to, and ["Github"] written over, the list that holds ["Gmail"]. *)
Lemma platforms_stay_distinct_witness :
  PasswordVault.platforms_distinct (UC := AsciiCase)
    (PasswordVault.entries
       (PasswordVault.vault
          (snd (PasswordVault.handleAddEntry (WC := ToyCrypto) (UC := AsciiCase)
                  (JC := EmptyArrayJSON) (lit "Github") (lit "bob") (lit "p@ss")
                  1700000000001 (lit "2024-01-01T00:00:00.001Z") gmail_added)))) /\
  (List.NoDup (map entry_id (PasswordVault.entries (PasswordVault.vault gmail_added))) ->
   PasswordVault.platforms_distinct (UC := AsciiCase)
     (PasswordVault.entries
        (PasswordVault.vault
           (snd (PasswordVault.handleEditEntry (WC := ToyCrypto) (UC := AsciiCase)
                   (JC := EmptyArrayJSON) (lit "Github") (lit "bob") (lit "p@ss")
                   (lit "2024-01-01T00:00:00.001Z") gmail_added))))).
Proof.
  apply (platforms_stay_distinct (WC := ToyCrypto) (UC := AsciiCase) (JC := EmptyArrayJSON)
           gmail_added (lit "Github") (lit "bob") (lit "p@ss")
           (lit "2024-01-01T00:00:00.001Z") 1700000000001).
  - exact ascii_case_mapping_AsciiCase.
  - reflexivity.
  - unfold PasswordVault.platforms_distinct. vm_compute.
    apply List.NoDup_cons; [intros [] | apply List.NoDup_nil].
Defined.

(** The list that holds ["Github"] is saved and loaded again. *)
Lemma saveUserEntries_loadUserEntries_witness :
  let w1 := snd (PasswordVault.saveUserEntries (WC := ToyCrypto) (JC := FieldJSON)
                   github_world) in
  PasswordVault.alerts w1 = PasswordVault.alerts github_world /\
  PasswordVault.posted w1 =
    PasswordVault.posted github_world ++
    [entries_updated (Some (PasswordVault.entries (PasswordVault.vault github_world)))] /\
  forall other,
    PasswordVault.entries
      (PasswordVault.vault
         (snd (PasswordVault.loadUserEntries (WC := ToyCrypto) (JC := FieldJSON)
                 (PasswordVault.set_vault (PasswordVault.set_entries other) w1)))) =
    PasswordVault.entries (PasswordVault.vault github_world).
Proof.
  apply (saveUserEntries_loadUserEntries (WC := ToyCrypto) (JC := FieldJSON)
           github_world sample_user).
  - exact toy_aes_gcm_sound.
  - repeat split; vm_compute; reflexivity.
  - reflexivity.
  - vm_compute. reflexivity.
Defined.

(** The same list after a save, a logout and a new login. *)
Lemma saved_entries_survive_relogin_witness :
  let w1 := snd (PasswordVault.handleLogout
                   (snd (PasswordVault.saveUserEntries (WC := ToyCrypto) (JC := FieldJSON)
                           github_world))) in
  let w2 := snd (PasswordVault.handleLogin (WC := ToyCrypto) (JC := FieldJSON)
                   (lit "a@x.com") (lit "correcthorse1") w1) in
  PasswordVault.entries (PasswordVault.vault w1) = [] /\
  PasswordVault.entries (PasswordVault.vault w2) =
    PasswordVault.entries (PasswordVault.vault github_world) /\
  PasswordVault.currentUser (PasswordVault.vault w2) = Some sample_user /\
  PasswordVault.userPassword (PasswordVault.vault w2) = Some (lit "correcthorse1").
Proof.
  apply (saved_entries_survive_relogin (WC := ToyCrypto) (JC := FieldJSON)
           github_world sample_user (lit "a@x.com") (lit "correcthorse1")).
  - exact toy_aes_gcm_sound.
  - repeat split; vm_compute; reflexivity.
  - reflexivity.
  - reflexivity.
  - vm_compute. reflexivity.
  - intros r. vm_compute. reflexivity.
  - vm_compute. reflexivity.
Defined.

(** The empty hostname, as a page loaded from a local file has it. *)
Lemma fragment_of_dot_com_matches_first_entry_witness :
  (forall user entry rest,
     PasswordVault.currentUser github_vault = Some user ->
     PasswordVault.entries github_vault = entry :: rest ->
     PasswordVault.getPasswordForDomain (UC := AsciiCase) github_vault (lit "") =
       Some (PasswordVault.entry_data entry)) /\
  (forall entry rest,
     BackgroundService.isUserLoggedIn sample_service = true ->
     BackgroundService.passwordData sample_service = entry :: rest ->
     BackgroundService.getPasswordForDomain (UC := AsciiCase) sample_service (lit "") =
       Some (BackgroundService.entry_data entry)).
Proof.
  apply (fragment_of_dot_com_matches_first_entry (UC := AsciiCase) github_vault
           sample_service (lit "")).
  vm_compute. reflexivity.
Defined.

(** A day without a vault update. *)
Lemma only_vault_update_writes_witness :
  BackgroundService.storage
    (BackgroundService.receive_all (UC := AsciiCase) quiet_inputs sample_background) =
    BackgroundService.storage sample_background /\
  (forallb (fun i => negb (BackgroundService.is_restart i)) quiet_inputs = true ->
   BackgroundService.service
     (BackgroundService.receive_all (UC := AsciiCase) quiet_inputs sample_background) =
     BackgroundService.service sample_background) /\
  (forallb BackgroundService.from_popup quiet_inputs = true ->
   BackgroundService.sent
     (BackgroundService.receive_all (UC := AsciiCase) quiet_inputs sample_background) =
     BackgroundService.sent sample_background).
Proof.
  apply (only_vault_update_writes (UC := AsciiCase) quiet_inputs sample_background).
  reflexivity.
Defined.


(** An update of the entries, a query and a restart, one after the other. *)
Lemma restart_restores_session_witness :
  let w' := BackgroundService.current
              (BackgroundService.play (UC := AsciiCase) one_by_one
                 (BackgroundService.mkRunning sample_background [])) in
  let restarted := BackgroundService.complete BackgroundService.restart_task w' in
  BackgroundService.persisted w' /\
  BackgroundService.isUserLoggedIn (BackgroundService.service restarted) =
    BackgroundService.isUserLoggedIn (BackgroundService.service w') /\
  BackgroundService.passwordData (BackgroundService.service restarted) =
    BackgroundService.passwordData (BackgroundService.service w') /\
  forall domain,
    BackgroundService.getPasswordForDomain (UC := AsciiCase)
      (BackgroundService.service restarted) domain =
    BackgroundService.getPasswordForDomain (UC := AsciiCase)
      (BackgroundService.service w') domain.
Proof.
  apply (restart_restores_session (UC := AsciiCase) one_by_one sample_background).
  - reflexivity.
  - reflexivity.
  - split; [exists (Some (lit "a@x.com")); reflexivity | reflexivity].
Defined.

(** Without the condition the conclusion fails: when an update of the
    entries arrives while a logout is being handled, every handler ends,
    the object holds the entry and storage holds none, so that a restart
    loses it. *)
Example overlapping_handlers_lose_entries :
  let c := BackgroundService.play (UC := AsciiCase) overlapping
             (BackgroundService.mkRunning sample_background []) in
  BackgroundService.one_at_a_time (UC := AsciiCase) overlapping
    (BackgroundService.mkRunning sample_background []) = false /\
  forallb BackgroundService.is_finished (BackgroundService.in_flight c) = true /\
  BackgroundService.passwordData (BackgroundService.service (BackgroundService.current c)) =
    [xy_entry] /\
  BackgroundService.stored_passwordData
    (BackgroundService.storage (BackgroundService.current c)) = Some [] /\
  BackgroundService.passwordData
    (BackgroundService.service
       (BackgroundService.complete BackgroundService.restart_task
          (BackgroundService.current c))) = [].
Proof. vm_compute. repeat split. Qed.


End Evaluations.
